(** * atmos_agro_atlas: spectral indices, raster alignment and map helpers

    A shallow embedding of the raster core of the repository:
    - [core/engine/index_calculator.py]: the index formulas, [load_raster],
      [save_raster] and [IndexCalculator.analyse_scene];
    - [core/engine/renderers/multi_index_map.py] and [truecolor_map.py]:
      [_compute_clip_bounds] and [_mask_with_geojson];
    - [core/engine/exporters/csv_exporter.py]: [CSVExporter.export];
    - [core/pipeline/base.py], [models.py], [steps.py] and [executor.py],
      and [core/engine/facade.py]: the pipeline, its four steps,
      [WorkflowPipeline.run] and [WorkflowService.run_date_range];
    - [core/domain/entities.py]: [AreaOfInterest.to_wkt];
    - [core/adapters/catalog_copernicus.py]: [CopernicusClient.download]
      and [infer_product_name];
    - [core/engine/safe_extractor.py]: [SafeExtractor.extract] and
      [_locate_band].

    Part I holds the definitions, Part II the lemmas and theorems.

    What the repository calls in rasterio ([reproject], [rasterize],
    [transform.xy]), in requests ([session.get]), in the standard library
    ([glob], [stat], [zipfile], [urljoin]) and in its own [geoutils.py]
    and [raster.py], which are not among the sources
    ([extract_geometry_bounds], [iterate_geometries], and with them the
    body of [MultiIndexMapRenderer.render]), enters as Section variables;
    files are a finite map from paths to contents, with a log of the
    files opened and the directories made.  Logging calls are left out.

    The file system of the model has no access rights, no full disk and
    no file in the place of a directory: making a directory and
    creating a raster are taken to succeed, and a raster is written with
    an array of the shape that its metadata declare.  The properties
    that state that a run returns, or that a run which raises has written
    nothing, are to be read under this assumption.

    Samples are IEEE 754 values of the Standard Library's [SpecFloat]
    (sign, mantissa, exponent, one NaN), so that NaN, the infinities and
    the two zeros behave as they do in numpy and in Python floats. *)

From Stdlib Require Import ZArith Floats.SpecFloat.
From stdpp Require Import base option list strings gmap sorting.

Set Warnings "-register-all,-clear-no-such-hyp".

(** * Part I: the model *)

(** ** IEEE 754 samples *)

Module ieee.

Abbreviation float := spec_float.

Definition nan : float := S754_nan.
Definition pzero : float := S754_zero false.
Definition pinf : float := S754_infinity false.

#[export] Instance float_inhabited : Inhabited float := populate nan.

(** [np.isnan] and [np.isfinite] on one sample. *)
Definition isnan (x : float) : bool :=
  match x with S754_nan => true | _ => false end.

Definition isfinite (x : float) : bool :=
  match x with
  | S754_zero _ | S754_finite _ _ _ => true
  | S754_infinity _ | S754_nan => false
  end.

(** [x == 0]: true for both zeros, false for NaN. *)
Definition is_zero (x : float) : bool := SFeqb x pzero.

(** The literal [z * 2^e], rounded to the format. *)
Definition lit (prec emax : Z) (z e : Z) : float :=
  binary_normalize prec emax z e false.

(** [astype] to the format [prec], [emax]: finite values are rounded to
    nearest even, the others are kept. *)
Definition astype (prec emax : Z) (x : float) : float :=
  match x with
  | S754_finite s m e => binary_round prec emax s m e
  | _ => x
  end.

(** numpy's float32 and Python's float (binary64). *)
Definition prec32 : Z := 24.
Definition emax32 : Z := 128.
Definition prec64 : Z := 53.
Definition emax64 : Z := 1024.

End ieee.
Export ieee.

(** ** numpy arrays

    A 2-D [np.ndarray] is the list of its rows.  Arithmetic between two
    arrays and [np.where] work sample by sample; the operands of every
    formula have one shape (all bands are aligned on the nir grid before
    a formula is called), so the sample-wise zip is the numpy result. *)

Module np.

Abbreviation ndarray := (list (list float)).

Definition shape {A} (a : list (list A)) : nat * nat :=
  (length a, match a with [] => 0 | r :: _ => length r end).

(** [a] has [h] rows of [w] samples each. *)
Definition rect {A} (h w : nat) (a : list (list A)) : Prop :=
  length a = h ∧ Forall (λ row, length row = w) a.

(** The sample at row [r], column [c]. *)
Definition item {A} (a : list (list A)) (r c : nat) : option A :=
  a !! r ≫= λ row, row !! c.

Definition map1 {A B} (f : A → B) (a : list (list A)) : list (list B) :=
  (λ row : list A, f <$> row) <$> a.

Definition map2 {A B C} (f : A → B → C)
    (a : list (list A)) (b : list (list B)) : list (list C) :=
  zip_with (zip_with f) a b.

(** The array of shape [(h, w)] whose sample at [(r, c)] is [f r c]. *)
Definition tabulate {A} (h w : nat) (f : nat → nat → A) : list (list A) :=
  (λ r, f r <$> seq 0 w) <$> seq 0 h.

(** [np.where(cond, x, y)] with [x] a scalar. *)
Definition where_scalar_l {A} (cond : list (list bool)) (x : A)
    (y : list (list A)) : list (list A) :=
  map2 (λ (c : bool) v, if c then x else v) cond y.

(** [np.where(cond, x, y)] with [y] a scalar. *)
Definition where_scalar_r {A} (cond : list (list bool))
    (x : list (list A)) (y : A) : list (list A) :=
  map2 (λ (c : bool) v, if c then v else y) cond x.

(** [np.nonzero(valid)[0]] on one row: the indices that hold [true], in
    increasing order; [nonzero_from i] counts the indices from [i]. *)
Fixpoint nonzero_from (i : nat) (valid : list bool) : list nat :=
  match valid with
  | [] => []
  | b :: rest => (if b then [i] else []) ++ nonzero_from (S i) rest
  end.

Definition nonzero (valid : list bool) : list nat := nonzero_from 0 valid.

(** [np.any]. *)
Definition any (valid : list bool) : bool := existsb id valid.

End np.
Export np.

(** ** Exceptions, and the state-and-exception monad of the I/O code *)

Inductive exn :=
  | ValueError (msg : string)
  | RuntimeError (msg : string)
  | KeyError (key : string)
  | TypeError (msg : string)
  | RasterioIOError (msg : string).

(** A computation over a state [S] that returns or raises; the state it
    leaves is kept in both cases (Python objects stay mutated when an
    exception passes). *)
Definition M (S A : Type) : Type := S → (exn + A) * S.

Definition ret {S A} (a : A) : M S A := λ s, (inr a, s).
Definition raise {S A} (e : exn) : M S A := λ s, (inl e, s).
Definition bind {S A B} (m : M S A) (k : A → M S B) : M S B :=
  λ s, match m s with
       | (inr a, s') => k a s'
       | (inl e, s') => (inl e, s')
       end.
Definition lift_exn {S A} (r : exn + A) : M S A := λ s, (r, s).

#[export] Instance M_ret {S} : MRet (M S) := λ A, ret.
#[export] Instance M_bind {S} : MBind (M S) := λ A B k m, bind m k.

(** [for x in xs: acc = body(acc, x)] *)
Fixpoint foldM {S A B} (body : B → A → M S B) (acc : B) (xs : list A) : M S B :=
  match xs with
  | [] => ret acc
  | x :: xs' => acc' ← body acc x; foldM body acc' xs'
  end.

(** [d[k]] on a dict with string keys. *)
Definition getitem {S V} (d : gmap string V) (k : string) : M S V :=
  match d !! k with
  | Some v => ret v
  | None => raise (KeyError k)
  end.

(** ** Paths, georeferencing and the file system *)

(** A [pathlib.Path] is the list of its components. *)
Abbreviation Path := (list string).

(** [p / name] and [p.parent] *)
Definition path_join (p : Path) (name : string) : Path := (p ++ [name])%list.
Definition parent (p : Path) : Path := removelast p.

(** rasterio's [Affine(a, b, c, d, e, f)]: a pixel (col, row) lies at
    [x = a*col + b*row + c], [y = d*col + e*row + f].  It is a named tuple
    of floats, and two of them compare with [==] entry by entry. *)
Module Affine.

Record t := mk { a : float; b : float; c : float; d : float; e : float; f : float }.

Definition eqb (t1 t2 : t) : bool :=
  SFeqb (a t1) (a t2) && SFeqb (b t1) (b t2) && SFeqb (c t1) (c t2) &&
  SFeqb (d t1) (d t2) && SFeqb (e t1) (e t2) && SFeqb (f t1) (f t2).

(** [t1 != t2] *)
Definition ne (t1 t2 : t) : bool := negb (eqb t1 t2).

End Affine.

(** A coordinate reference system, by its name. *)
Definition CRS : Type := string.

Inductive Resampling := nearest | bilinear | cubic.

Module rasterio.

(** An open single-band dataset: its grid and the samples of band 1. *)
Record DatasetReader := {
  height : nat;
  width : nat;
  transform : Affine.t;
  crs : CRS;
  band1 : nat → nat → float;
}.

(** A cell of a CSV row: text, or a number. *)
Inductive cell := CStr (s : string) | CNum (x : float).

Inductive file :=
  | Raster (ds : DatasetReader)
  | Csv (rows : list (list cell)).

Inductive mode := rd | wr.

(** What the program does to the file system, in order. *)
Inductive io_event :=
  | Mkdir (p : Path)
  | Open (p : Path) (m : mode).

Record world := { files : gmap Path file; trace : list io_event }.

Definition log (ev : io_event) : M world unit :=
  λ w, (inr tt, {| files := files w; trace := trace w ++ [ev] |}).

(** The dataset stored at [path]. *)
Definition dataset_at (path : Path) : M world DatasetReader :=
  λ w, match files w !! path with
       | Some (Raster ds) => (inr ds, w)
       | _ => (inl (RasterioIOError "No such file or not a raster"), w)
       end.

(** [rasterio.open(path)] *)
Definition open (path : Path) : M world DatasetReader :=
  log (Open path rd);; dataset_at path.

(** [src.read(1)]: an array of shape [(src.height, src.width)]. *)
Definition read1 (src : DatasetReader) : ndarray :=
  tabulate (height src) (width src) (band1 src).

(** [dst.write(array, 1)] on a dataset opened with [meta], for an [array]
    of the height and width that [meta] declares: the file holds the grid
    of [meta] and the samples of [array].  rasterio does not compare the
    two shapes, and GDAL resamples a buffer of another shape into the
    band; that case is outside the model (the definition leaves NaN where
    [array] has no sample), and the properties about the samples of a
    written raster are stated for an array of the declared shape. *)
Definition store (destination : Path) (meta : DatasetReader) (array : ndarray) : M world unit :=
  λ w, (inr tt,
        {| files := <[destination :=
                       Raster {| height := height meta; width := width meta;
                                 transform := transform meta; crs := crs meta;
                                 band1 := λ r c, default nan (item array r c) |}]> (files w);
           trace := trace w |}).

(** [rasterio.open(destination, "w", **meta)] and [dst.write(array, 1)].
    Creating the file is taken to succeed: rasterio raises when the path
    cannot be created (its directory is missing, the path is a
    directory, the disk is full), which the model has no state for. *)
Definition write (destination : Path) (meta : DatasetReader) (array : ndarray) : M world unit :=
  log (Open destination wr);; store destination meta array.

(** [path.parent.mkdir(parents=True, exist_ok=True)], taken to succeed:
    [Path.mkdir] raises [FileExistsError] or [NotADirectoryError] when
    the path or one of its parents is a file. *)
Definition mkdir_parents (p : Path) : M world unit := log (Mkdir p).

End rasterio.

(** ** core/engine/index_calculator.py *)

Module index_calculator.

(** *** The index formulas

    The formulas do not fix a dtype; [prec] and [emax] are the format of
    the arrays they receive. *)

Section Formulas.
Context (prec emax : Z).

(** array + array, array - array, array / array *)
Definition add (x y : ndarray) : ndarray := map2 (SFadd prec emax) x y.
Definition sub (x y : ndarray) : ndarray := map2 (SFsub prec emax) x y.
Definition div (x y : ndarray) : ndarray := map2 (SFdiv prec emax) x y.
(** scalar * array, array + scalar, array - scalar *)
Definition smul (k : float) (x : ndarray) : ndarray := map1 (SFmul prec emax k) x.
Definition adds (x : ndarray) (k : float) : ndarray := map1 (λ v, SFadd prec emax v k) x.
Definition subs (x : ndarray) (k : float) : ndarray := map1 (λ v, SFsub prec emax v k) x.

Definition _compute_index (numerator denominator : ndarray) : ndarray :=
  let mask := map1 is_zero denominator in
  let denominator := where_scalar_l mask nan denominator in
  let index := div numerator denominator in
  where_scalar_l (map1 isnan index) pzero index.

Definition compute_ndvi (nir red : ndarray) : ndarray :=
  _compute_index (sub nir red) (add nir red).

Definition compute_ndwi (nir swir : ndarray) : ndarray :=
  _compute_index (sub nir swir) (add nir swir).

Definition compute_msi (nir swir : ndarray) : ndarray :=
  _compute_index swir nir.

(** [denominator = nir + 6 * red - 7.5 * blue + 1] *)
Definition compute_evi (nir red blue : ndarray) : ndarray :=
  let denominator :=
    adds (sub (add nir (smul (lit prec emax 6 0) red))
              (smul (lit prec emax 15 (-1)) blue))
         (lit prec emax 1 0) in
  smul (lit prec emax 5 (-1)) (_compute_index (sub nir red) denominator).

Definition compute_ndre (nir rededge : ndarray) : ndarray :=
  _compute_index (sub nir rededge) (add nir rededge).

Definition compute_ndmi (nir swir : ndarray) : ndarray :=
  _compute_index (sub nir swir) (add nir swir).

Definition compute_ndre_generic (nir rededge : ndarray) : ndarray :=
  _compute_index (sub nir rededge) (add nir rededge).

Definition compute_ci_rededge (nir rededge4 : ndarray) : ndarray :=
  subs (div nir rededge4) (lit prec emax 1 0).

Definition compute_sipi (nir red blue : ndarray) : ndarray :=
  _compute_index (sub nir blue) (sub nir red).

(** One sample of [_compute_index]: the three array statements applied to
    the numerator [n] and the denominator [d] of one pixel. *)
Definition index_sample (n d : float) : float :=
  let d' := if is_zero d then nan else d in
  let q := SFdiv prec emax n d' in
  if isnan q then pzero else q.

End Formulas.

(** *** The registry *)

(** A formula, by the number of bands it takes: a function of arrays
    that returns an array or raises, as the formula of a registry passed
    to [IndexCalculator] may. *)
Inductive callable :=
  | Fn2 (fn : ndarray → ndarray → exn + ndarray)
  | Fn3 (fn : ndarray → ndarray → ndarray → exn + ndarray).

(** The formulas of this module, which return on all the arrays that
    [analyse_scene] gives them. *)
Definition returns2 (fn : ndarray → ndarray → ndarray) : callable :=
  Fn2 (λ x y, inr (fn x y)).
Definition returns3 (fn : ndarray → ndarray → ndarray → ndarray) : callable :=
  Fn3 (λ x y z, inr (fn x y z)).

(** [func] applied to the unpacked list [arrays] *)
Definition call (fn : callable) (arrays : list ndarray) : exn + ndarray :=
  match fn, arrays with
  | Fn2 g, [x; y] => g x y
  | Fn3 g, [x; y; z] => g x y z
  | _, _ => inl (TypeError "wrong number of positional arguments")
  end.

Record IndexSpec := { bands : list string; func : callable }.

(** A [Dict[str, IndexSpec]] in insertion order. *)
Abbreviation registry := (list (string * IndexSpec)).

(** [load_raster] hands every band over as float32, so the formulas of the
    registry run in binary32. *)
Definition INDEX_SPECS : registry := [
  ("ndvi", {| bands := ["nir"; "red"]; func := returns2 (compute_ndvi prec32 emax32) |});
  ("ndwi", {| bands := ["nir"; "swir1"]; func := returns2 (compute_ndwi prec32 emax32) |});
  ("msi", {| bands := ["nir"; "swir1"]; func := returns2 (compute_msi prec32 emax32) |});
  ("evi", {| bands := ["nir"; "red"; "blue"]; func := returns3 (compute_evi prec32 emax32) |});
  ("ndre", {| bands := ["nir"; "rededge4"]; func := returns2 (compute_ndre prec32 emax32) |});
  ("ndmi", {| bands := ["nir"; "swir1"]; func := returns2 (compute_ndmi prec32 emax32) |});
  ("ndre1", {| bands := ["nir"; "rededge1"]; func := returns2 (compute_ndre_generic prec32 emax32) |});
  ("ndre2", {| bands := ["nir"; "rededge2"]; func := returns2 (compute_ndre_generic prec32 emax32) |});
  ("ndre3", {| bands := ["nir"; "rededge3"]; func := returns2 (compute_ndre_generic prec32 emax32) |});
  ("ndre4", {| bands := ["nir"; "rededge4"]; func := returns2 (compute_ndre_generic prec32 emax32) |});
  ("ci_rededge", {| bands := ["nir"; "rededge4"]; func := returns2 (compute_ci_rededge prec32 emax32) |});
  ("sipi", {| bands := ["nir"; "red"; "blue"]; func := returns3 (compute_sipi prec32 emax32) |})
].

(** [specs.keys()] and [specs[name]] *)
Definition keys (specs : registry) : list string := fst <$> specs.

Fixpoint lookup_spec (specs : registry) (name : string) : option IndexSpec :=
  match specs with
  | [] => None
  | (k, v) :: rest => if bool_decide (k = name) then Some v else lookup_spec rest name
  end.

Definition getspec {S} (specs : registry) (name : string) : M S IndexSpec :=
  match lookup_spec specs name with
  | Some v => ret v
  | None => raise (KeyError name)
  end.

(** *** Python helpers used by [analyse_scene] *)

(** [list(dict.fromkeys(xs))]: the first occurrence of each name, in order. *)
Fixpoint fromkeys_aux (seen : list string) (xs : list string) : list string :=
  match xs with
  | [] => []
  | x :: rest =>
      if bool_decide (x ∈ seen) then fromkeys_aux seen rest
      else x :: fromkeys_aux (x :: seen) rest
  end.

Definition dict_fromkeys (xs : list string) : list string := fromkeys_aux [] xs.

(** [sorted(s)] of a set of strings.  Python orders [str] by code point,
    which is the byte order of the UTF-8 text that a Rocq string holds. *)
Definition sorted (s : gset string) : list string := merge_sort String.le (elements s).

(** [sep.join(xs)] *)
Definition join (sep : string) (xs : list string) : string := String.concat sep xs.

(** *** Rasters *)

Section Calculator.

(** [rasterio.warp.reproject]: the sample it writes at row [r], column [c]
    of a destination of the given shape, from the source array, its grid
    and the destination grid; or the exception it raises. *)
Context (reproject :
  ndarray → Affine.t → CRS → Affine.t → CRS → Resampling → nat * nat →
  exn + (nat → nat → float)).

(** [np.empty((h, w))]: samples that are all overwritten before use. *)
Definition np_empty (h w : nat) : ndarray := tabulate h w (λ _ _, pzero).

(** The destination after [reproject] has filled it in place. *)
Definition filled (destination : ndarray) (sample : nat → nat → float) : ndarray :=
  imap (λ r row, imap (λ c _, sample r c) row) destination.

Definition load_raster (path : Path) (reference_path : option Path)
    : M rasterio.world (ndarray * Affine.t * CRS) :=
  src ← rasterio.open path;
  let data := map1 (astype prec32 emax32) (rasterio.read1 src) in
  let transform := rasterio.transform src in
  let crs := rasterio.crs src in
  let height := rasterio.height src in
  let width := rasterio.width src in
  match reference_path with
  | None => mret (data, transform, crs)
  | Some reference_path =>
      ref ← rasterio.open reference_path;
      if Affine.ne transform (rasterio.transform ref)
         || negb (height =? rasterio.height ref)%nat
         || negb (width =? rasterio.width ref)%nat
      then
        let destination := np_empty (rasterio.height ref) (rasterio.width ref) in
        sample ← lift_exn (reproject data transform crs
                             (rasterio.transform ref) (rasterio.crs ref) bilinear
                             (rasterio.height ref, rasterio.width ref));
        mret (filled destination sample, rasterio.transform ref, rasterio.crs ref)
      else mret (data, transform, crs)
  end.

Definition save_raster (array : ndarray) (template_path destination : Path)
    : M rasterio.world Path :=
  rasterio.mkdir_parents (parent destination);;
  src ← rasterio.open template_path;
  let meta := src in
  rasterio.write destination meta (map1 (astype prec32 emax32) array);;
  mret destination.

(** *** [IndexCalculator] *)

Record IndexCalculator := { specs : registry }.

(** [self.specs = specs or INDEX_SPECS] *)
Definition IndexCalculator_init (specs : option registry) : IndexCalculator :=
  match specs with
  | Some (_ :: _ as s) => {| specs := s |}
  | _ => {| specs := INDEX_SPECS |}
  end.

(** Lines 129-143: the checks made before any raster is touched. *)
Definition requested_of (self : IndexCalculator) (indices : option (list string)) : list string :=
  match indices with
  | Some xs => dict_fromkeys xs
  | None => keys (specs self)
  end.

Definition unknown_of (self : IndexCalculator) (requested : list string) : list string :=
  sorted (list_to_set requested ∖ list_to_set (keys (specs self))).

(** [for name in requested: required.update(self.specs[name].bands)] *)
Definition required_of (self : IndexCalculator) (requested : list string)
    : M rasterio.world (gset string) :=
  foldM (λ (required : gset string) name,
           spec ← getspec (specs self) name;
           mret (required ∪ list_to_set (bands spec)))
        ∅ requested.

(** Lines 145-150: nir first, then every other required band on its grid. *)
Definition load_bands (band_paths : gmap string Path) (required : gset string)
    : M rasterio.world (gmap string ndarray) :=
  nir_path ← getitem band_paths "nir";
  '(nir_data, transform, crs) ← load_raster nir_path None;
  foldM (λ (band_arrays : gmap string ndarray) band,
           path ← getitem band_paths band;
           reference_path ← getitem band_paths "nir";
           '(data, _, _) ← load_raster path (Some reference_path);
           mret (<[band := data]> band_arrays))
        {["nir" := nir_data]} (elements (required ∖ {["nir"]})).

(** Lines 152-158: one output raster per requested index. *)
Definition compute_outputs (self : IndexCalculator) (band_paths : gmap string Path)
    (output_dir : Path) (requested : list string) (band_arrays : gmap string ndarray)
    : M rasterio.world (gmap string Path) :=
  foldM (λ (outputs : gmap string Path) name,
           spec ← getspec (specs self) name;
           arrays ← foldM (λ acc band, x ← getitem band_arrays band; mret (acc ++ [x])%list)
                          [] (bands spec);
           result ← lift_exn (call (func spec) arrays);
           template ← getitem band_paths "nir";
           saved ← save_raster result template (path_join output_dir (name +:+ ".tif"));
           mret (<[name := saved]> outputs))
        ∅ requested.

Definition analyse_scene (self : IndexCalculator) (band_paths : gmap string Path)
    (output_dir : Path) (indices : option (list string))
    : M rasterio.world (gmap string Path) :=
  let requested := requested_of self indices in
  if bool_decide (requested = []) then
    raise (ValueError "No spectral indices requested.")
  else
  let unknown := unknown_of self requested in
  if negb (bool_decide (unknown = [])) then
    raise (ValueError ("Unsupported indices requested: " +:+ join ", " unknown))
  else
  required ← required_of self requested;
  let missing_bands := required ∖ dom band_paths in
  if negb (bool_decide (missing_bands = ∅)) then
    raise (RuntimeError ("Missing bands for analysis: " +:+ join ", " (sorted missing_bands)))
  else
  band_arrays ← load_bands band_paths required;
  compute_outputs self band_paths output_dir requested band_arrays.

End Calculator.

End index_calculator.

(** ** core/engine/renderers: clip bounds and polygon mask

    [geoutils.py] ([extract_geometry_bounds], [iterate_geometries]) is not
    among the sources and [rasterize] is rasterio's: the three are
    parameters of the two methods modelled here. *)

Module renderers.

(** A bounding box [(min_lon, min_lat, max_lon, max_lat)]. *)
Record Bounds := { min_lon : float; min_lat : float; max_lon : float; max_lat : float }.

(** Python's [min] and [max] over a non-empty sequence: the first entry,
    replaced by every later one that is [<] (for [max]: [>]) the best so far. *)
Definition py_min (first : float) (rest : list float) : float :=
  fold_left (λ best v, if SFltb v best then v else best) rest first.

Definition py_max (first : float) (rest : list float) : float :=
  fold_left (λ best v, if SFltb best v then v else best) rest first.

(** Python float arithmetic (binary64). *)
Definition fsub (x y : float) : float := SFsub prec64 emax64 x y.
Definition fadd (x y : float) : float := SFadd prec64 emax64 x y.
Definition fmul (x y : float) : float := SFmul prec64 emax64 x y.
Definition fdiv (x y : float) : float := SFdiv prec64 emax64 x y.
Definition two : float := lit prec64 emax64 2 0.

Section Renderers.
Context {GeoJSON Geom : Type}.
Context (extract_geometry_bounds : GeoJSON → option Bounds).
Context (iterate_geometries : GeoJSON → list Geom).
(** [rasterize(shapes, out_shape, transform, fill, all_touched, dtype=uint8)]:
    the value burnt at row [r], column [c], or the exception it raises. *)
Context (rasterize :
  list (Geom * Z) → nat * nat → Affine.t → Z → bool → exn + (nat → nat → Z)).

(** [MultiIndexMapRenderer._compute_clip_bounds], with
    [self.options.padding_factor] as [padding_factor].
    [TrueColorRenderer._compute_clip_bounds] is the same text. *)
Definition _compute_clip_bounds (padding_factor : float)
    (overlay_geojsons : list GeoJSON) : option Bounds :=
  let geom_bounds := extract_geometry_bounds <$> overlay_geojsons in
  let geom_bounds := omap id geom_bounds in
  match geom_bounds with
  | [] => None
  | b :: rest =>
      let min_lon_geo := py_min (min_lon b) (min_lon <$> rest) in
      let min_lat_geo := py_min (min_lat b) (min_lat <$> rest) in
      let max_lon_geo := py_max (max_lon b) (max_lon <$> rest) in
      let max_lat_geo := py_max (max_lat b) (max_lat <$> rest) in
      let width := fsub max_lon_geo min_lon_geo in
      let height := fsub max_lat_geo min_lat_geo in
      let pad_lon := fdiv (fmul width padding_factor) two in
      let pad_lat := fdiv (fmul height padding_factor) two in
      Some {| min_lon := fsub min_lon_geo pad_lon;
              min_lat := fsub min_lat_geo pad_lat;
              max_lon := fadd max_lon_geo pad_lon;
              max_lat := fadd max_lat_geo pad_lat |}
  end.

(** [MultiIndexMapRenderer._mask_with_geojson] *)
Definition _mask_with_geojson (data : ndarray) (transform : Affine.t)
    (overlay_geojsons : list GeoJSON) : exn + ndarray :=
  let shapes :=
    flat_map (λ geojson_data, (λ geom, (geom, 1%Z)) <$> iterate_geometries geojson_data)
             overlay_geojsons in
  match shapes with
  | [] => inr data
  | _ :: _ =>
      match rasterize shapes (shape data) transform 0%Z false with
      | inl e => inl e
      | inr burnt =>
          let mask := tabulate (shape data).1 (shape data).2 burnt in
          inr (where_scalar_r (map1 (λ v, (v =? 1)%Z) mask) data nan)
      end
  end.

End Renderers.

End renderers.

(** ** core/engine/exporters/csv_exporter.py *)

Module csv_exporter.

Import rasterio.

Record CSVExporter := { fieldnames : string * string * string }.

Definition CSVExporter_init : CSVExporter :=
  {| fieldnames := ("longitude", "latitude", "value") |}.

Section Exporter.

(** [rasterio.transform.xy(transform, row, col, offset="center")] for one
    pixel: the coordinates of its center. *)
Context (xy_center : Affine.t → nat → nat → float * float).

(** [xy] on lists of rows and columns works pixel by pixel. *)
Definition xy (transform : Affine.t) (rows cols : list nat) : list float * list float :=
  let points := zip_with (xy_center transform) rows cols in
  (fst <$> points, snd <$> points).

Definition _coordinates (transform : Affine.t) (row : nat) (columns : list nat)
    : list float * list float :=
  let rows_iter := replicate (length columns) row in
  xy transform rows_iter columns.

(** The body of the loop over [enumerate(data)]: the rows written for one
    row of the array. *)
Definition export_row (transform : Affine.t) (row_idx : nat) (row : list float)
    : list (list cell) :=
  let valid := isfinite <$> row in
  if negb (np.any valid) then []
  else
    let cols := nonzero valid in
    let '(lons, lats) := _coordinates transform row_idx cols in
    zip_with (λ '(lon, lat) col_idx, [CNum lon; CNum lat; CNum (row !!! col_idx)])
             (zip lons lats) cols.

(** Every [writer.writerow] call of [export], in order. *)
Definition written_rows (self : CSVExporter) (data : ndarray) (transform : Affine.t)
    : list (list cell) :=
  let '(f1, f2, f3) := fieldnames self in
  [CStr f1; CStr f2; CStr f3] :: mjoin (imap (export_row transform) data).

Definition store_csv (output_path : Path) (rows : list (list cell)) : M world unit :=
  λ w, (inr tt, {| files := <[output_path := Csv rows]> (files w); trace := trace w |}).

Definition export (self : CSVExporter) (data : ndarray) (transform : Affine.t)
    (output_path : Path) : M world Path :=
  mkdir_parents (parent output_path);;
  log (Open output_path wr);;
  store_csv output_path (written_rows self data transform);;
  mret output_path.

End Exporter.

End csv_exporter.

(** ** core/domain/entities.py *)

(** The exception monad of the pure code. *)
Definition ebind {A B} (r : exn + A) (k : A → exn + B) : exn + B :=
  match r with
  | inl e => inl e
  | inr a => k a
  end.

(** [[f(x) for x in xs]], stopping at the first exception. *)
Fixpoint mapE {A B} (f : A → exn + B) (xs : list A) : exn + list B :=
  match xs with
  | [] => inr []
  | x :: rest => ebind (f x) (λ y, ebind (mapE f rest) (λ ys, inr (y :: ys)))
  end.

Module entities.

Import index_calculator.

(** A JSON number as [json.load] reads it: an [int] or a [float]. *)
Inductive number := NInt (z : Z) | NFloat (x : float).

(** The value of a ["coordinates"] member: nested arrays of numbers.  A
    number comes with the identity of its object, [id(x)]: a list compares
    its entries by identity before it compares them by value, and a float
    NaN, which is not equal to itself by value, is the one number for which
    the two differ.  [json.load] gives every [NaN] of a document one object
    ([json.decoder.NaN]); [float("nan")] makes a new one at every call.
    One identity stands for one object, hence for one value.  A list needs
    no identity of its own: two lists that are one object have the same
    entries, object by object, and so compare equal entry by entry. *)
Inductive pyval := PNum (obj : N) (n : number) | PList (items : list pyval).

(** A GeoJSON dict, by the members the code reads: ["type"],
    ["coordinates"], ["features"] and ["geometry"], each present or not. *)
Inductive GeoJSON :=
  Dict (type : option string) (coordinates : option pyval)
       (features : option (list GeoJSON)) (geometry : option GeoJSON).

Definition get_type (g : GeoJSON) : option string :=
  let 'Dict t _ _ _ := g in t.
Definition get_coordinates (g : GeoJSON) : option pyval :=
  let 'Dict _ c _ _ := g in c.
Definition get_features (g : GeoJSON) : option (list GeoJSON) :=
  let 'Dict _ _ f _ := g in f.
Definition get_geometry (g : GeoJSON) : option GeoJSON :=
  let 'Dict _ _ _ x := g in x.

Record AreaOfInterest := { geometry : GeoJSON }.

(** [x == z] for a float [x] and an int [z]: exact, as Python compares. *)
Definition float_eq_int (x : float) (z : Z) : bool :=
  match x with
  | S754_zero _ => (z =? 0)%Z
  | S754_finite s m e =>
      let v := if s then Z.neg m else Z.pos m in
      if (0 <=? e)%Z then (z =? v * 2 ^ e)%Z else (z * 2 ^ (- e) =? v)%Z
  | _ => false
  end.

Definition num_eqb (a b : number) : bool :=
  match a, b with
  | NInt x, NInt y => (x =? y)%Z
  | NFloat x, NFloat y => SFeqb x y
  | NInt z, NFloat x | NFloat x, NInt z => float_eq_int x z
  end.

(** [PyObject_RichCompareBool(x, y, Py_EQ)], by which a list compares its
    entries: true when the two are one object, and [x == y] otherwise.
    Two lists are equal when they have the same length and their entries
    compare equal in this way, one by one ([list_richcompare]). *)
Fixpoint item_eqb (x y : pyval) : bool :=
  match x, y with
  | PNum i a, PNum j b => (i =? j)%N || num_eqb a b
  | PList xs, PList ys =>
      (fix go (xs ys : list pyval) : bool :=
         match xs, ys with
         | [], [] => true
         | x' :: xs', y' :: ys' => item_eqb x' y' && go xs' ys'
         | _, _ => false
         end) xs ys
  | _, _ => false
  end.

(** [x == y]: two numbers by value, whether or not they are one object;
    two lists entry by entry; a number and a list are not equal. *)
Definition py_eqb (x y : pyval) : bool :=
  match x, y with
  | PNum _ a, PNum _ b => num_eqb a b
  | _, _ => item_eqb x y
  end.

(** [ring[0] != ring[-1]]; in a ring of one entry the two are one object. *)
Definition first_ne_last (ring : list pyval) : bool :=
  match ring with
  | [] => false
  | first :: _ => negb (py_eqb first (default first (last ring)))
  end.

(** [not ring] *)
Definition falsy (v : pyval) : bool :=
  match v with
  | PList [] => true
  | PList (_ :: _) => false
  | PNum _ (NInt z) => (z =? 0)%Z
  | PNum _ (NFloat x) => is_zero x
  end.

(** [s.replace(old, new, 1)] *)
Fixpoint replace_first (old new s : string) : string :=
  if String.prefix old s then
    new +:+ String.substring (String.length old) (String.length s - String.length old) s
  else
    match s with
    | EmptyString => EmptyString
    | String ch rest => String ch (replace_first old new rest)
    end.

Section Wkt.

(** [str(x)] of a number, as CPython prints it. *)
Context (str_number : number → string).

(** [str(v)]; a list prints its entries between brackets. *)
Fixpoint py_str (v : pyval) : string :=
  match v with
  | PNum _ n => str_number n
  | PList items => "[" +:+ join ", " (py_str <$> items) +:+ "]"
  end.

(** [f"{lon} {lat}" for lon, lat in ring], for one entry of the ring. *)
Definition position_text (position : pyval) : exn + string :=
  match position with
  | PList [lon; lat] => inr (py_str lon +:+ " " +:+ py_str lat)
  | PList _ => inl (ValueError "wrong number of values to unpack")
  | PNum _ _ => inl (TypeError "cannot unpack non-iterable object")
  end.

(** The ring as it is serialized: closed first when [ring[0] != ring[-1]]. *)
Definition closed_ring (ring : list pyval) : list pyval :=
  match ring with
  | [] => []
  | first :: _ => if first_ne_last ring then (ring ++ [first])%list else ring
  end.

(** The body of the loop over [coordinates]: the text of one ring. *)
Definition ring_text (ring : pyval) : exn + string :=
  if falsy ring then inl (ValueError "GeoJSON polygon ring is empty.")
  else
    match ring with
    | PNum _ _ => inl (TypeError "object is not subscriptable")
    | PList items =>
        ebind (mapE position_text (closed_ring items)) (λ texts, inr (join ", " texts))
    end.

Definition _polygon_to_wkt (coordinates : option pyval) : exn + string :=
  match coordinates with
  | Some (PList rings_in) =>
      ebind (mapE ring_text rings_in) (λ rings,
      let inner := join ", " ((λ ring, "(" +:+ ring +:+ ")") <$> rings) in
      inr ("POLYGON (" +:+ inner +:+ ")"))
  | _ => inl (TypeError "object is not iterable")
  end.

Definition _extract_geometry (geometry : GeoJSON) : exn + GeoJSON :=
  if bool_decide (get_type geometry = Some "FeatureCollection") then
    match default [] (get_features geometry) with
    | [] => inl (ValueError "GeoJSON feature collection is empty.")
    | feature :: _ =>
        match get_geometry feature with
        | Some g => inr g
        | None => inl (KeyError "geometry")
        end
    end
  else if bool_decide (get_type geometry = Some "Feature") then
    match get_geometry geometry with
    | Some g => inr g
    | None => inl (KeyError "geometry")
    end
  else inr geometry.

Definition to_wkt (self : AreaOfInterest) : exn + string :=
  ebind (_extract_geometry (geometry self)) (λ geometry,
  let gtype := get_type geometry in
  let coordinates := get_coordinates geometry in
  if bool_decide (gtype = Some "Polygon") then _polygon_to_wkt coordinates
  else if bool_decide (gtype = Some "MultiPolygon") then
    match coordinates with
    | Some (PList polygons) =>
        ebind (mapE (λ polygon, _polygon_to_wkt (Some polygon)) polygons) (λ polygon_wkts,
        let inner := join ", " ((λ wkt, replace_first "POLYGON " "" wkt) <$> polygon_wkts) in
        inr ("MULTIPOLYGON (" +:+ inner +:+ ")"))
    | _ => inl (TypeError "object is not iterable")
    end
  else inl (ValueError ("Unsupported geometry type: " +:+ default "None" gtype))).

End Wkt.

End entities.

(** ** core/pipeline: models.py, base.py and steps.py *)

Module pipeline.

Import index_calculator.

(** The directories of [core.cfg.settings.AppConfig] that the steps read
    (the class itself is not among the sources). *)
Module AppConfig.
Record t := {
  DATA_RAW_DIR : Path;
  DATA_PROCESSED_DIR : Path;
  MAPAS_DIR : Path;
}.
End AppConfig.

Module WorkflowParameters.
Record t := {
  start : string;
  end_ : string;
  aoi_path : Path;
  cloud : Z * Z;
  indices : option (list string);
  upsample : float;
  smooth_radius : float;
  sharpen : bool;
  sharpen_radius : float;
  sharpen_amount : float;
  tiles : string;
  tile_attr : option string;
  padding : float;
  clip : bool;
  safe_path : option Path;
}.
End WorkflowParameters.

Module WorkflowContext.
Record t := {
  config : AppConfig.t;
  params : WorkflowParameters.t;
  product_path : option Path;
  product_title : option string;
  bands : gmap string Path;
  indices : gmap string Path;
  maps : list Path;
  aoi : entities.AreaOfInterest;
}.

(** [context.indices = outputs] *)
Definition set_indices (outputs : gmap string Path) (context : t) : t :=
  {| config := config context; params := params context;
     product_path := product_path context; product_title := product_title context;
     bands := bands context; indices := outputs; maps := maps context;
     aoi := aoi context |}.

(** [register_map] *)
Definition register_map (path : Path) (context : t) : t :=
  {| config := config context; params := params context;
     product_path := product_path context; product_title := product_title context;
     bands := bands context; indices := indices context;
     maps := (maps context ++ [path])%list; aoi := aoi context |}.
End WorkflowContext.

(** What a step can change: the context object and the file system. *)
Definition state : Type := WorkflowContext.t * rasterio.world.

(** [PipelineStep]: a name and a [run] method. *)
Record PipelineStep := { name : string; run : M state unit }.

Record Pipeline := { steps : list PipelineStep }.

(** [Pipeline.run]: the steps in order; an exception of a step ends the
    loop and reaches the caller. *)
Fixpoint run_steps (steps : list PipelineStep) : M state unit :=
  match steps with
  | [] => ret tt
  | step :: rest => run step;; run_steps rest
  end.

Definition Pipeline_run (self : Pipeline) : M state unit := run_steps (steps self).

(** Reading the context, and running file-system code from a step. *)
Definition get_context : M state WorkflowContext.t := λ s, (inr s.1, s).
Definition modify_context (f : WorkflowContext.t → WorkflowContext.t) : M state unit :=
  λ s, (inr tt, (f s.1, s.2)).
Definition with_world {A} (m : M rasterio.world A) : M state A :=
  λ s, let '(r, w) := m s.2 in (r, (s.1, w)).

Section Steps.
Context (reproject :
  ndarray → Affine.t → CRS → Affine.t → CRS → Resampling → nat * nat →
  exn + (nat → nat → float)).

(** [ComputeIndicesStep.run] *)
Definition ComputeIndicesStep_run (calculator : IndexCalculator) : M state unit :=
  context ← get_context;
  if bool_decide (WorkflowContext.bands context = ∅) then
    raise (RuntimeError "Nenhuma banda disponível para cálculo dos índices.")
  else
  match WorkflowContext.product_title context with
  | None => raise (RuntimeError "Produto ainda não foi resolvido.")
  | Some product_title =>
      let indices_dir :=
        path_join (path_join (AppConfig.DATA_PROCESSED_DIR (WorkflowContext.config context))
                             product_title) "indices" in
      let requested := WorkflowParameters.indices (WorkflowContext.params context) in
      outputs ← with_world
        (analyse_scene reproject calculator (WorkflowContext.bands context)
                       indices_dir requested);
      modify_context (WorkflowContext.set_indices outputs)
  end.

Definition ComputeIndicesStep (calculator : IndexCalculator) : PipelineStep :=
  {| name := "compute_indices"; run := ComputeIndicesStep_run calculator |}.

End Steps.

End pipeline.

(** ** pathlib and str helpers

    [PurePath.name] and [PurePath.stem] as CPython defines them, and the
    [str] methods that the adapters use. *)

Module pathlib.

(** [s.rfind(ch)]: the last index of [ch] in [s], if any. *)
Fixpoint rfind (ch : Ascii.ascii) (s : string) : option nat :=
  match s with
  | EmptyString => None
  | String c rest =>
      match rfind ch rest with
      | Some i => Some (S i)
      | None => if Ascii.eqb c ch then Some 0 else None
      end
  end.

(** The character [.] (code point 46). *)
Definition dot : Ascii.ascii := Ascii.ascii_of_nat 46.

(** [s.endswith(suffix)] *)
Definition endswith (s suffix : string) : bool :=
  (String.length suffix <=? String.length s)%nat &&
  String.eqb (String.substring (String.length s - String.length suffix)
                               (String.length suffix) s) suffix.

(** [path.name]: the last component. *)
Definition name (path : Path) : string := default "" (last path).

(** [path.stem]: with [i = name.rfind(".")], the text [name[:i]] when
    [0 < i < len(name) - 1], and the name otherwise. *)
Definition stem (path : Path) : string :=
  let name := name path in
  match rfind dot name with
  | Some i =>
      if (0 <? i)%nat && (i <? String.length name - 1)%nat
      then String.substring 0 i name else name
  | None => name
  end.

(** [path.suffix]: [name[i:]] under the same condition, and the empty
    text otherwise. *)
Definition suffix (path : Path) : string :=
  let name := name path in
  match rfind dot name with
  | Some i =>
      if (0 <? i)%nat && (i <? String.length name - 1)%nat
      then String.substring i (String.length name - i) name else EmptyString
  | None => EmptyString
  end.

End pathlib.

(** ** core/adapters/catalog_copernicus.py *)

Module catalog_copernicus.

Import pathlib.

(** [CopernicusClient.infer_product_name] *)
Definition infer_product_name (path : Path) : string :=
  let stem := stem path in
  let stem :=
    if endswith stem ".SAFE" then String.substring 0 (String.length stem - 5) stem
    else stem in
  if bool_decide (stem = "") then name path else stem.

(** [s.rstrip(ch)] *)
Fixpoint rstrip (ch : Ascii.ascii) (s : string) : string :=
  match s with
  | EmptyString => EmptyString
  | String c rest =>
      match rstrip ch rest with
      | EmptyString => if Ascii.eqb c ch then EmptyString else String c EmptyString
      | kept => String c kept
      end
  end.

(** The character [/] (code point 47). *)
Definition slash : Ascii.ascii := Ascii.ascii_of_nat 47.

(** A product payload of the catalogue: a JSON object, whose values are
    taken to be strings, as the catalogue sends ["Id"] and ["Name"]. *)
Definition Product : Type := gmap string string.

(** [d.get(key)] as a truth value: the text, unless it is absent or empty. *)
Definition get_text (d : Product) (key : string) : option string :=
  match d !! key with
  | Some (String _ _ as text) => Some text
  | _ => None
  end.

(** What [download] reads of a [requests.Response]. *)
Record Response := {
  is_redirect : bool;
  Location : option string;
  status_code : Z;
  iter_content : list string;
}.

(** [download] raises a Python exception or, through
    [raise_for_status], an [HTTPError]. *)
Inductive failure :=
  | Raised (e : exn)
  | HTTPError (status_code : Z).

(** What [download] does outside the process: the URLs it requests, in
    order, the directories it makes and the archives it writes. *)
Record network := {
  requests : list string;
  directories : list Path;
  archives : gmap Path string;
}.

Section Download.

(** [session.get(url, stream=True, allow_redirects=False)]: the
    response, which may depend on the requests made before. *)
Context (get : list string → string → Response).
Context (urljoin : string → string → string).
(** [self.cfg.api_url] *)
Context (api_url : string).

(** The loop [for _ in range(5)], with the number of turns left: the
    response on which it breaks, or [None] when it runs out (the [else]
    branch), and the requests made. *)
Fixpoint follow (turns : nat) (current_url : string) (requested : list string)
    : option Response * list string :=
  match turns with
  | O => (None, requested)
  | S turns' =>
      let response := get requested current_url in
      let requested := (requested ++ [current_url])%list in
      if is_redirect response then
        match Location response with
        | Some (String _ _ as location) =>
            follow turns' (urljoin current_url location) requested
        | _ => (Some response, requested)
        end
      else (Some response, requested)
  end.

(** [raise_for_status] raises for the codes from 400 to 599. *)
Definition is_error (status_code : Z) : bool :=
  (400 <=? status_code)%Z && (status_code <? 600)%Z.

Definition download (product : Product) (dst_dir : Path)
    : network → (failure + Path) * network :=
  λ s,
  let directories := (directories s ++ [dst_dir])%list in
  match get_text product "Id" with
  | None =>
      (inl (Raised (RuntimeError "Product payload missing 'Id' field.")),
       {| requests := requests s; directories := directories; archives := archives s |})
  | Some product_id =>
      let product_name := default product_id (get_text product "Name") in
      let archive_name :=
        if endswith product_name ".zip" then product_name else product_name +:+ ".zip" in
      let download_url :=
        urljoin (rstrip slash api_url +:+ "/") ("Products(" +:+ product_id +:+ ")/$value") in
      let target_path := path_join dst_dir archive_name in
      match follow 5 download_url (requests s) with
      | (None, requested) =>
          (inl (Raised (RuntimeError
                  "Exceeded maximum number of redirects while downloading product.")),
           {| requests := requested; directories := directories; archives := archives s |})
      | (Some response, requested) =>
          if (400 <=? status_code response)%Z && is_error (status_code response) then
            (inl (HTTPError (status_code response)),
             {| requests := requested; directories := directories;
                archives := archives s |})
          else
            (inr target_path,
             {| requests := requested; directories := directories;
                archives := <[target_path := String.concat "" (iter_content response)]>
                              (archives s) |})
      end
  end.

End Download.

End catalog_copernicus.

(** ** core/engine/safe_extractor.py *)

Module safe_extractor.

Import pathlib.

Definition DEFAULT_SENTINEL_BANDS : list (string * string) := [
  ("B01", "coastal"); ("B02", "blue"); ("B03", "green"); ("B04", "red");
  ("B05", "rededge1"); ("B06", "rededge2"); ("B07", "rededge3"); ("B08", "nir");
  ("B8A", "rededge4"); ("B09", "water_vapor"); ("B10", "cirrus"); ("B11", "swir1");
  ("B12", "swir2")
].

(** [needle in s] *)
Definition contains (needle s : string) : bool :=
  match String.index 0 needle s with
  | Some _ => true
  | None => false
  end.

(** The key of the sort of [_locate_band]:
    [("10m" not in p.name, "20m" in p.name, p.name)]. *)
Definition sort_key (p : Path) : bool * bool * string :=
  (negb (contains "10m" (name p)), contains "20m" (name p), name p).

(** [a < b] on two keys: tuples compare at their first entries that
    differ, [False < True], and strings by code point. *)
Definition bool_lt (a b : bool) : bool := negb a && b.

Definition key_lt (a b : bool * bool * string) : bool :=
  if Bool.eqb a.1.1 b.1.1 then
    if Bool.eqb a.1.2 b.1.2 then String.ltb a.2 b.2
    else bool_lt a.1.2 b.1.2
  else bool_lt a.1.1 b.1.1.

(** [matches.sort(key=...)]: a stable sort, here by insertion of each
    entry before the sorted entries that follow it. *)
Fixpoint insert (p : Path) (sorted : list Path) : list Path :=
  match sorted with
  | [] => [p]
  | q :: rest =>
      if key_lt (sort_key q) (sort_key p) then q :: insert p rest else p :: q :: rest
  end.

Definition sort_by_key (matches : list Path) : list Path := foldr insert [] matches.

Section Locate.

(** [list(safe_root.glob(pattern))] *)
Context (glob : Path → string → list Path).

Definition patterns (band : string) : list string :=
  [ "**/IMG_DATA/*/*_" +:+ band +:+ "_*.jp2";
    "**/IMG_DATA/*_" +:+ band +:+ "_*.jp2";
    "**/IMG_DATA/**/*_" +:+ band +:+ "_*.jp2" ].

(** The loop over the patterns; [None] stands for the
    [FileNotFoundError] raised after it. *)
Fixpoint first_match (safe_root : Path) (patterns : list string) : option Path :=
  match patterns with
  | [] => None
  | pattern :: rest =>
      match glob safe_root pattern with
      | [] => first_match safe_root rest
      | matches => head (sort_by_key matches)
      end
  end.

Definition _locate_band (safe_root : Path) (band : string) : option Path :=
  first_match safe_root (patterns band).

End Locate.

(** [self.bands]: band ids and their aliases, in insertion order. *)
Record SafeExtractor := { bands : list (string * string) }.

(** [self.bands = bands or DEFAULT_SENTINEL_BANDS] *)
Definition SafeExtractor_init (bands : option (list (string * string))) : SafeExtractor :=
  match bands with
  | Some (_ :: _ as b) => {| bands := b |}
  | _ => {| bands := DEFAULT_SENTINEL_BANDS |}
  end.

Section Extract.

Context (glob : Path → string → list Path).

(** [path.stat().st_mtime] in a state of the file system, or [None] for
    the [OSError] that [stat] raises. *)
Context (st_mtime : rasterio.world → Path → option float).

(** The archive branch of [extract]: [zipfile] unpacks the archive into a
    temporary directory, whose first [*.SAFE] entry is returned; or an
    exception is raised on the way. *)
Context (unzip : Path → M rasterio.world Path).

(** [tmp_dir.cleanup()]: the temporary directory is removed. *)
Context (cleanup : M rasterio.world unit).

(** The test of lines 59-68: the GeoTIFF exists, both modification times
    can be read, and the GeoTIFF is not older than the JPEG 2000 file. *)
Definition reusable (tif_path jp2_path : Path) : M rasterio.world bool :=
  λ w, (inr (match rasterio.files w !! tif_path with
             | Some _ =>
                 match st_mtime w tif_path, st_mtime w jp2_path with
                 | Some tif_mtime, Some jp2_mtime => SFleb jp2_mtime tif_mtime
                 | _, _ => false
                 end
             | None => false
             end), w).

(** The body of the loop over the bands. *)
Definition extract_band (safe_root destination : Path) (extracted : gmap string Path)
    (item : string * string) : M rasterio.world (gmap string Path) :=
  let '(band_id, alias) := item in
  match _locate_band glob safe_root band_id with
  | None => mret extracted
  | Some jp2_path =>
      let tif_path := path_join destination (alias +:+ ".tif") in
      reusable tif_path jp2_path ≫= λ cached : bool,
      if cached then mret (<[alias := tif_path]> extracted)
      else
        src ← rasterio.open jp2_path;
        let profile := src in
        let data := rasterio.read1 src in
        rasterio.write tif_path profile data;;
        mret (<[alias := tif_path]> extracted)
  end.

Definition extract (self : SafeExtractor) (safe_archive destination : Path)
    : M rasterio.world (gmap string Path) :=
  rasterio.mkdir_parents destination;;
  let is_archive := String.eqb (suffix safe_archive) ".zip" in
  safe_root ← (if is_archive then unzip safe_archive else mret safe_archive);
  extracted ← foldM (extract_band safe_root destination) ∅ (bands self);
  (if is_archive then cleanup else mret tt);;
  mret extracted.

End Extract.

End safe_extractor.

(** ** core/pipeline/steps.py, executor.py and core/engine/facade.py

    The objects that the steps hold enter as what they are called for:
    the Copernicus client by its three methods, the extractor by
    [extract] and the renderer by [render] (its body calls [raster.py],
    which is not among the sources). *)

Module workflow.

Import index_calculator pipeline.

Abbreviation Product := catalog_copernicus.Product.

(** [context.product_path = ...; context.product_title = ...] and
    [context.bands = bands] *)
Definition set_product (path : Path) (title : string) (context : WorkflowContext.t)
    : WorkflowContext.t :=
  {| WorkflowContext.config := WorkflowContext.config context;
     WorkflowContext.params := WorkflowContext.params context;
     WorkflowContext.product_path := Some path;
     WorkflowContext.product_title := Some title;
     WorkflowContext.bands := WorkflowContext.bands context;
     WorkflowContext.indices := WorkflowContext.indices context;
     WorkflowContext.maps := WorkflowContext.maps context;
     WorkflowContext.aoi := WorkflowContext.aoi context |}.

Definition set_bands (bands : gmap string Path) (context : WorkflowContext.t)
    : WorkflowContext.t :=
  {| WorkflowContext.config := WorkflowContext.config context;
     WorkflowContext.params := WorkflowContext.params context;
     WorkflowContext.product_path := WorkflowContext.product_path context;
     WorkflowContext.product_title := WorkflowContext.product_title context;
     WorkflowContext.bands := bands;
     WorkflowContext.indices := WorkflowContext.indices context;
     WorkflowContext.maps := WorkflowContext.maps context;
     WorkflowContext.aoi := WorkflowContext.aoi context |}.

(** The fields of [MultiIndexMapOptions] that
    [create_renderer_from_context] sets; the others keep their defaults. *)
Record MultiIndexMapOptions := {
  tiles : string;
  tile_attr : option string;
  padding_factor : float;
  clip : bool;
  upsample : float;
  smooth_radius : float;
  sharpen : bool;
  sharpen_radius : float;
  sharpen_amount : float;
}.

Record MultiIndexMapRenderer := { options : MultiIndexMapOptions }.

Definition create_renderer_from_context (context : WorkflowContext.t)
    : MultiIndexMapRenderer :=
  let params := WorkflowContext.params context in
  {| options :=
       {| tiles := WorkflowParameters.tiles params;
          tile_attr := WorkflowParameters.tile_attr params;
          padding_factor := WorkflowParameters.padding params;
          clip := WorkflowParameters.clip params;
          upsample := WorkflowParameters.upsample params;
          smooth_radius := WorkflowParameters.smooth_radius params;
          sharpen := WorkflowParameters.sharpen params;
          sharpen_radius := WorkflowParameters.sharpen_radius params;
          sharpen_amount := WorkflowParameters.sharpen_amount params |} |}.

(** [sorted(d.items())] on a dict with string keys: the keys are
    distinct, so the items are ordered by their keys alone. *)
Definition sorted_items {V} (d : gmap string V) : list (string * V) :=
  merge_sort (λ a b, String.le a.1 b.1) (map_to_list d).

(** [WorkflowResult] of the facade. *)
Record WorkflowResult := {
  product_title : string;
  bands : gmap string Path;
  indices : gmap string Path;
  maps : list Path;
}.

Section Workflow.

Context (reproject :
  ndarray → Affine.t → CRS → Affine.t → CRS → Resampling → nat * nat →
  exn + (nat → nat → float)).

(** [CopernicusClient]: [open_session], [query_latest] and [download]. *)
Context {Session : Type}.
Context (open_session : M rasterio.world Session).
Context (query_latest :
  Session → entities.AreaOfInterest → string → string → Z * Z →
  M rasterio.world (option Product)).
Context (download : Session → Product → Path → M rasterio.world Path).

(** [SafeExtractor.extract] and [MultiIndexMapRenderer.render] *)
Context (extract : Path → Path → M rasterio.world (gmap string Path)).
Context (render :
  MultiIndexMapRenderer → list Path → Path → list Path → M rasterio.world Path).

(** [path.expanduser().resolve()], [path.exists()] and [str(path)] *)
Context (resolve : Path → Path).
Context (exists_ : Path → bool).
Context (str_path : Path → string).

(** [AreaOfInterest.from_geojson] *)
Context (from_geojson : Path → M rasterio.world entities.AreaOfInterest).

(** [ResolveProductStep.run]; [client] tells whether the step holds a
    client or [None]. *)
Definition ResolveProductStep_run (client : bool) : M state unit :=
  context ← get_context;
  let params := WorkflowContext.params context in
  match WorkflowParameters.safe_path params with
  | Some safe_path =>
      let path := resolve safe_path in
      if negb (exists_ path) then
        raise (RuntimeError ("SAFE não encontrado: " +:+ str_path path))
      else
        modify_context (set_product path (catalog_copernicus.infer_product_name path))
  | None =>
      if negb client then
        raise (RuntimeError "Credenciais Copernicus ausentes e nenhum SAFE local fornecido.")
      else
      let download_dir := AppConfig.DATA_RAW_DIR (WorkflowContext.config context) in
      with_world (rasterio.mkdir_parents download_dir);;
      session ← with_world open_session;
      product ← with_world
        (query_latest session (WorkflowContext.aoi context)
           (WorkflowParameters.start params) (WorkflowParameters.end_ params)
           (WorkflowParameters.cloud params));
      match product with
      | Some product =>
          if bool_decide (product = ∅) then
            raise (RuntimeError
                     "Nenhum produto Sentinel-2 encontrado para os parâmetros informados.")
          else
          product_path ← with_world (download session product download_dir);
          modify_context
            (set_product product_path (catalog_copernicus.infer_product_name product_path))
      | None =>
          raise (RuntimeError
                   "Nenhum produto Sentinel-2 encontrado para os parâmetros informados.")
      end
  end.

Definition ResolveProductStep (client : bool) : PipelineStep :=
  {| name := "resolve_product"; run := ResolveProductStep_run client |}.

(** [ExtractBandsStep.run] *)
Definition ExtractBandsStep_run : M state unit :=
  context ← get_context;
  match WorkflowContext.product_path context, WorkflowContext.product_title context with
  | Some product_path, Some product_title =>
      let destination :=
        path_join (AppConfig.DATA_PROCESSED_DIR (WorkflowContext.config context))
                  product_title in
      bands ← with_world (extract product_path destination);
      modify_context (set_bands bands)
  | _, _ => raise (RuntimeError "Produto ainda não foi resolvido.")
  end.

Definition ExtractBandsStep : PipelineStep :=
  {| name := "extract_bands"; run := ExtractBandsStep_run |}.

(** [RenderMultiIndexStep.run] *)
Definition RenderMultiIndexStep_run (renderer : MultiIndexMapRenderer) : M state unit :=
  context ← get_context;
  if bool_decide (WorkflowContext.indices context = ∅) then
    raise (RuntimeError "Nenhum índice disponível para renderização.")
  else
  let output_dir := AppConfig.MAPAS_DIR (WorkflowContext.config context) in
  with_world (rasterio.mkdir_parents output_dir);;
  let output_path := path_join output_dir "compare_indices_all.html" in
  let overlays := [WorkflowParameters.aoi_path (WorkflowContext.params context)] in
  let index_paths := snd <$> sorted_items (WorkflowContext.indices context) in
  with_world (render renderer index_paths output_path overlays);;
  modify_context (WorkflowContext.register_map output_path).

Definition RenderMultiIndexStep (renderer : MultiIndexMapRenderer) : PipelineStep :=
  {| name := "render_multi_index_map"; run := RenderMultiIndexStep_run renderer |}.

(** *** [WorkflowPipeline] *)

(** The configuration, with the two credentials that
    [_build_client_if_needed] reads from it, and the calculator. *)
Record WorkflowPipeline := {
  config : AppConfig.t;
  SENTINEL_USERNAME : option string;
  SENTINEL_PASSWORD : option string;
  calculator : IndexCalculator;
}.

(** [not s] on an optional string *)
Definition no_text (s : option string) : bool :=
  match s with
  | None | Some EmptyString => true
  | Some (String _ _) => false
  end.

(** [_build_client_if_needed]: whether a client is built. *)
Definition _build_client_if_needed (self : WorkflowPipeline)
    (params : WorkflowParameters.t) : exn + bool :=
  match WorkflowParameters.safe_path params with
  | Some _ => inr false
  | None =>
      if no_text (SENTINEL_USERNAME self) || no_text (SENTINEL_PASSWORD self) then
        inl (RuntimeError
               ("Credenciais Copernicus ausentes. Configure SENTINEL_USERNAME/SENTINEL_PASSWORD " +:+
                "ou informe um SAFE local pelo parâmetro safe_path."))
      else inr true
  end.

Definition _build_steps (self : WorkflowPipeline) (context : WorkflowContext.t)
    : exn + list PipelineStep :=
  let params := WorkflowContext.params context in
  ebind (_build_client_if_needed self params) (λ client,
  let renderer := create_renderer_from_context context in
  inr [ ResolveProductStep client;
        ExtractBandsStep;
        ComputeIndicesStep reproject (calculator self);
        RenderMultiIndexStep renderer ]).

(** [pipeline.run(context)], seen from the caller: the context object
    after the run, or the exception of the step that failed. *)
Definition run_on (p : Pipeline) (context : WorkflowContext.t)
    : M rasterio.world WorkflowContext.t :=
  λ w, match Pipeline_run p (context, w) with
       | (inr _, (context', w')) => (inr context', w')
       | (inl e, (_, w')) => (inl e, w')
       end.

(** [WorkflowPipeline.run]; the context is built with empty fields, and
    its [__post_init__] loads the area of interest. *)
Definition WorkflowPipeline_run (self : WorkflowPipeline) (params : WorkflowParameters.t)
    : M rasterio.world WorkflowContext.t :=
  aoi ← from_geojson (WorkflowParameters.aoi_path params);
  let context :=
    {| WorkflowContext.config := config self;
       WorkflowContext.params := params;
       WorkflowContext.product_path := None;
       WorkflowContext.product_title := None;
       WorkflowContext.bands := ∅;
       WorkflowContext.indices := ∅;
       WorkflowContext.maps := [];
       WorkflowContext.aoi := aoi |} in
  steps ← lift_exn (_build_steps self context);
  run_on {| steps := steps |} context.

(** [WorkflowService.run_date_range], from the parameters it builds. *)
Definition run_date_range (self : WorkflowPipeline) (params : WorkflowParameters.t)
    : M rasterio.world WorkflowResult :=
  result ← WorkflowPipeline_run self params;
  match WorkflowContext.product_title result with
  | None => raise (RuntimeError "Título do produto não definido após execução do pipeline.")
  | Some title =>
      mret {| product_title := title;
              bands := WorkflowContext.bands result;
              indices := WorkflowContext.indices result;
              maps := WorkflowContext.maps result |}
  end.

End Workflow.

End workflow.

(** ** A small scene, used to run the model on concrete inputs *)

Module examples.

Import index_calculator rasterio.

Definition f32 (z e : Z) : float := lit prec32 emax32 z e.
Definition f64 (z e : Z) : float := lit prec64 emax64 z e.

(** North-up grids with pixels of 1 and of 2 units. *)
Definition fine_grid : Affine.t :=
  Affine.mk (f64 1 0) pzero pzero pzero (f64 (-1) 0) pzero.
Definition coarse_grid : Affine.t :=
  Affine.mk (f64 2 0) pzero pzero pzero (f64 (-2) 0) pzero.

(** A 2x2 nir raster of 0.5 and a 1x1 red raster of 0.125 on the coarse grid. *)
Definition nir_file : DatasetReader :=
  {| height := 2; width := 2; transform := fine_grid; crs := "EPSG:32722";
     band1 := λ _ _, f32 1 (-1) |}.
Definition red_file : DatasetReader :=
  {| height := 1; width := 1; transform := coarse_grid; crs := "EPSG:32722";
     band1 := λ _ _, f32 1 (-3) |}.

Definition nir_tif : Path := ["data"; "nir.tif"].
Definition red_tif : Path := ["data"; "red.tif"].

Definition disk : world :=
  {| files := {[ nir_tif := Raster nir_file; red_tif := Raster red_file ]};
     trace := [] |}.

Definition band_paths : gmap string Path := {[ "nir" := nir_tif; "red" := red_tif ]}.

(** A stand-in for [reproject]: every destination sample is the first
    sample of the source. *)
Definition first_sample (data : ndarray) (_ : Affine.t) (_ : CRS) (_ : Affine.t)
    (_ : CRS) (_ : Resampling) (_ : nat * nat) : exn + (nat → nat → float) :=
  inr (λ _ _, default nan (item data 0 0)).

Definition calculator : IndexCalculator := IndexCalculator_init None.



(** Two overlays with bounds and one without. *)
Definition box (west south east north : Z) : renderers.Bounds :=
  {| renderers.min_lon := f64 west 0; renderers.min_lat := f64 south 0;
     renderers.max_lon := f64 east 0; renderers.max_lat := f64 north 0 |}.

Definition overlays : list (option renderers.Bounds) :=
  [Some (box 0 0 4 2); None; Some (box (-4) 1 1 6)].

(** A mask stand-in for [rasterize]: the pixels of row 0 are inside. *)
Definition first_row_inside (shapes : list (nat * Z)) (_ : nat * nat) (_ : Affine.t)
    (_ : Z) (_ : bool) : exn + (nat → nat → Z) :=
  inr (λ r _, if (r =? 0)%nat then 1%Z else 0%Z).

Definition square : ndarray := [[f32 1 0; f32 2 0]; [f32 3 0; f32 4 0]].

Definition masked_square : ndarray :=
  match renderers._mask_with_geojson (λ n : nat, [n]) first_row_inside
          square fine_grid [7] with
  | inr masked => masked
  | inl _ => []
  end.

(** A small int is one object per value, as CPython keeps them. *)
Definition small_int (z : Z) : entities.pyval := entities.PNum (Z.to_N z) (entities.NInt z).

(** An open triangle as area of interest. *)
Definition position (lon lat : Z) : entities.pyval :=
  entities.PList [small_int lon; small_int lat].

Definition triangle : entities.AreaOfInterest :=
  {| entities.geometry :=
       entities.Dict (Some "Polygon")
         (Some (entities.PList [entities.PList [position 0 0; position 0 1; position 1 1]]))
         None None |}.

(** A stand-in for [str] on numbers: the digits of small naturals. *)
Definition digit_str (n : entities.number) : string :=
  match n with
  | entities.NInt 0 => "0"
  | entities.NInt 1 => "1"
  | entities.NFloat S754_nan => "nan"
  | _ => "?"
  end.

(** The ring (nan 0, 1 1, nan 0), whose two NaN are the float objects of
    identities [a] and [b]: one object when [json.load] has read the
    document, two when each comes from a call of [float("nan")]. *)
Definition nan_ring (a b : N) : entities.AreaOfInterest :=
  {| entities.geometry :=
       entities.Dict (Some "Polygon")
         (Some (entities.PList [entities.PList [
            entities.PList [entities.PNum a (entities.NFloat nan); small_int 0];
            position 1 1;
            entities.PList [entities.PNum b (entities.NFloat nan); small_int 0]]]))
         None None |}.

(** A context as [WorkflowPipeline.run] builds it: nothing resolved yet. *)
Definition fresh_context : pipeline.WorkflowContext.t :=
  {| pipeline.WorkflowContext.config :=
       {| pipeline.AppConfig.DATA_RAW_DIR := ["data"; "raw"];
          pipeline.AppConfig.DATA_PROCESSED_DIR := ["data"; "processed"];
          pipeline.AppConfig.MAPAS_DIR := ["mapas"] |};
     pipeline.WorkflowContext.params :=
       {| pipeline.WorkflowParameters.start := "2024-01-01";
          pipeline.WorkflowParameters.end_ := "2024-01-31";
          pipeline.WorkflowParameters.aoi_path := ["aoi.geojson"];
          pipeline.WorkflowParameters.cloud := (0, 30)%Z;
          pipeline.WorkflowParameters.indices := None;
          pipeline.WorkflowParameters.upsample := f64 12 0;
          pipeline.WorkflowParameters.smooth_radius := f64 1 0;
          pipeline.WorkflowParameters.sharpen := true;
          pipeline.WorkflowParameters.sharpen_radius :=
            SFdiv prec64 emax64 (f64 6 0) (f64 5 0);
          pipeline.WorkflowParameters.sharpen_amount := f64 3 (-1);
          pipeline.WorkflowParameters.tiles := "none";
          pipeline.WorkflowParameters.tile_attr := None;
          pipeline.WorkflowParameters.padding :=
            SFdiv prec64 emax64 (f64 3 0) (f64 10 0);
          pipeline.WorkflowParameters.clip := true;
          pipeline.WorkflowParameters.safe_path := None |};
     pipeline.WorkflowContext.product_path := None;
     pipeline.WorkflowContext.product_title := None;
     pipeline.WorkflowContext.bands := ∅;
     pipeline.WorkflowContext.indices := ∅;
     pipeline.WorkflowContext.maps := [];
     pipeline.WorkflowContext.aoi := triangle |}.

(** The center of pixel (row, col) under an affine transform, computed in
    binary64: a stand-in for [rasterio.transform.xy(..., offset="center")]. *)
Definition pixel_center (t : Affine.t) (row col : nat) : float * float :=
  let add := SFadd prec64 emax64 in
  let mul := SFmul prec64 emax64 in
  let x := add (f64 (Z.of_nat col) 0) (f64 1 (-1)) in
  let y := add (f64 (Z.of_nat row) 0) (f64 1 (-1)) in
  (add (add (mul (Affine.a t) x) (mul (Affine.b t) y)) (Affine.c t),
   add (add (mul (Affine.d t) x) (mul (Affine.e t) y)) (Affine.f t)).

(** float32 0.5 and 0.1, and the 2x2 rasters that hold them. *)
Definition half : float := f32 1 (-1).
Definition tenth : float := SFdiv prec32 emax32 (f32 1 0) (f32 10 0).
Definition nir_half : ndarray := [[half; half]; [half; half]].
Definition red_tenth : ndarray := [[tenth; tenth]; [tenth; tenth]].

(** A 2x2 raster with one NaN pixel. *)
Definition holed : ndarray := [[f32 1 0; nan]; [f32 3 0; f32 4 0]].

(** The run of [analyse_scene] for ndvi on [disk], into the directory [out]. *)
Definition analysed : (exn + gmap string Path) * world :=
  analyse_scene examples.first_sample examples.calculator examples.band_paths ["out"]
    (Some ["ndvi"]) examples.disk.

Definition analysed_outputs : gmap string Path :=
  match analysed.1 with inr outputs => outputs | inl _ => ∅ end.

(** Parameters that ask for ndvi on a local SAFE folder. *)
Definition ndvi_params : pipeline.WorkflowParameters.t :=
  let params := pipeline.WorkflowContext.params fresh_context in
  {| pipeline.WorkflowParameters.start := pipeline.WorkflowParameters.start params;
     pipeline.WorkflowParameters.end_ := pipeline.WorkflowParameters.end_ params;
     pipeline.WorkflowParameters.aoi_path := pipeline.WorkflowParameters.aoi_path params;
     pipeline.WorkflowParameters.cloud := pipeline.WorkflowParameters.cloud params;
     pipeline.WorkflowParameters.indices := Some ["ndvi"];
     pipeline.WorkflowParameters.upsample := pipeline.WorkflowParameters.upsample params;
     pipeline.WorkflowParameters.smooth_radius :=
       pipeline.WorkflowParameters.smooth_radius params;
     pipeline.WorkflowParameters.sharpen := pipeline.WorkflowParameters.sharpen params;
     pipeline.WorkflowParameters.sharpen_radius :=
       pipeline.WorkflowParameters.sharpen_radius params;
     pipeline.WorkflowParameters.sharpen_amount :=
       pipeline.WorkflowParameters.sharpen_amount params;
     pipeline.WorkflowParameters.tiles := pipeline.WorkflowParameters.tiles params;
     pipeline.WorkflowParameters.tile_attr := pipeline.WorkflowParameters.tile_attr params;
     pipeline.WorkflowParameters.padding := pipeline.WorkflowParameters.padding params;
     pipeline.WorkflowParameters.clip := pipeline.WorkflowParameters.clip params;
     pipeline.WorkflowParameters.safe_path := Some ["data"; "raw"; "S2A_T22KGA.SAFE"] |}.

(** A context whose product is resolved and whose bands are extracted. *)
Definition ready_context : pipeline.WorkflowContext.t :=
  {| pipeline.WorkflowContext.config := pipeline.WorkflowContext.config fresh_context;
     pipeline.WorkflowContext.params := ndvi_params;
     pipeline.WorkflowContext.product_path := Some ["data"; "raw"; "S2A_T22KGA.SAFE"];
     pipeline.WorkflowContext.product_title := Some "S2A_T22KGA";
     pipeline.WorkflowContext.bands := band_paths;
     pipeline.WorkflowContext.indices := ∅;
     pipeline.WorkflowContext.maps := [];
     pipeline.WorkflowContext.aoi := triangle |}.

(** The run of the compute-indices step on it. *)
Definition computed : (exn + unit) * pipeline.state :=
  pipeline.run (pipeline.ComputeIndicesStep first_sample calculator)
    (ready_context, disk).

(** Stand-ins for the collaborators of the pipeline: a catalogue without
    products, an extractor that finds the two bands of [disk], and a
    renderer that returns the path it is given. *)
Definition no_product (_ : unit) (_ : entities.AreaOfInterest) (_ _ : string) (_ : Z * Z)
    : M world (option workflow.Product) := mret None.
Definition some_product (_ : unit) (_ : entities.AreaOfInterest) (_ _ : string) (_ : Z * Z)
    : M world (option workflow.Product) := mret (Some {[ "Id" := "42" ]}).
Definition download_to (_ : unit) (_ : workflow.Product) (dst_dir : Path) : M world Path :=
  mret (path_join dst_dir "S2A_T22KGA.SAFE.zip").
Definition two_bands (_ _ : Path) : M world (gmap string Path) := mret band_paths.
Definition render_nothing (_ : workflow.MultiIndexMapRenderer) (_ : list Path)
    (output_path : Path) (_ : list Path) : M world Path := mret output_path.
Definition aoi_of (_ : Path) : M world entities.AreaOfInterest := mret triangle.

Definition service : workflow.WorkflowPipeline :=
  {| workflow.config := pipeline.WorkflowContext.config fresh_context;
     workflow.SENTINEL_USERNAME := None;
     workflow.SENTINEL_PASSWORD := None;
     workflow.calculator := calculator |}.

Definition service_with_credentials : workflow.WorkflowPipeline :=
  {| workflow.config := pipeline.WorkflowContext.config fresh_context;
     workflow.SENTINEL_USERNAME := Some "user";
     workflow.SENTINEL_PASSWORD := Some "secret";
     workflow.calculator := calculator |}.

(** The run of the standard pipeline on the local SAFE folder. *)
Definition workflow_ran : (exn + pipeline.WorkflowContext.t) * world :=
  workflow.WorkflowPipeline_run first_sample (mret tt) no_product download_to
    two_bands render_nothing id (λ _, true) (String.concat "/") aoi_of
    service ndvi_params disk.

Definition ran_context : pipeline.WorkflowContext.t :=
  match workflow_ran.1 with inr context => context | inl _ => fresh_context end.

(** A band set with a swir1 band, and the run of [analyse_scene] for the
    two moisture indices on it. *)
Definition moisture_paths : gmap string Path :=
  {[ "nir" := nir_tif; "swir1" := red_tif ]}.

Definition analysed_moisture : (exn + gmap string Path) * world :=
  analyse_scene first_sample calculator moisture_paths ["out"]
    (Some ["ndwi"; "ndmi"]) disk.

Definition moisture_outputs : gmap string Path :=
  match analysed_moisture.1 with inr outputs => outputs | inl _ => ∅ end.

(** The triangle as the geometry of a Feature. *)
Definition triangle_feature : entities.GeoJSON :=
  entities.Dict (Some "Feature") None None (Some (entities.geometry triangle)).

(** A band set whose red band points to a file that is not there, and
    the run of [analyse_scene] on it. *)
Definition broken_paths : gmap string Path :=
  {[ "nir" := nir_tif; "red" := ["data"; "missing.tif"] ]}.

Definition failed : (exn + gmap string Path) * world :=
  analyse_scene first_sample calculator broken_paths ["out"]
    (Some ["ndvi"]) disk.

(** A catalogue that redirects the first request to a mirror, which
    sends the archive in chunks. *)
Definition mirror (history : list string) (url : string) : catalog_copernicus.Response :=
  if bool_decide (history = []) then
    {| catalog_copernicus.is_redirect := true;
       catalog_copernicus.Location := Some "https://mirror/archive";
       catalog_copernicus.status_code := 302;
       catalog_copernicus.iter_content := [] |}
  else
    {| catalog_copernicus.is_redirect := false;
       catalog_copernicus.Location := None;
       catalog_copernicus.status_code := 200;
       catalog_copernicus.iter_content := ["PK"; ""; "data"] |}.

(** A stand-in for [urljoin] on absolute locations. *)
Definition absolute (base location : string) : string := location.

Definition offline : catalog_copernicus.network :=
  {| catalog_copernicus.requests := [];
     catalog_copernicus.directories := [];
     catalog_copernicus.archives := ∅ |}.

Definition payload : catalog_copernicus.Product :=
  {[ "Id" := "42"; "Name" := "S2A_T22KGA.SAFE" ]}.

Definition downloaded : (catalog_copernicus.failure + Path) * catalog_copernicus.network :=
  catalog_copernicus.download mirror absolute "https://catalogue/odata/v1/" payload
    ["data"; "raw"] offline.

(** A SAFE folder with a red band at 10 m and a nir band at 10 m and at
    20 m, a [glob] that finds them, and an extractor for three bands, of
    which swir1 has no file. *)
Definition safe_folder : Path := ["data"; "raw"; "S2A_T22KGA.SAFE"].
Definition b04_jp2 : Path := safe_folder ++ ["IMG_DATA"; "R10m"; "T22KGA_B04_10m.jp2"].
Definition b08_jp2 : Path := safe_folder ++ ["IMG_DATA"; "R10m"; "T22KGA_B08_10m.jp2"].
Definition b08_20m_jp2 : Path := safe_folder ++ ["IMG_DATA"; "R20m"; "T22KGA_B08_20m.jp2"].

Definition img_glob (safe_root : Path) (pattern : string) : list Path :=
  if bool_decide (pattern = "**/IMG_DATA/*/*_B04_*.jp2") then [b04_jp2]
  else if bool_decide (pattern = "**/IMG_DATA/*/*_B08_*.jp2") then [b08_20m_jp2; b08_jp2]
  else [].

Definition safe_disk : world :=
  {| files := {[ b04_jp2 := Raster red_file; b08_jp2 := Raster nir_file ]};
     trace := [] |}.

Definition three_bands : safe_extractor.SafeExtractor :=
  {| safe_extractor.bands := [("B04", "red"); ("B08", "nir"); ("B11", "swir1")] |}.

Definition no_mtime (_ : world) (_ : Path) : option float := None.
Definition one_mtime (_ : world) (_ : Path) : option float := Some (f64 1 0).
Definition no_unzip (_ : Path) : M world Path := raise (RuntimeError "not an archive").

Definition processed : Path := ["data"; "processed"; "S2A_T22KGA"].

(** The first extraction, and a disk on which both bands are cached. *)
Definition extraction : (exn + gmap string Path) * world :=
  safe_extractor.extract img_glob no_mtime no_unzip (mret tt) three_bands safe_folder processed
    safe_disk.

Definition extraction_result : gmap string Path :=
  match extraction.1 with inr extracted => extracted | inl _ => ∅ end.

Definition cached_disk : world :=
  {| files := {[ path_join processed "red.tif" := Raster red_file;
                 path_join processed "nir.tif" := Raster nir_file ]};
     trace := [] |}.

End examples.

(** ** The notions in which the properties are stated *)

(** [a] occurs in [s]. *)
Definition occurs_in (a s : string) : Prop := ∃ pre post, s = pre +:+ a +:+ post.



Section notions_calculator.
Import index_calculator rasterio.
Context (reproject :
  ndarray → Affine.t → CRS → Affine.t → CRS → Resampling → nat * nat →
  exn + (nat → nat → float)).

(** The union of the bands of the requested indices, read off the registry. *)
Definition required_bands (specs : registry) (requested : list string) : gset string :=
  ⋃ ((λ name, from_option (λ spec, list_to_set (bands spec)) ∅ (lookup_spec specs name))
       <$> requested).

(** [src]'s grid differs from [ref]'s: the test of [load_raster], line 67. *)
Definition grid_differs (src ref : DatasetReader) : bool :=
  Affine.ne (transform src) (transform ref)
  || negb (height src =? height ref)%nat
  || negb (width src =? width ref)%nat.

(** The samples of [src] as [load_raster] reads them. *)
Definition read_f32 (src : DatasetReader) : ndarray :=
  map1 (astype prec32 emax32) (read1 src).

(** What [load_raster] returns for a band read against a reference, in
    terms of the two datasets. *)
Definition aligned_on (src ref : DatasetReader) (result : ndarray * Affine.t * CRS) : Prop :=
  if grid_differs src ref then
    ∃ sample,
      reproject (read_f32 src) (transform src) (crs src)
                (transform ref) (crs ref) bilinear (height ref, width ref) = inr sample ∧
      result = (filled (np_empty (height ref) (width ref)) sample, transform ref, crs ref)
  else result = (read_f32 src, transform src, crs src).

End notions_calculator.

(** The order of IEEE values: [SFcompare] orders the values that are not
    NaN as the lexicographic order of a rank: the sign class first, then
    the exponent, then the mantissa (both negated for negative values). *)

Definition rank (x : float) : Z * Z * Z :=
  match x with
  | S754_nan => (0, 0, 0)
  | S754_zero _ => (0, 0, 0)
  | S754_infinity false => (2, 0, 0)
  | S754_infinity true => (-2, 0, 0)
  | S754_finite false m e => (1, e, Z.pos m)
  | S754_finite true m e => (-1, - e, Z.neg m)
  end%Z.

Definition lex (a b : Z * Z * Z) : comparison :=
  match (a.1.1 ?= b.1.1)%Z with
  | Eq => match (a.1.2 ?= b.1.2)%Z with
          | Eq => (a.2 ?= b.2)%Z
          | c => c
          end
  | c => c
  end.

(** [a] is at most [b] in the lexicographic order. *)
Definition lex_le (a b : Z * Z * Z) : Prop :=
  (a.1.1 < b.1.1 ∨ (a.1.1 = b.1.1 ∧ (a.1.2 < b.1.2 ∨ (a.1.2 = b.1.2 ∧ a.2 ≤ b.2))))%Z.

Definition lex_lt (a b : Z * Z * Z) : Prop :=
  (a.1.1 < b.1.1 ∨ (a.1.1 = b.1.1 ∧ (a.1.2 < b.1.2 ∨ (a.1.2 = b.1.2 ∧ a.2 < b.2))))%Z.

Section notions_renderers.
Import renderers.

(** No coordinate of the box is NaN. *)
Definition no_nan_box (b : Bounds) : Prop :=
  isnan (min_lon b) = false ∧ isnan (min_lat b) = false ∧
  isnan (max_lon b) = false ∧ isnan (max_lat b) = false.

(** [u] is the union bounding box of [bs]: each side is a side of one of
    the boxes, and no box reaches beyond it. *)
Definition is_union_box (bs : list Bounds) (u : Bounds) : Prop :=
  (min_lon u ∈ min_lon <$> bs ∧ ∀ b, b ∈ bs → SFleb (min_lon u) (min_lon b) = true) ∧
  (min_lat u ∈ min_lat <$> bs ∧ ∀ b, b ∈ bs → SFleb (min_lat u) (min_lat b) = true) ∧
  (max_lon u ∈ max_lon <$> bs ∧ ∀ b, b ∈ bs → SFleb (max_lon b) (max_lon u) = true) ∧
  (max_lat u ∈ max_lat <$> bs ∧ ∀ b, b ∈ bs → SFleb (max_lat b) (max_lat u) = true).

(** [u] moved outwards by [p/2] of its width on the west and east sides
    and by [p/2] of its height on the south and north sides. *)
Definition expanded (p : float) (u : Bounds) : Bounds :=
  let pad_lon := fdiv (fmul (fsub (max_lon u) (min_lon u)) p) two in
  let pad_lat := fdiv (fmul (fsub (max_lat u) (min_lat u)) p) two in
  {| min_lon := fsub (min_lon u) pad_lon; min_lat := fsub (min_lat u) pad_lat;
     max_lon := fadd (max_lon u) pad_lon; max_lat := fadd (max_lat u) pad_lat |}.

(** The two boxes compare equal side by side ([==] on floats). *)
Definition same_box (a b : Bounds) : Prop :=
  SFeqb (min_lon a) (min_lon b) = true ∧ SFeqb (min_lat a) (min_lat b) = true ∧
  SFeqb (max_lon a) (max_lon b) = true ∧ SFeqb (max_lat a) (max_lat b) = true.

(** No extent between a north or east side and a south or west side of
    the boxes overflows (so that every such side is finite). *)
Definition extents_finite (bs : list Bounds) : Prop :=
  Forall (λ b1, Forall (λ b2,
    isfinite (fsub (max_lon b1) (min_lon b2)) = true ∧
    isfinite (fsub (max_lat b1) (min_lat b2)) = true) bs) bs.

End notions_renderers.

Section notions_csv.
Import rasterio csv_exporter.
Context (xy_center : Affine.t → nat → nat → float * float).

(** The finite samples of one row with their columns, counted from [c]. *)
Fixpoint finite_from (c : nat) (row : list float) : list (nat * float) :=
  match row with
  | [] => []
  | v :: rest => (if isfinite v then [(c, v)] else []) ++ finite_from (S c) rest
  end.

(** The pixels with a finite value, row by row and left to right, each
    with its row, its column and its value. *)
Definition finite_pixels (data : ndarray) : list (nat * nat * float) :=
  mjoin (imap (λ r row, (λ '(c, v), (r, c, v)) <$> finite_from 0 row) data).

(** The CSV row of a pixel: the coordinates of its center, and its value. *)
Definition pixel_row (transform : Affine.t) (p : nat * nat * float) : list cell :=
  let '(r, c, v) := p in
  let '(lon, lat) := xy_center transform r c in
  [CNum lon; CNum lat; CNum v].

(** The number of finite samples of the array. *)
Definition count_finite (data : ndarray) : nat :=
  sum_list_with (λ row, length (filter (λ v, isfinite v = true) row)) data.

End notions_csv.

Section notions_wkt.
Import index_calculator entities.
Context (str_number : number → string).

(** The ring is closed: its last entry is its first entry, the same
    object, or compares equal to it with [==]. *)
Definition is_closed (ring : list pyval) : Prop :=
  ∃ first final, head ring = Some first ∧ last ring = Some final ∧
                 (final = first ∨ py_eqb first final = true).

(** [emitted] is what the code serializes for [ring]: the ring followed by
    its first entry when [ring[0] != ring[-1]], the ring itself otherwise. *)
Definition emitted_for (ring emitted : list pyval) : Prop :=
  (first_ne_last ring = true → ∃ first, head ring = Some first ∧ emitted = ring ++ [first]) ∧
  (first_ne_last ring = false → emitted = ring).

(** The text of a polygon body, [((ring), (ring), ...)], is the
    serialization of closed rings obtained from the rings of
    [coordinates]; every position is written as ["lon lat"]. *)
Definition polygon_emits (coordinates : pyval) (body : string) : Prop :=
  ∃ (rings emitted : list (list pyval)) (texts : list (list string)),
    coordinates = PList (PList <$> rings) ∧
    Forall2 emitted_for rings emitted ∧
    Forall is_closed emitted ∧
    Forall2 (Forall2 (λ position text, position_text str_number position = inr text))
            emitted texts ∧
    body = "(" +:+ join ", " ((λ ts, "(" +:+ join ", " ts +:+ ")") <$> texts) +:+ ")".

End notions_wkt.

(** *** The outputs of [analyse_scene] *)

Section notions_outputs.
Import index_calculator rasterio.

(** The path of the raster of index [name] under [output_dir]. *)
Definition output_path (output_dir : Path) (name : string) : Path :=
  path_join output_dir (name +:+ ".tif").

(** The dataset that [save_raster] writes for an [array] of the height and
    width of [template], with the metadata of [template]: the template's
    grid, and the samples of [array] as float32. *)
Definition saved_as (template : DatasetReader) (array : ndarray) : DatasetReader :=
  {| height := height template; width := width template;
     transform := transform template; crs := crs template;
     band1 := λ r c, default nan (item (map1 (astype prec32 emax32) array) r c) |}.

Definition same_grid (a b : DatasetReader) : Prop :=
  height a = height b ∧ width a = width b ∧ transform a = transform b ∧ crs a = crs b.

(** What the loop of lines 152-158 computes for the index [name] before it
    saves it: the registered formula on the arrays of its bands, or the
    exception met on the way. *)
Definition index_array (specs : registry) (band_arrays : gmap string ndarray)
    (name : string) : exn + ndarray :=
  match lookup_spec specs name with
  | None => inl (KeyError name)
  | Some spec =>
      ebind (mapE (λ band, match band_arrays !! band with
                           | Some x => inr x
                           | None => inl (KeyError band)
                           end) (bands spec))
            (call (func spec))
  end.

(** The paths opened for writing, in order. *)
Definition written_paths (evs : list io_event) : list Path :=
  omap (λ ev, match ev with Open p wr => Some p | _ => None end) evs.

(** An event that [analyse_scene] may cause: reading a band raster,
    making the output directory, or writing the raster of a requested
    index into it. *)
Definition confined (band_paths : gmap string Path) (output_dir : Path)
    (requested : list string) (ev : io_event) : Prop :=
  match ev with
  | Open p rd => ∃ band, band_paths !! band = Some p
  | Open p wr => ∃ name, name ∈ requested ∧ p = output_path output_dir name
  | Mkdir d => d = output_dir
  end.

End notions_outputs.

Section notions_shape.
Import index_calculator.

(** A formula that returns an array of the shape of its operands. *)
Definition keeps_shape (fn : callable) : Prop :=
  ∀ h w arrays result,
    Forall (rect h w) arrays → call fn arrays = inr result → rect h w result.

End notions_shape.

Section notions_extract.
Import rasterio.

(** The GeoTIFF that [extract] writes for a JPEG 2000 dataset: its grid
    and the samples read from it. *)
Definition copy_of (src : DatasetReader) : DatasetReader :=
  {| height := height src; width := width src;
     transform := transform src; crs := crs src;
     band1 := λ r c, default nan (item (read1 src) r c) |}.

End notions_extract.

(** * Part II: properties *)

(** ** IEEE 754 facts *)

Section ieee_facts.

Lemma is_zero_spec x : is_zero x = true ↔ ∃ s, x = S754_zero s.
Proof.
  split.
  - destruct x as [s|s| |s m e]; cbn; try discriminate; eauto.
    all: destruct s; discriminate.
  - intros [s ->]. reflexivity.
Qed.

Lemma div_nan_r prec emax x : SFdiv prec emax x nan = nan.
Proof. by destruct x. Qed.

Lemma div_nan_l prec emax y : SFdiv prec emax nan y = nan.
Proof. by destruct y. Qed.

Lemma isnan_spec x : isnan x = true ↔ x = nan.
Proof. unfold nan. destruct x; cbn; split; congruence. Qed.

End ieee_facts.

(** ** Arrays *)

Section array_facts.
Context {A B C : Type}.

Lemma item_map1 (f : A → B) a r c :
  item (map1 f a) r c = f <$> item a r c.
Proof.
  unfold item, map1. rewrite list_lookup_fmap.
  destruct (a !! r) as [row|]; cbn; [|done].
  by rewrite list_lookup_fmap.
Qed.

Lemma item_map2 (f : A → B → C) a b r c :
  item (map2 f a b) r c =
    x ← item a r c; y ← item b r c; Some (f x y).
Proof.
  unfold item, map2. rewrite lookup_zip_with.
  destruct (a !! r) as [ra|]; cbn; [|done].
  destruct (b !! r) as [rb|]; cbn.
  - rewrite lookup_zip_with. by destruct (ra !! c).
  - by destruct (ra !! c).
Qed.

Lemma rect_map1 (f : A → B) h w a : rect h w a → rect h w (map1 f a).
Proof.
  intros [Hh Hw]. split.
  - unfold map1. by rewrite length_fmap.
  - unfold map1. apply Forall_fmap. eapply Forall_impl; [exact Hw|].
    intros row Hrow. cbn. by rewrite length_fmap.
Qed.

Lemma rect_tabulate h w (f : nat → nat → A) : rect h w (tabulate h w f).
Proof.
  split.
  - unfold tabulate. by rewrite length_fmap, length_seq.
  - unfold tabulate. apply Forall_fmap, Forall_forall. intros r _. cbn.
    by rewrite length_fmap, length_seq.
Qed.

End array_facts.

(** ** The index formulas *)

Section formula_facts.
Context (prec emax : Z).
Import index_calculator.

Lemma item_compute_index num den r c :
  item (_compute_index prec emax num den) r c =
    n ← item num r c; d ← item den r c; Some (index_sample prec emax n d).
Proof.
  unfold _compute_index, where_scalar_l, div.
  rewrite !item_map2, !item_map1, !item_map2, !item_map1.
  destruct (item num r c) as [n|]; cbn.
  - by destruct (item den r c) as [d|].
  - by destruct (item den r c) as [d|].
Qed.

Lemma index_sample_not_nan n d : isnan (index_sample prec emax n d) = false.
Proof.
  unfold index_sample.
  destruct (isnan (SFdiv prec emax n _)) eqn:E; [done|exact E].
Qed.


Lemma index_sample_nan_quotient n d :
  isnan (SFdiv prec emax n d) = true → index_sample prec emax n d = pzero.
Proof.
  intros Hq. unfold index_sample.
  destruct (is_zero d); [by rewrite div_nan_r|]. by rewrite Hq.
Qed.

Lemma index_sample_nan_input n d :
  isnan n = true ∨ isnan d = true → index_sample prec emax n d = pzero.
Proof.
  intros H. apply index_sample_nan_quotient.
  destruct H as [H|H]; apply isnan_spec in H; subst.
  - by rewrite div_nan_l.
  - by rewrite div_nan_r.
Qed.

(** C10: the shared ratio helper never returns NaN.  At every pixel that
    both operands have, the result is not NaN; it is 0 whenever the
    quotient is NaN, in particular whenever the numerator or the
    denominator is NaN; and 0 is also the index of a valid pixel
    (numerator 0 over a positive denominator), so the two cannot be told
    apart in the output. *)
Theorem compute_index_nan_becomes_zero num den r c n d :
  item num r c = Some n →
  item den r c = Some d →
  ∃ x, item (_compute_index prec emax num den) r c = Some x ∧
       isnan x = false ∧
       (isnan (SFdiv prec emax n d) = true → x = pzero) ∧
       (isnan n = true ∨ isnan d = true → x = pzero) ∧
       (∀ m e, _compute_index prec emax [[pzero]] [[S754_finite false m e]] = [[x]]
               ↔ x = pzero).
Proof.
  intros Hn Hd. exists (index_sample prec emax n d).
  rewrite item_compute_index, Hn, Hd. cbn.
  split; [done|]. split; [apply index_sample_not_nan|].
  split; [apply index_sample_nan_quotient|].
  split; [apply index_sample_nan_input|].
  intros m e. cbn. split; [intros [= <-]; reflexivity | intros ->; reflexivity].
Qed.

End formula_facts.

(** C10 at a pixel whose numerator is NaN (float32). *)
Lemma compute_index_nan_becomes_zero_witness :
  ∃ x, item (index_calculator._compute_index prec32 emax32
               [[nan]] [[lit prec32 emax32 1 0]]) 0 0 = Some x ∧
       isnan x = false ∧
       (isnan (SFdiv prec32 emax32 nan (lit prec32 emax32 1 0)) = true → x = pzero) ∧
       (isnan nan = true ∨ isnan (lit prec32 emax32 1 0) = true → x = pzero) ∧
       (∀ m e, index_calculator._compute_index prec32 emax32
                 [[pzero]] [[S754_finite false m e]] = [[x]] ↔ x = pzero).
Proof.
  apply (compute_index_nan_becomes_zero prec32 emax32
           [[nan]] [[lit prec32 emax32 1 0]] 0 0 nan (lit prec32 emax32 1 0));
    reflexivity.
Defined.

(** C1, at the formula that breaks it: [ci_rededge] is registered, and at a
    pixel whose denominator (rededge4) is exactly 0 it returns +inf for
    nir = 1 and NaN for nir = 0, where the other formulas return 0. *)
Theorem ci_rededge_zero_denominator :
  ∃ spec, index_calculator.lookup_spec index_calculator.INDEX_SPECS "ci_rededge" = Some spec ∧
          index_calculator.call (index_calculator.func spec)
            [ [[lit prec32 emax32 1 0; pzero]]; [[pzero; pzero]] ]
          = inr [[pinf; nan]].
Proof. eexists. split; reflexivity. Qed.

(** The other eleven formulas keep the rule that [ci_rededge] breaks. *)




(** ** The monad *)

Section monad_facts.
Context {S A B : Type}.

Lemma run_bind (m : M S A) (k : A → M S B) s :
  (m ≫= k) s =
    match m s with
    | (inr a, s') => k a s'
    | (inl e, s') => (inl e, s')
    end.
Proof. reflexivity. Qed.

End monad_facts.

(** ** Strings and sorted sets *)

Section string_facts.
Import index_calculator.

Lemma append_cons ch (s t : string) : String ch s +:+ t = String ch (s +:+ t).
Proof. reflexivity. Qed.

Lemma append_empty_l (s : string) : "" +:+ s = s.
Proof. reflexivity. Qed.

Lemma append_assoc (s1 s2 s3 : string) : (s1 +:+ s2) +:+ s3 = s1 +:+ s2 +:+ s3.
Proof.
  induction s1 as [|ch s1 IH]; [done|]. by rewrite !append_cons, IH.
Qed.

Lemma append_empty_r (s : string) : s +:+ "" = s.
Proof. induction s as [|ch s IH]; [done|]. by rewrite append_cons, IH. Qed.

Lemma occurs_in_append_r a pre s : occurs_in a s → occurs_in a (pre +:+ s).
Proof.
  intros (p & q & ->). exists (pre +:+ p), q. by rewrite append_assoc.
Qed.

Lemma occurs_in_join sep x xs : x ∈ xs → occurs_in x (join sep xs).
Proof.
  induction xs as [|y ys IH]; [by intros ?%elem_of_nil|].
  intros [-> | Hin]%elem_of_cons.
  - destruct ys as [|z zs]; cbn.
    + exists "", "". cbn. by rewrite append_empty_r.
    + exists "", (sep +:+ String.concat sep (z :: zs)). done.
  - destruct ys as [|z zs]; [by apply elem_of_nil in Hin|].
    change (join sep (y :: z :: zs)) with (y +:+ sep +:+ join sep (z :: zs)).
    apply occurs_in_append_r, occurs_in_append_r. auto.
Qed.

Lemma elem_of_sorted x (s : gset string) : x ∈ sorted s ↔ x ∈ s.
Proof. unfold sorted. by rewrite merge_sort_Permutation, elem_of_elements. Qed.

Lemma sorted_nil (s : gset string) : sorted s = [] ↔ s = ∅.
Proof.
  split.
  - intros H. apply set_eq. intros x. rewrite <- elem_of_sorted, H.
    split; [by intros ?%elem_of_nil | by intros ?%not_elem_of_empty].
  - intros ->. reflexivity.
Qed.

Lemma elem_of_fromkeys_aux x seen xs :
  x ∈ fromkeys_aux seen xs ↔ x ∈ xs ∧ x ∉ seen.
Proof.
  revert seen. induction xs as [|y ys IH]; intros seen; cbn.
  - split; [by intros ?%elem_of_nil | by intros [?%elem_of_nil _]].
  - case_bool_decide as Hy.
    + rewrite IH, elem_of_cons. intuition congruence.
    + rewrite !elem_of_cons, IH, elem_of_cons.
      destruct (decide (x = y)); intuition congruence.
Qed.

Lemma elem_of_dict_fromkeys x xs : x ∈ dict_fromkeys xs ↔ x ∈ xs.
Proof.
  unfold dict_fromkeys. rewrite elem_of_fromkeys_aux.
  split; [by intros [? _] | intros ?; split; [done | by intros ?%elem_of_nil]].
Qed.

Lemma lookup_spec_Some specs name :
  name ∈ keys specs → is_Some (lookup_spec specs name).
Proof.
  unfold keys. induction specs as [|[k v] rest IH]; cbn.
  - by intros ?%elem_of_nil.
  - intros Hin. case_bool_decide; [eauto|].
    apply elem_of_cons in Hin as [?|?]; [congruence | auto].
Qed.

Lemma lookup_spec_elem specs name spec :
  lookup_spec specs name = Some spec → (name, spec) ∈ specs.
Proof.
  induction specs as [|[k v] rest IH]; cbn; [done|].
  case_bool_decide as Hk; [intros [= <-]; subst; left | intros ?; right; auto].
Qed.

End string_facts.

(** ** [analyse_scene]: the checks made before any I/O *)

Section analyse_scene_checks.
Import index_calculator.
Context (reproject :
  ndarray → Affine.t → CRS → Affine.t → CRS → Resampling → nat * nat →
  exn + (nat → nat → float)).

Lemma unknown_of_elem self requested name :
  name ∈ unknown_of self requested ↔ name ∈ requested ∧ name ∉ keys (specs self).
Proof.
  unfold unknown_of. rewrite elem_of_sorted, elem_of_difference, !elem_of_list_to_set.
  done.
Qed.

Lemma required_of_known self requested (acc : gset string) (w : rasterio.world) :
  (∀ name, name ∈ requested → name ∈ keys (specs self)) →
  foldM (λ (required : gset string) name,
           spec ← getspec (specs self) name;
           mret (required ∪ list_to_set (bands spec)))
        acc requested w
  = (inr (acc ∪ required_bands (specs self) requested), w).
Proof.
  revert acc. induction requested as [|name rest IH]; intros acc Hknown.
  - cbn. unfold ret. f_equal. f_equal. unfold required_bands. cbn. set_solver.
  - destruct (lookup_spec_Some (specs self) name) as [spec Hspec].
    { apply Hknown. left. }
    cbn [foldM]. rewrite run_bind. unfold getspec at 1.
    rewrite run_bind, Hspec. cbn.
    rewrite IH by (intros; apply Hknown; by right).
    f_equal. f_equal. unfold required_bands. cbn. rewrite Hspec. cbn. set_solver.
Qed.

(** C2: a request that names an index absent from the registry is refused
    with the unsupported-indices [ValueError], whose message lists that
    name, and the file system is left as it was: no event is logged (no
    file opened, no directory made) and no file is written. *)
Theorem analyse_scene_unknown_index self band_paths output_dir
    (indices : list string) name (w : rasterio.world) :
  name ∈ indices →
  name ∉ keys (specs self) →
  ∃ unknown,
    analyse_scene reproject self band_paths output_dir (Some indices) w
      = (inl (ValueError ("Unsupported indices requested: " +:+ join ", " unknown)), w) ∧
    name ∈ unknown ∧
    occurs_in name ("Unsupported indices requested: " +:+ join ", " unknown).
Proof.
  intros Hin Hnot.
  set (requested := dict_fromkeys indices).
  assert (Hreq : name ∈ requested) by by apply elem_of_dict_fromkeys.
  assert (Hunk : name ∈ unknown_of self requested) by by apply unknown_of_elem.
  exists (unknown_of self requested). split; [|split].
  - unfold analyse_scene. cbn [requested_of]. fold requested.
    rewrite bool_decide_false by (intros E; rewrite E in Hreq; by apply elem_of_nil in Hreq).
    rewrite bool_decide_false by (intros E; rewrite E in Hunk; by apply elem_of_nil in Hunk).
    reflexivity.
  - done.
  - by apply occurs_in_append_r, occurs_in_join.
Qed.

(** C3: when every requested index is registered and some band of their
    union is not a key of the band paths, the request is refused with the
    missing-bands [RuntimeError]; its message names every absent alias,
    and the file system is left as it was (no raster has been opened). *)
Theorem analyse_scene_missing_band self band_paths output_dir indices
    (w : rasterio.world) :
  let requested := requested_of self indices in
  let required := required_bands (specs self) requested in
  (∀ name, name ∈ requested → name ∈ keys (specs self)) →
  ¬ required ⊆ dom band_paths →
  ∃ msg,
    analyse_scene reproject self band_paths output_dir indices w
      = (inl (RuntimeError msg), w) ∧
    msg = "Missing bands for analysis: " +:+ join ", " (sorted (required ∖ dom band_paths)) ∧
    ∀ alias, alias ∈ required → alias ∉ dom band_paths → occurs_in alias msg.
Proof.
  intros requested required Hknown Hmissing.
  assert (Hne : required ∖ dom band_paths ≠ ∅).
  { intros E. apply Hmissing. intros x Hx.
    destruct (decide (x ∈ dom band_paths)) as [|Hn]; [done|].
    assert (x ∈ required ∖ dom band_paths) as Hd by set_solver.
    rewrite E in Hd. by apply not_elem_of_empty in Hd. }
  assert (Hreq : requested ≠ []).
  { intros E. apply Hne. subst required. rewrite E. unfold required_bands. cbn.
    set_solver. }
  eexists. split; [|split; [reflexivity|]].
  - unfold analyse_scene. fold requested.
    rewrite bool_decide_false by done.
    rewrite bool_decide_true.
    2:{ apply sorted_nil. apply set_eq. intros x.
        rewrite elem_of_difference, !elem_of_list_to_set.
        split; [intros [? ?]; exfalso; auto | by intros ?%not_elem_of_empty]. }
    cbn [negb]. rewrite run_bind. unfold required_of.
    rewrite required_of_known by done.
    rewrite (left_id_L ∅ (∪)). fold required.
    rewrite bool_decide_false by done. reflexivity.
  - intros alias Hin Hout. apply occurs_in_append_r, occurs_in_join.
    apply elem_of_sorted. set_solver.
Qed.

End analyse_scene_checks.

(** ** [load_raster] and the alignment of the bands on the nir grid *)

Section alignment.
Import index_calculator rasterio.
Context (reproject :
  ndarray → Affine.t → CRS → Affine.t → CRS → Resampling → nat * nat →
  exn + (nat → nat → float)).

Lemma open_run path (w : world) :
  open path w =
    (match files w !! path with
     | Some (Raster ds) => inr ds
     | _ => inl (RasterioIOError "No such file or not a raster")
     end,
     {| files := files w; trace := trace w ++ [Open path rd] |}).
Proof.
  unfold open. rewrite run_bind. cbn. unfold dataset_at. cbn.
  by destruct (files w !! path) as [[ds|rows]|].
Qed.

Lemma rect_filled h w (a : ndarray) sample : rect h w a → rect h w (filled a sample).
Proof.
  intros [Hh Hw]. split.
  - unfold filled. by rewrite length_imap.
  - unfold filled. apply Forall_forall. intros row Hrow.
    apply list_elem_of_lookup in Hrow as [r Hr].
    rewrite list_lookup_imap in Hr.
    destruct (a !! r) as [row0|] eqn:E; [|done]. cbn in Hr. injection Hr as <-.
    rewrite length_imap. rewrite Forall_forall in Hw. apply Hw.
    apply list_elem_of_lookup. eauto.
Qed.

Lemma rect_read_f32 src : rect (height src) (width src) (read_f32 src).
Proof. apply rect_map1, rect_tabulate. Qed.

Lemma aligned_on_grid src ref data t c :
  aligned_on reproject src ref (data, t, c) →
  rect (height ref) (width ref) data ∧
  (t = transform ref ∨ Affine.eqb t (transform ref) = true).
Proof.
  unfold aligned_on. destruct (grid_differs src ref) eqn:E.
  - intros (sample & _ & [= -> -> ->]). split; [|by left].
    apply rect_filled, rect_tabulate.
  - intros [= -> -> ->]. unfold grid_differs in E.
    apply orb_false_elim in E as [E Hw]. apply orb_false_elim in E as [Ht Hh].
    apply negb_false_iff, Nat.eqb_eq in Hw, Hh.
    unfold Affine.ne in Ht. apply negb_false_iff in Ht.
    split; [|by right]. rewrite <- Hh, <- Hw. apply rect_read_f32.
Qed.

Lemma load_raster_reference path reference_path (w w' : world) result :
  load_raster reproject path (Some reference_path) w = (inr result, w') →
  ∃ src ref,
    files w !! path = Some (Raster src) ∧
    files w !! reference_path = Some (Raster ref) ∧
    aligned_on reproject src ref result ∧
    files w' = files w ∧
    trace w' = trace w ++ [Open path rd; Open reference_path rd].
Proof.
  unfold load_raster. rewrite run_bind, open_run.
  destruct (files w !! path) as [[src|?]|] eqn:Hsrc; try discriminate.
  rewrite run_bind, open_run. cbn [files trace].
  destruct (files w !! reference_path) as [[ref|?]|] eqn:Href; try discriminate.
  intros H. exists src, ref. split; [done|]. split; [done|].
  unfold aligned_on, grid_differs.
  destruct (Affine.ne _ _ || _ || _).
  - rewrite run_bind in H. unfold lift_exn in H.
    destruct (reproject _ _ _ _ _ _ _) as [e|sample]; [discriminate|].
    cbn in H. injection H as <- <-. cbn. rewrite <- app_assoc. eauto.
  - cbn in H. injection H as <- <-. cbn. by rewrite <- app_assoc.
Qed.

Lemma load_raster_alone path (w w' : world) result :
  load_raster reproject path None w = (inr result, w') →
  ∃ src,
    files w !! path = Some (Raster src) ∧
    result = (read_f32 src, transform src, crs src) ∧
    files w' = files w ∧
    trace w' = trace w ++ [Open path rd].
Proof.
  unfold load_raster. rewrite run_bind, open_run.
  destruct (files w !! path) as [[src|?]|] eqn:Hsrc; try discriminate.
  cbn. intros [= <- <-]. eauto.
Qed.

End alignment.

Section bands_on_grid.
Import index_calculator rasterio.
Context (reproject :
  ndarray → Affine.t → CRS → Affine.t → CRS → Resampling → nat * nat →
  exn + (nat → nat → float)).

(** The loop of lines 148-150, from any accumulator and over any list of
    bands: the files stay as they were, the accumulator keeps the entries
    of the bands outside the list, and every band of the list ends up
    with the array that [load_raster] aligned on the nir dataset. *)
Lemma load_loop (band_paths : gmap string Path) nir_path nir (l : list string) :
  band_paths !! "nir" = Some nir_path →
  ∀ (acc : gmap string ndarray) (w w' : world) arrays,
  files w !! nir_path = Some (Raster nir) →
  foldM (λ (band_arrays : gmap string ndarray) band,
           path ← getitem band_paths band;
           reference_path ← getitem band_paths "nir";
           '(data, _, _) ← load_raster reproject path (Some reference_path);
           mret (<[band := data]> band_arrays))
        acc l w = (inr arrays, w') →
  files w' = files w ∧
  (∃ evs, trace w' = trace w ++ evs) ∧
  (∀ band, band ∉ l → arrays !! band = acc !! band) ∧
  (∀ band, band ∈ l →
     ∃ path src result,
       band_paths !! band = Some path ∧
       files w !! path = Some (Raster src) ∧
       aligned_on reproject src nir result ∧
       arrays !! band = Some result.1.1).
Proof.
  intros Hnir. induction l as [|x rest IH]; intros acc w w' arrays Hfile Hrun.
  - cbn in Hrun. injection Hrun as <- <-.
    split; [done|]. split; [by exists []; rewrite app_nil_r|].
    split; [done|]. by intros band ?%elem_of_nil.
  - cbn [foldM] in Hrun. rewrite run_bind in Hrun.
    rewrite run_bind in Hrun. unfold getitem at 1 in Hrun.
    destruct (band_paths !! x) as [path|] eqn:Hpath; [|discriminate].
    cbn in Hrun. rewrite run_bind in Hrun. unfold getitem at 1 in Hrun.
    rewrite Hnir in Hrun. cbn in Hrun. rewrite run_bind in Hrun.
    destruct (load_raster reproject path (Some nir_path) w) as [[e|[[data t] c]] w1] eqn:Hload;
      [discriminate|].
    cbn in Hrun.
    apply load_raster_reference in Hload
      as (src & ref & Hsrc & Href & Hal & Hfiles1 & Htrace1).
    rewrite Hfile in Href. injection Href as <-.
    apply IH in Hrun as (Hfiles & [evs Htrace] & Hout & Hin);
      [|by rewrite Hfiles1].
    split; [by rewrite Hfiles, Hfiles1|].
    split; [exists ([Open path rd; Open nir_path rd] ++ evs);
            by rewrite Htrace, Htrace1, <- app_assoc|].
    split.
    + intros band Hband. apply not_elem_of_cons in Hband as [Hne Hrest].
      rewrite Hout by done. by rewrite lookup_insert_ne.
    + intros band Hband. destruct (decide (band ∈ rest)) as [Hr|Hr].
      * destruct (Hin band Hr) as (p & s & res & ? & Hs & ? & ?).
        exists p, s, res. rewrite Hfiles1 in Hs. done.
      * apply elem_of_cons in Hband as [->|?]; [|done].
        exists path, src, (data, t, c). rewrite Hout by done.
        by rewrite lookup_insert_eq.
Qed.


End bands_on_grid.

(** ** The checks and the alignment on the example scene *)

(** C2 on the request [ndvi, bogus]. *)
Lemma analyse_scene_unknown_index_witness :
  ∃ unknown,
    index_calculator.analyse_scene examples.first_sample examples.calculator
      examples.band_paths ["out"] (Some ["ndvi"; "bogus"]) examples.disk
      = (inl (ValueError ("Unsupported indices requested: " +:+
                          index_calculator.join ", " unknown)), examples.disk) ∧
    "bogus" ∈ unknown ∧
    occurs_in "bogus" ("Unsupported indices requested: " +:+
                       index_calculator.join ", " unknown).
Proof.
  apply (analyse_scene_unknown_index examples.first_sample examples.calculator
           examples.band_paths ["out"] ["ndvi"; "bogus"] "bogus" examples.disk).
  - apply (bool_decide_unpack _). vm_compute. exact I.
  - apply (bool_decide_unpack _). vm_compute. exact I.
Defined.

(** C3 on the request [ndwi] with a band set that has no swir1. *)
Lemma analyse_scene_missing_band_witness :
  ∃ msg,
    index_calculator.analyse_scene examples.first_sample examples.calculator
      examples.band_paths ["out"] (Some ["ndwi"]) examples.disk
      = (inl (RuntimeError msg), examples.disk) ∧
    msg = "Missing bands for analysis: " +:+
          index_calculator.join ", "
            (index_calculator.sorted
               (required_bands (index_calculator.specs examples.calculator)
                  (index_calculator.requested_of examples.calculator (Some ["ndwi"]))
                ∖ dom examples.band_paths)) ∧
    ∀ alias,
      alias ∈ required_bands (index_calculator.specs examples.calculator)
                (index_calculator.requested_of examples.calculator (Some ["ndwi"])) →
      alias ∉ dom examples.band_paths → occurs_in alias msg.
Proof.
  apply (analyse_scene_missing_band examples.first_sample examples.calculator
           examples.band_paths ["out"] (Some ["ndwi"]) examples.disk).
  - apply Forall_forall. apply (bool_decide_unpack _). vm_compute. exact I.
  - apply (bool_decide_unpack _). vm_compute. exact I.
Defined.


(** ** The order of IEEE values *)

Section float_order.

Lemma lex_spec a b :
  match lex a b with
  | Lt => lex_lt a b
  | Eq => a = b
  | Gt => lex_lt b a
  end.
Proof.
  destruct a as [[a1 a2] a3], b as [[b1 b2] b3]. unfold lex, lex_lt. cbn.
  destruct (Z.compare_spec a1 b1); [|lia..].
  destruct (Z.compare_spec a2 b2); [|lia..].
  destruct (Z.compare_spec a3 b3); [congruence|lia..].
Qed.

Lemma SFcompare_rank x y :
  isnan x = false → isnan y = false → SFcompare x y = Some (lex (rank x) (rank y)).
Proof.
  intros Hx Hy.
  destruct x as [sx|sx| |sx mx ex], y as [sy|sy| |sy my ey]; try discriminate;
    try (destruct sx; reflexivity); try (destruct sy; reflexivity);
    try (destruct sx, sy; reflexivity).
  destruct sx, sy; try reflexivity; unfold SFcompare, rank, lex; cbn [fst snd].
  rewrite Z.compare_opp. rewrite (Z.compare_antisym ex ey).
  destruct (ex ?= ey)%Z; reflexivity.
Qed.

Lemma SFleb_spec x y :
  SFleb x y = true ↔ isnan x = false ∧ isnan y = false ∧ lex_le (rank x) (rank y).
Proof.
  unfold SFleb. destruct (isnan x) eqn:Hx.
  { apply isnan_spec in Hx as ->. cbn. split; [discriminate|by intros [? _]]. }
  destruct (isnan y) eqn:Hy.
  { apply isnan_spec in Hy as ->. destruct x; cbn; split;
      try discriminate; by intros (_ & ? & _). }
  rewrite SFcompare_rank by done.
  pose proof (lex_spec (rank x) (rank y)) as H. unfold lex_le, lex_lt in *.
  destruct (lex (rank x) (rank y)).
  - rewrite H. split; [intros _|done]. split; [done|]. split; [done|]. lia.
  - split; [intros _|done]. split; [done|]. split; [done|]. lia.
  - split; [discriminate|]. intros (_ & _ & ?). lia.
Qed.

Lemma SFltb_spec x y :
  SFltb x y = true ↔ isnan x = false ∧ isnan y = false ∧ lex_lt (rank x) (rank y).
Proof.
  unfold SFltb. destruct (isnan x) eqn:Hx.
  { apply isnan_spec in Hx as ->. cbn. split; [discriminate|by intros [? _]]. }
  destruct (isnan y) eqn:Hy.
  { apply isnan_spec in Hy as ->. destruct x; cbn; split;
      try discriminate; by intros (_ & ? & _). }
  rewrite SFcompare_rank by done.
  pose proof (lex_spec (rank x) (rank y)) as H. unfold lex_lt in *.
  destruct (lex (rank x) (rank y)).
  - rewrite H. split; [discriminate|]. intros (_ & _ & ?). lia.
  - by split.
  - split; [discriminate|]. intros (_ & _ & ?). lia.
Qed.

Lemma SFeqb_refl x : isnan x = false → SFeqb x x = true.
Proof.
  intros Hx. unfold SFeqb. rewrite SFcompare_rank by done.
  pose proof (lex_spec (rank x) (rank x)) as H. unfold lex_lt in H.
  destruct (lex (rank x) (rank x)); [done|lia..].
Qed.

Lemma SFleb_refl x : isnan x = false → SFleb x x = true.
Proof. intros Hx. apply SFleb_spec. unfold lex_le. repeat split; try done. lia. Qed.

Lemma SFleb_trans x y z : SFleb x y = true → SFleb y z = true → SFleb x z = true.
Proof.
  rewrite !SFleb_spec. unfold lex_le. intros (? & ? & ?) (? & ? & ?).
  repeat split; try done. lia.
Qed.

Lemma SFltb_leb x y : SFltb x y = true → SFleb x y = true.
Proof.
  rewrite SFleb_spec, SFltb_spec. unfold lex_le, lex_lt. intros (? & ? & ?).
  repeat split; try done. lia.
Qed.

Lemma SFltb_false_leb x y :
  isnan x = false → isnan y = false → SFltb x y = false → SFleb y x = true.
Proof.
  intros Hx Hy Hlt. apply SFleb_spec. repeat split; try done.
  destruct (decide (lex_lt (rank x) (rank y))) as [H|H].
  - assert (SFltb x y = true) as E by by apply SFltb_spec. congruence.
  - unfold lex_le, lex_lt in *. lia.
Qed.

End float_order.

(** ** [_compute_clip_bounds] *)

Section clip_bounds.
Import renderers.

Lemma py_min_fold rest : ∀ best,
  isnan best = false →
  Forall (λ v, isnan v = false) rest →
  (py_min best rest = best ∨ py_min best rest ∈ rest) ∧
  SFleb (py_min best rest) best = true ∧
  ∀ v, v ∈ rest → SFleb (py_min best rest) v = true.
Proof.
  unfold py_min. induction rest as [|v rest IH]; intros best Hbest Hrest; cbn.
  - split; [by left|]. split; [by apply SFleb_refl|]. by intros v ?%elem_of_nil.
  - apply Forall_cons in Hrest as [Hv Hrest].
    set (best' := if SFltb v best then v else best).
    assert (Hnan' : isnan best' = false) by (subst best'; by destruct (SFltb v best)).
    assert (Hb : SFleb best' best = true).
    { subst best'. destruct (SFltb v best) eqn:E; [by apply SFltb_leb|by apply SFleb_refl]. }
    assert (Hbv : SFleb best' v = true).
    { subst best'. destruct (SFltb v best) eqn:E;
        [by apply SFleb_refl|by apply SFltb_false_leb]. }
    destruct (IH best' Hnan' Hrest) as (Hmem & Hle & Hall).
    split; [|split].
    + destruct Hmem as [->|?]; [|right; by right].
      subst best'. destruct (SFltb v best); [right; left|left]; done.
    + by eapply SFleb_trans.
    + intros u [->|Hu]%elem_of_cons; [by eapply SFleb_trans|by apply Hall].
Qed.

Lemma py_max_fold rest : ∀ best,
  isnan best = false →
  Forall (λ v, isnan v = false) rest →
  (py_max best rest = best ∨ py_max best rest ∈ rest) ∧
  SFleb best (py_max best rest) = true ∧
  ∀ v, v ∈ rest → SFleb v (py_max best rest) = true.
Proof.
  unfold py_max. induction rest as [|v rest IH]; intros best Hbest Hrest; cbn.
  - split; [by left|]. split; [by apply SFleb_refl|]. by intros v ?%elem_of_nil.
  - apply Forall_cons in Hrest as [Hv Hrest].
    set (best' := if SFltb best v then v else best).
    assert (Hnan' : isnan best' = false) by (subst best'; by destruct (SFltb best v)).
    assert (Hb : SFleb best best' = true).
    { subst best'. destruct (SFltb best v) eqn:E; [by apply SFltb_leb|by apply SFleb_refl]. }
    assert (Hbv : SFleb v best' = true).
    { subst best'. destruct (SFltb best v) eqn:E;
        [by apply SFleb_refl|by apply SFltb_false_leb]. }
    destruct (IH best' Hnan' Hrest) as (Hmem & Hle & Hall).
    split; [|split].
    + destruct Hmem as [->|?]; [|right; by right].
      subst best'. destruct (SFltb best v); [right; left|left]; done.
    + by eapply SFleb_trans.
    + intros u [->|Hu]%elem_of_cons; [by eapply SFleb_trans|by apply Hall].
Qed.

Lemma union_of_boxes b rest :
  Forall no_nan_box (b :: rest) →
  is_union_box (b :: rest)
    {| min_lon := py_min (min_lon b) (min_lon <$> rest);
       min_lat := py_min (min_lat b) (min_lat <$> rest);
       max_lon := py_max (max_lon b) (max_lon <$> rest);
       max_lat := py_max (max_lat b) (max_lat <$> rest) |}.
Proof.
  intros Hall. apply Forall_cons in Hall as [(H1 & H2 & H3 & H4) Hrest].
  assert (F1 : Forall (λ v, isnan v = false) (min_lon <$> rest)).
  { apply Forall_fmap. eapply Forall_impl; [exact Hrest|]. by intros ? (? & _). }
  assert (F2 : Forall (λ v, isnan v = false) (min_lat <$> rest)).
  { apply Forall_fmap. eapply Forall_impl; [exact Hrest|]. by intros ? (_ & ? & _). }
  assert (F3 : Forall (λ v, isnan v = false) (max_lon <$> rest)).
  { apply Forall_fmap. eapply Forall_impl; [exact Hrest|]. by intros ? (_ & _ & ? & _). }
  assert (F4 : Forall (λ v, isnan v = false) (max_lat <$> rest)).
  { apply Forall_fmap. eapply Forall_impl; [exact Hrest|]. by intros ? (_ & _ & _ & ?). }
  destruct (py_min_fold _ _ H1 F1) as (M1 & L1 & A1).
  destruct (py_min_fold _ _ H2 F2) as (M2 & L2 & A2).
  destruct (py_max_fold _ _ H3 F3) as (M3 & L3 & A3).
  destruct (py_max_fold _ _ H4 F4) as (M4 & L4 & A4).
  unfold is_union_box. cbn [min_lon min_lat max_lon max_lat].
  repeat split.
  - rewrite fmap_cons. destruct M1 as [->|?]; [by left|by right].
  - intros x [->|Hx]%elem_of_cons; [done|]. by apply A1, list_elem_of_fmap_2.
  - rewrite fmap_cons. destruct M2 as [->|?]; [by left|by right].
  - intros x [->|Hx]%elem_of_cons; [done|]. by apply A2, list_elem_of_fmap_2.
  - rewrite fmap_cons. destruct M3 as [->|?]; [by left|by right].
  - intros x [->|Hx]%elem_of_cons; [done|]. by apply A3, list_elem_of_fmap_2.
  - rewrite fmap_cons. destruct M4 as [->|?]; [by left|by right].
  - intros x [->|Hx]%elem_of_cons; [done|]. by apply A4, list_elem_of_fmap_2.
Qed.

End clip_bounds.

Section clip_bounds_claim.
Import renderers.
Context {GeoJSON : Type} (extract_geometry_bounds : GeoJSON → option Bounds).

Lemma two_finite : two = S754_finite false 4503599627370496 (-51).
Proof. reflexivity. Qed.

(** With a padding factor of 0 the pad is a zero, whatever the finite extent. *)
Lemma pad_zero extent s :
  isfinite extent = true →
  ∃ s', fdiv (fmul extent (S754_zero s)) two = S754_zero s'.
Proof.
  intros Hfin. rewrite two_finite.
  destruct extent as [se|se| |se m e]; try discriminate; cbn; eauto.
Qed.

Lemma fsub_zero_same x s : isfinite x = true → SFeqb (fsub x (S754_zero s)) x = true.
Proof.
  destruct x as [sx|sx| |sx m e]; try discriminate; intros _.
  - by destruct sx, s.
  - unfold fsub, SFsub. by apply SFeqb_refl.
Qed.

Lemma fadd_zero_same x s : isfinite x = true → SFeqb (fadd x (S754_zero s)) x = true.
Proof.
  destruct x as [sx|sx| |sx m e]; try discriminate; intros _.
  - by destruct sx, s.
  - unfold fadd, SFadd. by apply SFeqb_refl.
Qed.

Lemma fsub_finite x y :
  isfinite (fsub x y) = true → isfinite x = true ∧ isfinite y = true.
Proof.
  destruct x as [sx|sx| |sx mx ex], y as [sy|sy| |sy my ey];
    try (intros _; split; reflexivity); cbn; try discriminate.
  all: destruct sx, sy; discriminate.
Qed.

Lemma extents_finite_union bs u :
  extents_finite bs → is_union_box bs u →
  isfinite (fsub (max_lon u) (min_lon u)) = true ∧
  isfinite (fsub (max_lat u) (min_lat u)) = true.
Proof.
  intros Hext ((M1 & _) & (M2 & _) & (M3 & _) & (M4 & _)).
  apply list_elem_of_fmap in M1 as (b1 & -> & Hb1).
  apply list_elem_of_fmap in M2 as (b2 & -> & Hb2).
  apply list_elem_of_fmap in M3 as (b3 & -> & Hb3).
  apply list_elem_of_fmap in M4 as (b4 & -> & Hb4).
  unfold extents_finite in Hext. rewrite Forall_forall in Hext.
  split.
  - pose proof (Hext b3 Hb3) as H. rewrite Forall_forall in H. by apply (H b1).
  - pose proof (Hext b4 Hb4) as H. rewrite Forall_forall in H. by apply (H b2).
Qed.

(** C5: [_compute_clip_bounds] returns [None] when the geometries yield
    no bounds (in particular when there are none).  Otherwise, for bounds
    without NaN, it returns the union bounding box of the geometry bounds
    moved outwards by [padding_factor / 2] of its width on the west and
    east sides and of its height on the south and north sides; and with a
    padding factor of 0 (and extents that do not overflow) every side of
    the result compares equal to the side of the union box. *)
Theorem clip_bounds_union_padded (padding_factor : float) (overlay_geojsons : list GeoJSON) :
  let geom_bounds := omap id (extract_geometry_bounds <$> overlay_geojsons) in
  (geom_bounds = [] →
     _compute_clip_bounds extract_geometry_bounds padding_factor overlay_geojsons = None) ∧
  (geom_bounds ≠ [] → Forall no_nan_box geom_bounds →
     ∃ u, is_union_box geom_bounds u ∧
          _compute_clip_bounds extract_geometry_bounds padding_factor overlay_geojsons
            = Some (expanded padding_factor u) ∧
          (is_zero padding_factor = true → extents_finite geom_bounds →
           same_box (expanded padding_factor u) u)).
Proof.
  intros geom_bounds. split.
  - intros E. unfold _compute_clip_bounds. fold geom_bounds. by rewrite E.
  - intros Hne Hnan. unfold _compute_clip_bounds. fold geom_bounds.
    destruct geom_bounds as [|b rest]; [done|].
    eexists. split; [by apply union_of_boxes|]. split; [reflexivity|].
    intros [s ->]%is_zero_spec Hext.
    destruct (extents_finite_union _ _ Hext (union_of_boxes b rest Hnan)) as [Hw Hh].
    cbn [min_lon min_lat max_lon max_lat] in *.
    destruct (pad_zero _ s Hw) as [s1 E1]. destruct (pad_zero _ s Hh) as [s2 E2].
    apply fsub_finite in Hw as [Hx2 Hx1]. apply fsub_finite in Hh as [Hy2 Hy1].
    unfold same_box, expanded. cbn [min_lon min_lat max_lon max_lat].
    rewrite E1, E2.
    split; [|split; [|split]].
    + by apply fsub_zero_same.
    + by apply fsub_zero_same.
    + by apply fadd_zero_same.
    + by apply fadd_zero_same.
Qed.

End clip_bounds_claim.

(** C5 on two boxes and a geometry without bounds, with padding 0: the
    result is the union box (-4, 0, 4, 6). *)
Lemma clip_bounds_union_padded_witness :
  ∃ u, is_union_box (omap id (id <$> examples.overlays)) u ∧
       renderers._compute_clip_bounds id pzero examples.overlays
         = Some (expanded pzero u) ∧
       same_box (expanded pzero u) u ∧
       renderers._compute_clip_bounds id pzero examples.overlays
         = Some (examples.box (-4) 0 4 6).
Proof.
  destruct (clip_bounds_union_padded id pzero examples.overlays) as [_ H].
  destruct H as (u & Hu & Hr & Hz).
  - discriminate.
  - repeat constructor.
  - exists u. split; [exact Hu|]. split; [exact Hr|]. split; [|reflexivity].
    apply Hz; [reflexivity|]. repeat constructor.
Defined.

(** ** [CSVExporter.export] *)

Section csv_export.
Import rasterio csv_exporter.
Context (xy_center : Affine.t → nat → nat → float * float).

Lemma elem_of_finite_from k row c v :
  (c, v) ∈ finite_from k row ↔
  ∃ i, c = k + i ∧ row !! i = Some v ∧ isfinite v = true.
Proof.
  revert k. induction row as [|x rest IH]; intros k; cbn [finite_from].
  - split; [by intros ?%elem_of_nil | by intros (i & _ & ? & _)].
  - rewrite elem_of_app, IH. split.
    + intros [H|(i & -> & Hi & Hv)].
      * destruct (isfinite x) eqn:E; [|by apply elem_of_nil in H].
        apply list_elem_of_singleton in H as [= -> ->]. exists 0.
        split; [lia|]. by split.
      * exists (S i). split; [lia|]. by split.
    + intros ([|i] & -> & Hi & Hv).
      * left. cbn in Hi. injection Hi as ->. rewrite Hv.
        replace (k + 0) with k by lia. by apply list_elem_of_singleton.
      * right. exists i. split; [lia|]. by split.
Qed.

Lemma length_finite_from k row :
  length (finite_from k row) = length (filter (λ v, isfinite v = true) row).
Proof.
  revert k. induction row as [|x rest IH]; intros k; [done|].
  cbn [finite_from]. rewrite length_app, IH, filter_cons.
  destruct (isfinite x) eqn:E.
  - by rewrite decide_True.
  - by rewrite decide_False by congruence.
Qed.

(** The columns that [export] visits in a row, with the values it reads
    back from the row, are the finite samples of the row. *)
Lemma nonzero_finite_from pre row :
  (λ c, (c, (pre ++ row) !!! c)) <$> nonzero_from (length pre) (isfinite <$> row)
  = finite_from (length pre) row.
Proof.
  revert pre. induction row as [|x rest IH]; intros pre; [done|].
  cbn [fmap list_fmap nonzero_from finite_from]. rewrite fmap_app.
  specialize (IH (pre ++ [x])).
  rewrite length_app, Nat.add_1_r, <- app_assoc in IH. cbn in IH. rewrite IH.
  f_equal. destruct (isfinite x); [|done]. cbn.
  by rewrite list_lookup_total_middle.
Qed.

Lemma any_false_nonzero valid : np.any valid = false → nonzero valid = [].
Proof.
  unfold np.any, nonzero. generalize 0.
  induction valid as [|b rest IH]; intros k; [done|]. cbn.
  destruct b; cbn; [discriminate|]. apply IH.
Qed.

Lemma zip_with_replicate_l {X Y Z} (f : X → Y → Z) x (ys : list Y) :
  zip_with f (replicate (length ys) x) ys = f x <$> ys.
Proof. induction ys as [|y ys IH]; [done|]. cbn. by rewrite IH. Qed.

Lemma zip_fst_snd {X Y} (l : list (X * Y)) : zip (fst <$> l) (snd <$> l) = l.
Proof. induction l as [|[x y] l IH]; [done|]. cbn. by rewrite IH. Qed.

Lemma zip_with_fmap_same {X Y Z} (g : X → Y) (f : Y → X → Z) (l : list X) :
  zip_with f (g <$> l) l = (λ x, f (g x) x) <$> l.
Proof. induction l as [|x l IH]; [done|]. cbn. by rewrite IH. Qed.

(** The rows written for one row of the array. *)
Lemma export_row_spec transform r row :
  export_row xy_center transform r row
  = (λ '(c, v), pixel_row xy_center transform (r, c, v)) <$> finite_from 0 row.
Proof.
  pose proof (nonzero_finite_from [] row) as Hcols. cbn in Hcols.
  fold (nonzero (isfinite <$> row)) in Hcols.
  unfold export_row. destruct (np.any (isfinite <$> row)) eqn:Hany; cbn [negb].
  - unfold _coordinates, xy. rewrite zip_with_replicate_l, zip_fst_snd.
    rewrite zip_with_fmap_same, <- Hcols, <- list_fmap_compose.
    apply list_fmap_ext. intros _ c _. cbn. unfold pixel_row.
    by destruct (xy_center transform r c).
  - rewrite <- Hcols, (any_false_nonzero _ Hany). done.
Qed.

Lemma fmap_join {X Y} (f : X → Y) (ls : list (list X)) :
  f <$> mjoin ls = mjoin ((λ l, f <$> l) <$> ls).
Proof.
  induction ls as [|l ls IH]; [done|].
  change (f <$> (l ++ mjoin ls) = (f <$> l) ++ mjoin ((λ l, f <$> l) <$> ls)).
  by rewrite fmap_app, IH.
Qed.

Lemma sum_list_fmap_with {X} (f : X → nat) (l : list X) :
  sum_list (f <$> l) = sum_list_with f l.
Proof. induction l as [|x l IH]; [done|]. cbn. by rewrite IH. Qed.

Lemma elem_of_finite_pixels data r c v :
  (r, c, v) ∈ finite_pixels data ↔ item data r c = Some v ∧ isfinite v = true.
Proof.
  unfold finite_pixels, item. rewrite list_elem_of_join. split.
  - intros (l & Hin & Hl). apply elem_of_lookup_imap in Hl as (r' & row & -> & Hrow).
    apply list_elem_of_fmap in Hin as ([c' v'] & [= -> -> ->] & Hin).
    apply elem_of_finite_from in Hin as (i & -> & Hi & Hv).
    rewrite Hrow. cbn. by split.
  - intros [Hitem Hv]. destruct (data !! r) as [row|] eqn:Hrow; [|done].
    cbn in Hitem. eexists. split; [|by apply elem_of_lookup_imap_2].
    apply list_elem_of_fmap. exists (c, v). split; [done|].
    apply elem_of_finite_from. exists c. by split.
Qed.

(** C6: the rows that [export] writes are the header followed by one row
    per pixel with a finite value, row by row and left to right; each of
    them holds the coordinates of the pixel center under the transform
    and the value of the pixel; a pixel has a row exactly when its value
    is finite; the number of rows is one more than the number of finite
    samples; and [export] stores exactly these rows at the output path. *)
Theorem export_header_and_finite_pixels (self : CSVExporter) (data : ndarray)
    (transform : Affine.t) (output_path : Path) (w : world) :
  let rows := written_rows xy_center self data transform in
  rows = [CStr (fieldnames self).1.1; CStr (fieldnames self).1.2; CStr (fieldnames self).2]
         :: (pixel_row xy_center transform <$> finite_pixels data) ∧
  (∀ r c v, (r, c, v) ∈ finite_pixels data ↔ item data r c = Some v ∧ isfinite v = true) ∧
  length rows = 1 + count_finite data ∧
  ∃ w', export xy_center self data transform output_path w = (inr output_path, w') ∧
        files w' = <[output_path := Csv rows]> (files w).
Proof.
  intros rows.
  assert (Hrows : rows =
    [CStr (fieldnames self).1.1; CStr (fieldnames self).1.2; CStr (fieldnames self).2]
    :: (pixel_row xy_center transform <$> finite_pixels data)).
  { subst rows. unfold written_rows. destruct (fieldnames self) as [[f1 f2] f3].
    cbn [fst snd]. f_equal. unfold finite_pixels. rewrite fmap_join, fmap_imap. f_equal.
    apply imap_ext. intros r row _. cbn. rewrite export_row_spec.
    rewrite <- list_fmap_compose. apply list_fmap_ext. by intros _ [c v] _. }
  split; [exact Hrows|]. split; [apply elem_of_finite_pixels|]. split.
  - rewrite Hrows. cbn. f_equal. rewrite length_fmap. unfold finite_pixels.
    rewrite length_join, fmap_imap.
    rewrite (imap_ext _ (const (λ row, length (filter (λ v, isfinite v = true) row)))).
    2:{ intros r row _. cbn. by rewrite length_fmap, length_finite_from. }
    rewrite imap_const. apply sum_list_fmap_with.
  - eexists. split; [reflexivity|]. reflexivity.
Qed.

End csv_export.

(** ** [_mask_with_geojson] *)

Section polygon_mask.
Import renderers.
Context {GeoJSON Geom : Type}.
Context (iterate_geometries : GeoJSON → list Geom).
Context (rasterize :
  list (Geom * Z) → nat * nat → Affine.t → Z → bool → exn + (nat → nat → Z)).

Lemma zip_with_idem {X Y} (f : X → Y → Y) :
  (∀ x y, f x (f x y) = f x y) →
  ∀ l k, zip_with f l (zip_with f l k) = zip_with f l k.
Proof.
  intros Hf. induction l as [|x l IH]; intros [|y k]; cbn; [done..|].
  by rewrite Hf, IH.
Qed.

Lemma where_scalar_r_idem {X} (cond : list (list bool)) (x : list (list X)) y :
  where_scalar_r cond (where_scalar_r cond x y) y = where_scalar_r cond x y.
Proof.
  unfold where_scalar_r, map2. apply zip_with_idem.
  intros c row. apply zip_with_idem. by intros [] v.
Qed.

(** Masking keeps the shape of the array. *)
Lemma shape_masked {X} (g : Z → bool) (burnt : nat → nat → Z) (data : list (list X)) y :
  shape (where_scalar_r
           (map1 g (tabulate (shape data).1 (shape data).2 burnt)) data y)
  = shape data.
Proof.
  destruct data as [|row rest]; [done|].
  unfold shape at 2 3. cbn [fst snd length].
  unfold where_scalar_r, map2, map1, tabulate.
  cbn [seq fmap list_fmap zip_with]. unfold shape. cbn [length].
  rewrite !length_zip_with, !length_fmap, !length_seq.
  f_equal; [f_equal|]; lia.
Qed.

(** C7: masking a masked array again, with the same transform and
    geometries, returns the masked array itself; and without any geometry
    (no overlay, or overlays that hold none) the input array is returned
    as it is. *)
Theorem mask_with_geojson_idempotent (data : ndarray) (transform : Affine.t)
    (overlay_geojsons : list GeoJSON) :
  (∀ masked,
     _mask_with_geojson iterate_geometries rasterize data transform overlay_geojsons
       = inr masked →
     _mask_with_geojson iterate_geometries rasterize masked transform overlay_geojsons
       = inr masked) ∧
  (Forall (λ geojson_data, iterate_geometries geojson_data = []) overlay_geojsons →
     _mask_with_geojson iterate_geometries rasterize data transform overlay_geojsons
       = inr data) ∧
  _mask_with_geojson iterate_geometries rasterize data transform [] = inr data.
Proof.
  split; [|split; [|reflexivity]].
  - intros masked. unfold _mask_with_geojson.
    destruct (flat_map _ overlay_geojsons) as [|s shapes] eqn:Hshapes.
    { by intros [= <-]. }
    destruct (rasterize (s :: shapes) (shape data) transform 0%Z false)
      as [e|burnt] eqn:Hr; [discriminate|].
    cbv zeta. intros Hm.
    assert (masked = where_scalar_r
              (map1 (λ v, (v =? 1)%Z) (tabulate (shape data).1 (shape data).2 burnt))
              data nan) as -> by congruence.
    rewrite shape_masked, Hr. by rewrite where_scalar_r_idem.
  - intros Hnone. unfold _mask_with_geojson.
    replace (flat_map _ overlay_geojsons) with (@nil (Geom * Z)); [done|].
    induction Hnone as [|g gs Hg _ IH]; [done|]. cbn. by rewrite Hg, <- IH.
Qed.

End polygon_mask.

(** ** The pipeline *)

Section pipeline_steps.
Import index_calculator pipeline.
Context (reproject :
  ndarray → Affine.t → CRS → Affine.t → CRS → Resampling → nat * nat →
  exn + (nat → nat → float)).

Lemma run_steps_app (pre post : list PipelineStep) (s : state) :
  run_steps (pre ++ post) s =
    match run_steps pre s with
    | (inr _, s') => run_steps post s'
    | (inl e, s') => (inl e, s')
    end.
Proof.
  revert s. induction pre as [|step pre IH]; intros s; [done|].
  cbn [app run_steps]. rewrite !run_bind.
  destruct (run step s) as [[e|[]] s1]; [done|]. apply IH.
Qed.

(** C8: on a context without bands the compute-indices step raises its
    [RuntimeError] at once and leaves the context (the indices mapping and
    every other field) and the file system as they were; a pipeline that
    reaches the step in that state stops there with that error, running
    none of the later steps. *)
Theorem compute_indices_requires_bands (calculator : IndexCalculator)
    (context : WorkflowContext.t) (w : rasterio.world) :
  WorkflowContext.bands context = ∅ →
  let error := RuntimeError "Nenhuma banda disponível para cálculo dos índices." in
  run (ComputeIndicesStep reproject calculator) (context, w) = (inl error, (context, w)) ∧
  ∀ (pre post : list PipelineStep) (s : state),
    run_steps pre s = (inr tt, (context, w)) →
    Pipeline_run {| steps := pre ++ ComputeIndicesStep reproject calculator :: post |} s
      = (inl error, (context, w)).
Proof.
  intros Hbands error.
  assert (Hstep : run (ComputeIndicesStep reproject calculator) (context, w)
                  = (inl error, (context, w))).
  { cbn [run ComputeIndicesStep]. unfold ComputeIndicesStep_run.
    rewrite run_bind. cbn [get_context fst]. by rewrite bool_decide_true. }
  split; [exact Hstep|].
  intros pre post s Hpre. unfold Pipeline_run. cbn [steps].
  rewrite run_steps_app, Hpre. cbn [run_steps]. by rewrite run_bind, Hstep.
Qed.

End pipeline_steps.

(** C7 on a 2x2 array whose second row lies outside the polygon. *)
Lemma mask_with_geojson_idempotent_witness :
  renderers._mask_with_geojson (λ n : nat, [n]) examples.first_row_inside
    examples.masked_square examples.fine_grid [7]
  = inr examples.masked_square.
Proof.
  apply (proj1 (mask_with_geojson_idempotent (λ n : nat, [n]) examples.first_row_inside
                  examples.square examples.fine_grid [7])).
  reflexivity.
Defined.

(** C8 on a fresh context, whose band set is still empty. *)
Lemma compute_indices_requires_bands_witness :
  let error := RuntimeError "Nenhuma banda disponível para cálculo dos índices." in
  pipeline.run (pipeline.ComputeIndicesStep examples.first_sample examples.calculator)
    (examples.fresh_context, examples.disk)
    = (inl error, (examples.fresh_context, examples.disk)) ∧
  ∀ (pre post : list pipeline.PipelineStep) (s : pipeline.state),
    pipeline.run_steps pre s = (inr tt, (examples.fresh_context, examples.disk)) →
    pipeline.Pipeline_run
      {| pipeline.steps :=
           pre ++ pipeline.ComputeIndicesStep examples.first_sample examples.calculator
               :: post |} s
      = (inl error, (examples.fresh_context, examples.disk)).
Proof.
  apply (compute_indices_requires_bands examples.first_sample examples.calculator
           examples.fresh_context examples.disk).
  reflexivity.
Defined.

(** ** [AreaOfInterest.to_wkt] *)

Section wkt.
Import index_calculator entities.
Context (str_number : number → string).

Lemma mapE_inr {X Y} (f : X → exn + Y) xs ys :
  mapE f xs = inr ys → Forall2 (λ x y, f x = inr y) xs ys.
Proof.
  revert ys. induction xs as [|x xs IH]; intros ys; cbn.
  - intros [= <-]. constructor.
  - destruct (f x) as [e|y] eqn:Hx; [discriminate|]. cbn.
    destruct (mapE f xs) as [e|ys'] eqn:Hxs; [discriminate|]. cbn.
    intros [= <-]. constructor; [done|]. by apply IH.
Qed.

Lemma substring_full (s : string) : String.substring 0 (String.length s) s = s.
Proof. induction s as [|ch s IH]; [done|]. cbn. by rewrite IH. Qed.

(** Dropping the first ["POLYGON "] of a polygon text leaves its body. *)
Lemma replace_first_polygon body :
  replace_first "POLYGON " "" ("POLYGON " +:+ body) = body.
Proof.
  cbv [String.append]. cbn.
  replace (String.prefix "" body) with true by by destruct body.
  by rewrite Nat.sub_0_r, append_empty_l, substring_full.
Qed.

Lemma closed_ring_spec ring :
  ring ≠ [] → emitted_for ring (closed_ring ring) ∧ is_closed (closed_ring ring).
Proof.
  destruct ring as [|x rest]; [done|]. intros _. unfold closed_ring, emitted_for.
  destruct (first_ne_last (x :: rest)) eqn:E.
  - split; [split; [eauto|done]|].
    exists x, x. split; [done|]. split; [|by left].
    change (x :: rest ++ [x]) with ((x :: rest) ++ [x]). apply last_snoc.
  - split; [split; [done|done]|].
    unfold first_ne_last in E. apply negb_false_iff in E.
    destruct (last (x :: rest)) as [z|] eqn:Hlast.
    + exists x, z. split; [done|]. split; [exact Hlast|]. by right.
    + by apply last_None in Hlast.
Qed.

Lemma ring_text_inr ring text :
  ring_text str_number ring = inr text →
  ∃ items texts,
    ring = PList items ∧ items ≠ [] ∧
    Forall2 (λ position t, position_text str_number position = inr t)
            (closed_ring items) texts ∧
    text = join ", " texts.
Proof.
  unfold ring_text. destruct (falsy ring) eqn:Hf; [discriminate|].
  destruct ring as [n|items]; [discriminate|].
  destruct (mapE _ (closed_ring items)) as [e|texts] eqn:Hm; [discriminate|].
  cbn. intros [= <-]. exists items, texts. split; [done|].
  split; [by destruct items|]. split; [by apply mapE_inr|done].
Qed.

Lemma polygon_to_wkt_inr coordinates wkt :
  _polygon_to_wkt str_number (Some coordinates) = inr wkt →
  ∃ body, polygon_emits str_number coordinates body ∧ wkt = "POLYGON " +:+ body.
Proof.
  unfold _polygon_to_wkt. destruct coordinates as [n|rings_in]; [discriminate|].
  destruct (mapE _ rings_in) as [e|ring_texts] eqn:Hm; [discriminate|].
  cbn. intros [= <-]. apply mapE_inr in Hm.
  eexists. split; [|reflexivity].
  assert (∃ rings texts,
            rings_in = PList <$> rings ∧
            Forall (λ ring, ring ≠ []) rings ∧
            Forall2 (Forall2 (λ position t, position_text str_number position = inr t))
                    (closed_ring <$> rings) texts ∧
            ring_texts = (λ ts, join ", " ts) <$> texts)
    as (rings & texts & -> & Hne & Htexts & ->).
  { induction Hm as [|ring text rs ts Hring _ IH].
    - exists [], []. repeat split; constructor.
    - destruct IH as (rings & texts & -> & Hne & Htexts & ->).
      apply ring_text_inr in Hring as (items & tx & -> & Hitems & Htx & ->).
      exists (items :: rings), (tx :: texts).
      split; [done|]. split; [by constructor|]. split; [by constructor|done]. }
  exists rings, (closed_ring <$> rings), texts.
  split; [done|]. split; [|split; [|split; [done|]]].
  - apply Forall2_fmap_r, Forall2_same_length_lookup. split; [done|].
    intros i r1 r2 H1 H2. rewrite H1 in H2. injection H2 as <-.
    apply closed_ring_spec. rewrite Forall_forall in Hne. apply Hne.
    by eapply list_elem_of_lookup_2.
  - apply Forall_fmap. eapply Forall_impl; [exact Hne|].
    intros r Hr. by apply closed_ring_spec.
  - rewrite <- list_fmap_compose. reflexivity.
Qed.

(** C9: for a geometry that resolves to a Polygon, the text that [to_wkt]
    returns is [POLYGON] followed by the serialization of closed rings:
    each ring of the coordinates as it is when its first and last entries
    compare equal with [==] (two positions: entry by entry, two entries
    that are one object being equal), and followed by its first entry
    otherwise.  For a
    MultiPolygon the text is [MULTIPOLYGON (...)] around the bodies of its
    polygons, each of that form.  For any other resolved type [to_wkt]
    raises the unsupported-geometry [ValueError]. *)
Theorem to_wkt_closes_rings (self : AreaOfInterest) (resolved : GeoJSON) :
  _extract_geometry (geometry self) = inr resolved →
  (get_type resolved = Some "Polygon" →
     ∀ wkt, to_wkt str_number self = inr wkt →
       ∃ coordinates body,
         get_coordinates resolved = Some coordinates ∧
         polygon_emits str_number coordinates body ∧ wkt = "POLYGON " +:+ body) ∧
  (get_type resolved = Some "MultiPolygon" →
     ∀ wkt, to_wkt str_number self = inr wkt →
       ∃ polygons bodies,
         get_coordinates resolved = Some (PList polygons) ∧
         Forall2 (polygon_emits str_number) polygons bodies ∧
         wkt = "MULTIPOLYGON (" +:+ join ", " bodies +:+ ")") ∧
  (get_type resolved ≠ Some "Polygon" → get_type resolved ≠ Some "MultiPolygon" →
     to_wkt str_number self
       = inl (ValueError ("Unsupported geometry type: " +:+
                          default "None" (get_type resolved)))).
Proof.
  intros Hres. unfold to_wkt. rewrite Hres. cbn [ebind].
  split; [|split].
  - intros Htype wkt. rewrite bool_decide_true by done.
    destruct (get_coordinates resolved) as [coordinates|]; [|discriminate].
    intros (body & ? & ?)%polygon_to_wkt_inr. eauto.
  - intros Htype wkt. rewrite bool_decide_false by (rewrite Htype; discriminate).
    rewrite bool_decide_true by done.
    destruct (get_coordinates resolved) as [[n|polygons]|]; [discriminate| |discriminate].
    destruct (mapE _ polygons) as [e|polygon_wkts] eqn:Hm; [discriminate|].
    cbn. intros [= <-]. apply mapE_inr in Hm.
    assert (∃ bodies, Forall2 (polygon_emits str_number) polygons bodies ∧
                      polygon_wkts = (λ body, "POLYGON " +:+ body) <$> bodies)
      as (bodies & Hbodies & ->).
    { induction Hm as [|polygon wkt ps ws Hp _ IH].
      - exists []. split; [constructor|done].
      - destruct IH as (bodies & Hbodies & ->).
        apply polygon_to_wkt_inr in Hp as (body & Hbody & ->).
        exists (body :: bodies). split; [by constructor|done]. }
    exists polygons, bodies. split; [done|]. split; [done|].
    rewrite <- list_fmap_compose. f_equal. f_equal. f_equal.
    rewrite <- (list_fmap_id bodies) at 2. apply list_fmap_ext.
    intros _ body _. cbn. apply replace_first_polygon.
  - intros H1 H2. by rewrite !bool_decide_false.
Qed.

End wkt.

(** C9 on the open triangle (0 0, 0 1, 1 1): the ring is closed with
    (0 0) before it is written. *)
Lemma to_wkt_closes_rings_witness :
  entities.to_wkt examples.digit_str examples.triangle
    = inr "POLYGON ((0 0, 0 1, 1 1, 0 0))" ∧
  ∃ coordinates body,
    entities.get_coordinates (entities.geometry examples.triangle) = Some coordinates ∧
    polygon_emits examples.digit_str coordinates body ∧
    "POLYGON ((0 0, 0 1, 1 1, 0 0))" = "POLYGON " +:+ body.
Proof.
  split; [reflexivity|].
  apply (proj1 (to_wkt_closes_rings examples.digit_str examples.triangle
                  (entities.geometry examples.triangle) eq_refl));
    reflexivity.
Defined.

(** The ring (nan 0, 1 1, nan 0): read by [json.load], its two NaN are
    one object, its first and last positions compare equal, and it is
    written as it is; with two NaN objects the positions differ, and the
    first one is appended. *)
Example to_wkt_of_nan_ring :
  entities.to_wkt examples.digit_str (examples.nan_ring 100 100)
    = inr "POLYGON ((nan 0, 1 1, nan 0))" ∧
  entities.to_wkt examples.digit_str (examples.nan_ring 100 101)
    = inr "POLYGON ((nan 0, 1 1, nan 0, nan 0))".
Proof. split; reflexivity. Qed.

(** ** [analyse_scene]: the rasters it writes *)

Section outputs.
Import index_calculator rasterio.
Context (reproject :
  ndarray → Affine.t → CRS → Affine.t → CRS → Resampling → nat * nat →
  exn + (nat → nat → float)).

Lemma save_raster_run array template destination (w : world) :
  save_raster array template destination w =
    match files w !! template with
    | Some (Raster meta) =>
        (inr destination,
         {| files := <[destination := Raster (saved_as meta array)]> (files w);
            trace := trace w ++ [Mkdir (parent destination); Open template rd;
                                 Open destination wr] |})
    | _ =>
        (inl (RasterioIOError "No such file or not a raster"),
         {| files := files w;
            trace := trace w ++ [Mkdir (parent destination); Open template rd] |})
    end.
Proof.
  unfold save_raster. rewrite run_bind. cbn [mkdir_parents log].
  rewrite run_bind, open_run. cbn [files trace].
  destruct (files w !! template) as [[meta|rows]|]; cbn; rewrite <- ?app_assoc; [|done..].
  rewrite run_bind. unfold write. rewrite run_bind. cbn. by rewrite <- app_assoc.
Qed.

Lemma parent_output_path output_dir name : parent (output_path output_dir name) = output_dir.
Proof. apply removelast_last. Qed.

Lemma list_ascii_append (s t : string) :
  String.list_ascii_of_string (s +:+ t) = (String.list_ascii_of_string s ++ String.list_ascii_of_string t)%list.
Proof. induction s as [|ch s IH]; [done|]. rewrite append_cons. cbn. by rewrite IH. Qed.

Lemma append_inj_r (s1 s2 t : string) : s1 +:+ t = s2 +:+ t → s1 = s2.
Proof.
  intros H. apply (f_equal String.list_ascii_of_string) in H.
  rewrite !list_ascii_append in H. apply app_inv_tail in H.
  apply (f_equal String.string_of_list_ascii) in H.
  by rewrite !String.string_of_list_ascii_of_string in H.
Qed.

Lemma output_path_inj output_dir : Inj (=) (=) (output_path output_dir).
Proof.
  intros n1 n2 H. unfold output_path, path_join in H.
  apply app_inj_tail in H as [_ H]. by apply append_inj_r in H.
Qed.


Lemma same_grid_refl ds : same_grid ds ds.
Proof. done. Qed.

Lemma saved_as_same_grid a b array : same_grid a b → saved_as a array = saved_as b array.
Proof. intros (Hh & Hw & Ht & Hc). unfold saved_as. by rewrite Hh, Hw, Ht, Hc. Qed.


(** The inner loop that gathers the arrays of a formula. *)
Lemma gather_run (band_arrays : gmap string ndarray) (l : list string) acc (w : world) :
  foldM (λ acc band, x ← getitem band_arrays band; mret (acc ++ [x])%list) acc l w
  = (ebind (mapE (λ band, match band_arrays !! band with
                          | Some x => inr x
                          | None => inl (KeyError band)
                          end) l)
           (λ xs, inr (acc ++ xs)%list), w).
Proof.
  revert acc. induction l as [|band rest IH]; intros acc; cbn [foldM mapE ebind].
  - by rewrite app_nil_r.
  - rewrite run_bind, run_bind. unfold getitem at 1.
    destruct (band_arrays !! band) as [x|]; [|done]. cbn. rewrite IH.
    destruct (mapE _ rest) as [e|xs]; [done|]. cbn. by rewrite <- app_assoc.
Qed.

(** One turn of the loop of lines 152-158. *)
Lemma output_body_run self band_paths output_dir band_arrays
    (outputs : gmap string Path) name (w : world) :
  (spec ← getspec (specs self) name;
   arrays ← foldM (λ acc band, x ← getitem band_arrays band; mret (acc ++ [x])%list)
                  [] (bands spec);
   result ← lift_exn (call (func spec) arrays);
   template ← getitem band_paths "nir";
   saved ← save_raster result template (path_join output_dir (name +:+ ".tif"));
   mret (<[name := saved]> outputs)) w
  = match index_array (specs self) band_arrays name with
    | inl e => (inl e, w)
    | inr result =>
        match band_paths !! "nir" with
        | None => (inl (KeyError "nir"), w)
        | Some template =>
            match save_raster result template (output_path output_dir name) w with
            | (inr saved, w1) => (inr (<[name := saved]> outputs), w1)
            | (inl e, w1) => (inl e, w1)
            end
        end
    end.
Proof.
  rewrite run_bind. unfold getspec, index_array.
  destruct (lookup_spec (specs self) name) as [spec|]; [|done]. cbn.
  rewrite run_bind, gather_run.
  destruct (mapE _ (bands spec)) as [e|arrays]; [done|]. cbn.
  rewrite run_bind. unfold lift_exn.
  destruct (call (func spec) arrays) as [e|result]; [done|].
  rewrite run_bind. unfold getitem.
  destruct (band_paths !! "nir") as [template|]; [|done]. cbn.
  rewrite run_bind. fold (output_path output_dir name).
  by destruct (save_raster result template (output_path output_dir name) w) as [[e|saved] w1].
Qed.


Local Abbreviation output_loop self band_paths output_dir band_arrays :=
  (foldM (λ (outputs : gmap string Path) name,
            spec ← getspec (specs self) name;
            arrays ← foldM (λ acc band, x ← getitem band_arrays band; mret (acc ++ [x])%list)
                           [] (bands spec);
            result ← lift_exn (call (func spec) arrays);
            template ← getitem band_paths "nir";
            saved ← save_raster result template (path_join output_dir (name +:+ ".tif"));
            mret (<[name := saved]> outputs))).

(** Whatever the outcome of the loop, it reads the nir raster, makes the
    output directory and writes rasters of the names it went through, and
    leaves every other file as it was. *)
Lemma output_loop_confined self band_paths output_dir band_arrays requested names :
  (∀ name, name ∈ names → name ∈ requested) →
  ∀ acc (w w' : world) r,
  output_loop self band_paths output_dir band_arrays acc names w = (r, w') →
  (∃ evs, trace w' = trace w ++ evs ∧
          Forall (confined band_paths output_dir requested) evs) ∧
  (∀ p, p ∉ output_path output_dir <$> names → files w' !! p = files w !! p).
Proof.
  induction names as [|name rest IH]; intros Hsub acc w w' r Hrun.
  - cbn in Hrun. injection Hrun as <- <-.
    split; [exists []; by rewrite app_nil_r|done].
  - cbn [foldM] in Hrun. rewrite run_bind, output_body_run in Hrun.
    assert (Hdone : (∃ evs, trace w = trace w ++ evs ∧
                       Forall (confined band_paths output_dir requested) evs)).
    { exists []. by rewrite app_nil_r. }
    destruct (index_array (specs self) band_arrays name) as [e|result].
    { injection Hrun as <- <-. done. }
    destruct (band_paths !! "nir") as [template|] eqn:Hnir.
    2:{ injection Hrun as <- <-. done. }
    rewrite save_raster_run in Hrun. rewrite parent_output_path in Hrun.
    destruct (files w !! template) as [[meta|rows]|] eqn:Htemplate.
    + apply IH in Hrun as ([evs [Htrace Hevs]] & Hframe);
        [|intros; apply Hsub; by right].
      cbn [files trace] in Htrace, Hframe. split.
      * eexists. split; [by rewrite Htrace, <- app_assoc|].
        apply Forall_app. split; [|done].
        repeat apply Forall_cons_2; [done|by exists "nir"| |constructor].
        exists name. split; [apply Hsub; left|done].
      * intros p Hp. rewrite fmap_cons in Hp. apply not_elem_of_cons in Hp as [Hne Hp].
        rewrite Hframe by done. by rewrite lookup_insert_ne.
    + injection Hrun as <- <-. cbn [files trace]. split; [|done].
      eexists. split; [done|]. repeat apply Forall_cons_2; [done|by exists "nir"|constructor].
    + injection Hrun as <- <-. cbn [files trace]. split; [|done].
      eexists. split; [done|]. repeat apply Forall_cons_2; [done|by exists "nir"|constructor].
Qed.

(** When the loop returns: the outputs it adds, the file it has written
    for each name, and the files it has opened for writing, in order. *)
Lemma output_loop_returns self band_paths output_dir band_arrays nir_path nir names :
  band_paths !! "nir" = Some nir_path →
  ∀ acc (w w' : world) outputs,
  (∃ ds, files w !! nir_path = Some (Raster ds) ∧ same_grid ds nir) →
  output_loop self band_paths output_dir band_arrays acc names w = (inr outputs, w') →
  (∀ name, outputs !! name
           = if bool_decide (name ∈ names) then Some (output_path output_dir name)
             else acc !! name) ∧
  (∀ name, name ∈ names →
     ∃ result, index_array (specs self) band_arrays name = inr result ∧
               files w' !! output_path output_dir name = Some (Raster (saved_as nir result))) ∧
  written_paths (trace w') = written_paths (trace w) ++ (output_path output_dir <$> names).
Proof.
  intros Hnir. induction names as [|name rest IH]; intros acc w w' outputs Hgrid Hrun.
  - cbn in Hrun. injection Hrun as <- <-.
    split; [done|]. split; [by intros ? ?%elem_of_nil|]. by rewrite app_nil_r.
  - pose proof Hrun as Hall. cbn [foldM] in Hrun.
    rewrite run_bind, output_body_run in Hrun.
    destruct (index_array (specs self) band_arrays name) as [e|result] eqn:Hresult;
      [discriminate|].
    destruct Hgrid as (ds & Hds & Hsame).
    rewrite Hnir, save_raster_run, Hds in Hrun.
    apply output_loop_confined with (requested := rest) in Hrun as Hframe; [|done].
    destruct Hframe as [_ Hframe]. cbn [files] in Hframe.
    apply IH in Hrun as (Hout & Hfile & Hwritten).
    2:{ cbn [files]. destruct (decide (output_path output_dir name = nir_path)) as [<-|Hne].
        - rewrite lookup_insert_eq. eexists. split; [done|].
          destruct Hsame as (? & ? & ? & ?). done.
        - rewrite lookup_insert_ne by done. eauto. }
    split; [|split].
    + intros k. rewrite Hout. destruct (decide (k ∈ rest)) as [Hk|Hk].
      * rewrite !bool_decide_true; [done| |done]. by right.
      * rewrite (bool_decide_false (k ∈ rest)) by done.
        destruct (decide (k = name)) as [->|Hne].
        -- rewrite lookup_insert_eq, bool_decide_true; [done|left].
        -- rewrite lookup_insert_ne by done.
           rewrite bool_decide_false; [done|]. by intros [?|?]%elem_of_cons.
    + intros k Hk. destruct (decide (k ∈ rest)) as [Hr|Hr]; [by apply Hfile|].
      apply elem_of_cons in Hk as [->|?]; [|done].
      exists result. split; [done|]. rewrite Hframe.
      * rewrite lookup_insert_eq. by rewrite (saved_as_same_grid ds nir).
      * intros (k & Hk & Hin)%list_elem_of_fmap.
        apply output_path_inj in Hk as <-. done.
    + rewrite Hwritten. cbn [trace]. unfold written_paths.
      rewrite omap_app. cbn. by rewrite <- app_assoc.
Qed.


Lemma output_loop_total self band_paths output_dir band_arrays nir_path names :
  band_paths !! "nir" = Some nir_path →
  ∀ acc (w : world),
  (∃ ds, files w !! nir_path = Some (Raster ds)) →
  (∀ name, name ∈ names → ∃ result, index_array (specs self) band_arrays name = inr result) →
  ∃ outputs w', output_loop self band_paths output_dir band_arrays acc names w
                = (inr outputs, w').
Proof.
  intros Hnir. induction names as [|name rest IH]; intros acc w [ds Hds] Hnames.
  - by exists acc, w.
  - cbn [foldM]. rewrite run_bind, output_body_run.
    destruct (Hnames name) as [result ->]; [left|].
    rewrite Hnir, save_raster_run, Hds. apply IH.
    + cbn [files]. destruct (decide (output_path output_dir name = nir_path)) as [<-|Hne].
      * rewrite lookup_insert_eq. eauto.
      * rewrite lookup_insert_ne by done. eauto.
    + intros k Hk. apply Hnames. by right.
Qed.

Lemma mapE_total {X Y} (f : X → exn + Y) xs :
  (∀ x, x ∈ xs → ∃ y, f x = inr y) →
  ∃ ys, mapE f xs = inr ys ∧ length ys = length xs.
Proof.
  induction xs as [|x xs IH]; intros Hf; [by exists []|].
  destruct (Hf x) as [y Hy]; [left|].
  destruct IH as (ys & Hys & Hlen); [intros; apply Hf; by right|].
  exists (y :: ys). cbn. rewrite Hy. cbn. rewrite Hys. cbn. by rewrite Hlen.
Qed.

(** A formula of the registry of the module returns when it is given as
    many arrays as its spec lists bands. *)
Lemma registry_returns name spec arrays :
  lookup_spec INDEX_SPECS name = Some spec →
  length arrays = length (bands spec) →
  ∃ result, call (func spec) arrays = inr result.
Proof.
  intros Hin%lookup_spec_elem. unfold INDEX_SPECS in Hin.
  repeat (apply elem_of_cons in Hin as [Hin|Hin]); try (by apply elem_of_nil in Hin);
    injection Hin as -> ->; cbn [bands func length];
    destruct arrays as [|x [|y [|z [|u rest]]]]; try discriminate;
    intros _; cbn; eauto.
Qed.

Lemma index_array_total specs (band_arrays : gmap string ndarray) name spec :
  lookup_spec specs name = Some spec →
  (∀ arrays, length arrays = length (bands spec) →
             ∃ result, call (func spec) arrays = inr result) →
  (∀ band, band ∈ bands spec → is_Some (band_arrays !! band)) →
  ∃ result, index_array specs band_arrays name = inr result.
Proof.
  intros Hspec Hcall Hbands. unfold index_array. rewrite Hspec.
  destruct (mapE_total (λ band, match band_arrays !! band with
                                | Some x => inr x
                                | None => inl (KeyError band)
                                end) (bands spec)) as (arrays & -> & Hlen).
  { intros band [x ->]%Hbands. eauto. }
  cbn. by apply Hcall.
Qed.

(** [load_raster] only reads, and only the two files it is given. *)
Lemma load_raster_reads path reference_path (w w' : world) r :
  load_raster reproject path reference_path w = (r, w') →
  files w' = files w ∧
  ∃ evs, trace w' = trace w ++ evs ∧
         Forall (λ ev, ∃ p, ev = Open p rd ∧ (p = path ∨ reference_path = Some p)) evs.
Proof.
  unfold load_raster. rewrite run_bind, open_run.
  assert (Hone : Forall (λ ev, ∃ p, ev = Open p rd ∧ (p = path ∨ reference_path = Some p))
                        [Open path rd]).
  { repeat constructor. eauto. }
  destruct (files w !! path) as [[src|?]|].
  2,3: intros [= <- <-]; cbn; eauto.
  destruct reference_path as [reference_path|].
  2:{ cbn. intros [= <- <-]. cbn. eauto. }
  assert (Htwo : Forall (λ ev, ∃ p, ev = Open p rd ∧
                                     (p = path ∨ Some reference_path = Some p))
                        [Open path rd; Open reference_path rd]).
  { repeat constructor; eauto. }
  rewrite run_bind, open_run. cbn [files trace]. rewrite <- app_assoc.
  destruct (files w !! reference_path) as [[ref|?]|].
  2,3: intros [= <- <-]; cbn; eauto.
  destruct (Affine.ne _ _ || _ || _).
  - rewrite run_bind. unfold lift_exn.
    destruct (reproject _ _ _ _ _ _ _) as [e|sample]; intros [= <- <-]; cbn; eauto.
  - intros [= <- <-]. cbn. eauto.
Qed.

Local Abbreviation band_loop band_paths :=
  (foldM (λ (band_arrays : gmap string ndarray) band,
            path ← getitem band_paths band;
            reference_path ← getitem band_paths "nir";
            '(data, _, _) ← load_raster reproject path (Some reference_path);
            mret (<[band := data]> band_arrays))).

Lemma band_loop_reads (band_paths : gmap string Path) l :
  ∀ acc (w w' : world) r,
  band_loop band_paths acc l w = (r, w') →
  files w' = files w ∧
  ∃ evs, trace w' = trace w ++ evs ∧
         Forall (λ ev, ∃ band p, band_paths !! band = Some p ∧ ev = Open p rd) evs.
Proof.
  induction l as [|band rest IH]; intros acc w w' r Hrun.
  - cbn in Hrun. injection Hrun as <- <-. split; [done|]. exists []. by rewrite app_nil_r.
  - cbn [foldM] in Hrun. rewrite run_bind, run_bind in Hrun. unfold getitem at 1 in Hrun.
    destruct (band_paths !! band) as [path|] eqn:Hpath.
    2:{ injection Hrun as <- <-. split; [done|]. exists []. by rewrite app_nil_r. }
    cbn in Hrun. rewrite run_bind in Hrun. unfold getitem at 1 in Hrun.
    destruct (band_paths !! "nir") as [nir_path|] eqn:Hnir.
    2:{ injection Hrun as <- <-. split; [done|]. exists []. by rewrite app_nil_r. }
    cbn in Hrun. rewrite run_bind in Hrun.
    destruct (load_raster reproject path (Some nir_path) w) as [r1 w1] eqn:Hload.
    apply load_raster_reads in Hload as (Hfiles1 & evs1 & Htrace1 & Hevs1).
    assert (Hconf : Forall (λ ev, ∃ band p, band_paths !! band = Some p ∧ ev = Open p rd)
                           evs1).
    { eapply Forall_impl; [exact Hevs1|]. intros ev (p & -> & [->|[= ->]]); eauto. }
    destruct r1 as [e|[[data t] c]].
    { injection Hrun as <- <-. eauto. }
    cbn in Hrun. apply IH in Hrun as (Hfiles & evs & Htrace & Hevs).
    split; [congruence|]. exists (evs1 ++ evs).
    split; [by rewrite Htrace, Htrace1, <- app_assoc|]. by apply Forall_app.
Qed.

(** [load_bands] leaves the files as they are, and opens only rasters of
    the band paths, for reading. *)
Lemma load_bands_reads (band_paths : gmap string Path) required (w w' : world) r :
  load_bands reproject band_paths required w = (r, w') →
  files w' = files w ∧
  ∃ evs, trace w' = trace w ++ evs ∧
         Forall (λ ev, ∃ band p, band_paths !! band = Some p ∧ ev = Open p rd) evs.
Proof.
  unfold load_bands. rewrite run_bind. unfold getitem at 1.
  destruct (band_paths !! "nir") as [nir_path|] eqn:Hnir.
  2:{ intros [= <- <-]. split; [done|]. exists []. by rewrite app_nil_r. }
  cbn. rewrite run_bind.
  destruct (load_raster reproject nir_path None w) as [r1 w1] eqn:Hload.
  apply load_raster_reads in Hload as (Hfiles1 & evs1 & Htrace1 & Hevs1).
  assert (Hconf : Forall (λ ev, ∃ band p, band_paths !! band = Some p ∧ ev = Open p rd)
                         evs1).
  { eapply Forall_impl; [exact Hevs1|]. intros ev (p & -> & [->|[=]]); eauto. }
  destruct r1 as [e|[[data t] c]].
  { intros [= <- <-]. eauto. }
  cbn. intros (Hfiles & evs & Htrace & Hevs)%band_loop_reads.
  split; [congruence|]. exists (evs1 ++ evs).
  split; [by rewrite Htrace, Htrace1, <- app_assoc|]. by apply Forall_app.
Qed.


Lemma reads_written_paths (band_paths : gmap string Path) evs :
  Forall (λ ev, ∃ band p, band_paths !! band = Some p ∧ ev = Open p rd) evs →
  written_paths evs = [].
Proof.
  induction 1 as [|ev evs (band & p & _ & ->) _ IH]; [done|]. exact IH.
Qed.

Lemma load_bands_nir (band_paths : gmap string Path) required (w w' : world) arrays :
  load_bands reproject band_paths required w = (inr arrays, w') →
  ∃ nir_path nir, band_paths !! "nir" = Some nir_path ∧
                  files w !! nir_path = Some (Raster nir).
Proof.
  unfold load_bands. rewrite run_bind. unfold getitem at 1.
  destruct (band_paths !! "nir") as [nir_path|] eqn:Hnir; [|discriminate].
  cbn. rewrite run_bind.
  destruct (load_raster reproject nir_path None w) as [[e|[[nir_data t0] c0]] w1] eqn:Hload;
    [discriminate|].
  apply load_raster_alone in Hload as (nir & Hfile & _). eauto.
Qed.


Lemma load_raster_total path reference_path (w : world) src :
  (∀ d t c t' c' r s, ∃ sample, reproject d t c t' c' r s = inr sample) →
  files w !! path = Some (Raster src) →
  (∀ rp, reference_path = Some rp → ∃ ref, files w !! rp = Some (Raster ref)) →
  ∃ result w', load_raster reproject path reference_path w = (inr result, w') ∧
               files w' = files w.
Proof.
  intros Htotal Hsrc Href. unfold load_raster. rewrite run_bind, open_run, Hsrc.
  destruct reference_path as [rp|]; [|cbn; eauto].
  destruct (Href rp eq_refl) as [ref Hrp].
  rewrite run_bind, open_run. cbn [files trace]. rewrite Hrp.
  destruct (Affine.ne _ _ || _ || _); [|cbn; eauto].
  rewrite run_bind. unfold lift_exn.
  edestruct Htotal as [sample ->]. cbn. eauto.
Qed.

Lemma band_loop_total (band_paths : gmap string Path) nir_path l :
  (∀ d t c t' c' r s, ∃ sample, reproject d t c t' c' r s = inr sample) →
  band_paths !! "nir" = Some nir_path →
  ∀ acc (w : world),
  (∃ nir, files w !! nir_path = Some (Raster nir)) →
  (∀ band, band ∈ l →
     ∃ path ds, band_paths !! band = Some path ∧ files w !! path = Some (Raster ds)) →
  ∃ arrays w',
    band_loop band_paths acc l w = (inr arrays, w') ∧
    files w' = files w ∧
    ∀ band, band ∈ l ∨ is_Some (acc !! band) → is_Some (arrays !! band).
Proof.
  intros Htotal Hnir. induction l as [|band rest IH]; intros acc w Hnirfile Hbands.
  - exists acc, w. split; [done|]. split; [done|].
    intros band [?%elem_of_nil|?]; done.
  - destruct (Hbands band) as (path & ds & Hpath & Hds); [left|].
    destruct (load_raster_total path (Some nir_path) w ds Htotal Hds)
      as ([[data t] c] & w1 & Hload & Hfiles1).
    { intros rp [= <-]. exact Hnirfile. }
    destruct (IH (<[band := data]> acc) w1) as (arrays & w' & Hrun & Hfiles & Hkeys).
    { by rewrite Hfiles1. }
    { intros b Hb. rewrite Hfiles1. apply Hbands. by right. }
    exists arrays, w'. split; [|split; [congruence|]].
    + cbn [foldM]. rewrite run_bind, run_bind. unfold getitem at 1. rewrite Hpath. cbn.
      rewrite run_bind. unfold getitem at 1. rewrite Hnir. cbn.
      rewrite run_bind, Hload. cbn. exact Hrun.
    + intros b [Hb|Hb].
      * apply elem_of_cons in Hb as [->|Hb]; apply Hkeys; [right|by left].
        by rewrite lookup_insert_eq.
      * apply Hkeys. right. destruct (decide (b = band)) as [->|Hne].
        -- by rewrite lookup_insert_eq.
        -- by rewrite lookup_insert_ne.
Qed.

Lemma load_bands_total (band_paths : gmap string Path) (required : gset string) (w : world) :
  (∀ d t c t' c' r s, ∃ sample, reproject d t c t' c' r s = inr sample) →
  (∀ band, band ∈ required ∪ {["nir"]} →
     ∃ path ds, band_paths !! band = Some path ∧ files w !! path = Some (Raster ds)) →
  ∃ arrays w',
    load_bands reproject band_paths required w = (inr arrays, w') ∧
    files w' = files w ∧
    ∀ band, band ∈ required → is_Some (arrays !! band).
Proof.
  intros Htotal Hbands.
  destruct (Hbands "nir") as (nir_path & nir & Hnir & Hfile); [set_solver|].
  destruct (load_raster_total nir_path None w nir Htotal Hfile)
    as ([[nir_data t] c] & w1 & Hload & Hfiles1); [done|].
  destruct (band_loop_total band_paths nir_path (elements (required ∖ {["nir"]}))
              Htotal Hnir {["nir" := nir_data]} w1)
    as (arrays & w' & Hrun & Hfiles & Hkeys).
  { rewrite Hfiles1. eauto. }
  { intros band Hband. rewrite Hfiles1. apply Hbands.
    apply elem_of_elements in Hband. set_solver. }
  exists arrays, w'. split; [|split; [congruence|]].
  - unfold load_bands. rewrite run_bind. unfold getitem at 1. rewrite Hnir. cbn.
    rewrite run_bind, Hload. cbn. exact Hrun.
  - intros band Hband. apply Hkeys. destruct (decide (band = "nir")) as [->|Hne].
    + right. by rewrite lookup_singleton_eq.
    + left. apply elem_of_elements. set_solver.
Qed.

Lemma lookup_spec_keys specs name spec :
  lookup_spec specs name = Some spec → name ∈ keys specs.
Proof.
  unfold keys. induction specs as [|[k v] rest IH]; cbn; [done|].
  case_bool_decide as Hk; [intros _; subst; left | intros ?; right; auto].
Qed.

Lemma required_bands_elem specs requested name spec band :
  name ∈ requested → lookup_spec specs name = Some spec → band ∈ bands spec →
  band ∈ required_bands specs requested.
Proof.
  intros Hname Hspec Hband. unfold required_bands. apply elem_of_union_list.
  eexists. split.
  - apply list_elem_of_fmap. exists name. split; [reflexivity|done].
  - rewrite Hspec. cbn. by apply elem_of_list_to_set.
Qed.


(** With the registry of the module, a request that is not empty and
    names registered indices, a raster file for nir and for every
    required band, and a [reproject] that does not fail, [analyse_scene]
    raises nothing before it saves its outputs: the checks pass, every
    band is loaded and no file is changed by it, each requested formula
    returns an array on the loaded bands, and what is left of the run is
    the loop that saves these arrays. *)
Theorem analyse_scene_reaches_outputs self (band_paths : gmap string Path) output_dir
    indices (w : world) :
  specs self = INDEX_SPECS →
  (∀ d t c t' c' r s, ∃ sample, reproject d t c t' c' r s = inr sample) →
  requested_of self indices ≠ [] →
  (∀ name, name ∈ requested_of self indices → name ∈ keys (specs self)) →
  (∀ band, band ∈ required_bands (specs self) (requested_of self indices) ∪ {["nir"]} →
     ∃ path ds, band_paths !! band = Some path ∧ files w !! path = Some (Raster ds)) →
  ∃ band_arrays w1,
    load_bands reproject band_paths
      (required_bands (specs self) (requested_of self indices)) w = (inr band_arrays, w1) ∧
    files w1 = files w ∧
    (∀ name, name ∈ requested_of self indices →
       ∃ result, index_array (specs self) band_arrays name = inr result) ∧
    analyse_scene reproject self band_paths output_dir indices w
      = compute_outputs self band_paths output_dir (requested_of self indices)
          band_arrays w1.
Proof.
  intros Hspecs Htotal Hne Hknown Hbands. unfold analyse_scene.
  set (requested := requested_of self indices) in *.
  rewrite bool_decide_false by done.
  rewrite bool_decide_true.
  2:{ apply sorted_nil. apply set_eq. intros x.
      rewrite elem_of_difference, !elem_of_list_to_set.
      split; [intros [? ?]; exfalso; auto | by intros ?%not_elem_of_empty]. }
  cbn [negb]. rewrite run_bind. unfold required_of.
  rewrite required_of_known by done. rewrite (left_id_L ∅ (∪)).
  set (required := required_bands (specs self) requested) in *.
  rewrite bool_decide_true.
  2:{ apply set_eq. intros band. rewrite elem_of_difference, elem_of_dom.
      split; [|by intros ?%not_elem_of_empty].
      intros [Hreq Hmiss]. exfalso. apply Hmiss.
      destruct (Hbands band) as (path & _ & -> & _); [set_solver|done]. }
  cbn [negb]. rewrite run_bind.
  destruct (load_bands_total band_paths required w Htotal Hbands)
    as (band_arrays & w1 & Hload & Hfiles1 & Hkeys).
  exists band_arrays, w1. rewrite Hload.
  split; [done|]. split; [done|]. split; [|done].
  intros name Hname.
  destruct (lookup_spec_Some (specs self) name (Hknown name Hname)) as [spec Hspec].
  eapply index_array_total; [exact Hspec| |].
  - intros arrays. apply (registry_returns name). by rewrite <- Hspecs.
  - intros band Hband. apply Hkeys. by eapply required_bands_elem.
Qed.


(** What a run of [analyse_scene] that returns is made of. *)
Lemma analyse_scene_inr self (band_paths : gmap string Path) output_dir indices
    (w w' : world) outputs :
  analyse_scene reproject self band_paths output_dir indices w = (inr outputs, w') →
  ∃ band_arrays w1,
    load_bands reproject band_paths
      (required_bands (specs self) (requested_of self indices)) w = (inr band_arrays, w1) ∧
    compute_outputs self band_paths output_dir (requested_of self indices) band_arrays w1
      = (inr outputs, w').
Proof.
  unfold analyse_scene. set (requested := requested_of self indices).
  case_bool_decide as Hne; [discriminate|].
  case_bool_decide as Hunknown; cbn [negb]; [|discriminate].
  assert (Hknown : ∀ name, name ∈ requested → name ∈ keys (specs self)).
  { intros name Hname. destruct (decide (name ∈ keys (specs self))) as [|Hk]; [done|].
    assert (name ∈ unknown_of self requested) as Hin by by apply unknown_of_elem.
    rewrite Hunknown in Hin. by apply elem_of_nil in Hin. }
  rewrite run_bind. unfold required_of. rewrite required_of_known by done.
  rewrite (left_id_L ∅ (∪)).
  case_bool_decide; cbn [negb]; [|discriminate].
  rewrite run_bind.
  destruct (load_bands reproject band_paths _ w) as [[e|band_arrays] w1] eqn:Hload;
    [discriminate|].
  intros Hrun. eauto.
Qed.

(** The outputs of a run that returns, and the rasters behind them. *)
Lemma analyse_scene_output_paths self (band_paths : gmap string Path) output_dir indices
    (w w' : world) outputs :
  analyse_scene reproject self band_paths output_dir indices w = (inr outputs, w') →
  dom outputs = list_to_set (requested_of self indices) ∧
  ∀ name, name ∈ requested_of self indices →
    outputs !! name = Some (output_path output_dir name) ∧
    ∃ ds, files w' !! output_path output_dir name = Some (Raster ds).
Proof.
  intros (band_arrays & w1 & Hload & Hrun)%analyse_scene_inr.
  destruct (load_bands_nir _ _ _ _ _ Hload) as (nir_path & nir & Hnir & Hfile).
  destruct (load_bands_reads band_paths _ _ _ _ Hload) as (Hfiles1 & _).
  eapply (output_loop_returns self band_paths output_dir band_arrays nir_path nir
            _ Hnir) in Hrun as (Hout & Hfilesout & _).
  2:{ rewrite Hfiles1. eauto using same_grid_refl. }
  split.
  - apply set_eq. intros name. rewrite elem_of_dom, Hout, elem_of_list_to_set.
    case_bool_decide; [by split; eauto|].
    rewrite lookup_empty. split; [by intros [? ?]|done].
  - intros name Hname. split; [by rewrite Hout, bool_decide_true|].
    destruct (Hfilesout name Hname) as (result & _ & ?). eauto.
Qed.

Lemma tabulate_item {X} (h w : nat) (a : list (list X)) (d : X) :
  rect h w a → tabulate h w (λ r c, default d (item a r c)) = a.
Proof.
  intros [Hh Hw]. unfold tabulate. apply list_eq. intros r.
  rewrite list_lookup_fmap. destruct (a !! r) as [row|] eqn:Hrow.
  - rewrite lookup_seq_lt by (rewrite <- Hh; by eapply lookup_lt_Some).
    cbn. f_equal. apply list_eq. intros c. rewrite list_lookup_fmap.
    assert (length row = w) as Hlen.
    { rewrite Forall_forall in Hw. apply Hw. by eapply list_elem_of_lookup_2. }
    destruct (row !! c) as [x|] eqn:Hx.
    + rewrite lookup_seq_lt by (rewrite <- Hlen; by eapply lookup_lt_Some).
      cbn. unfold item. rewrite Hrow. cbn. by rewrite Hx.
    + rewrite lookup_seq_ge; [done|]. rewrite <- Hlen. by apply lookup_ge_None.
  - rewrite lookup_seq_ge; [done|]. rewrite <- Hh. by apply lookup_ge_None.
Qed.

(** A float32 array saved with [save_raster] and read back with
    [load_raster] is the same array, on the grid of the template. *)
Theorem save_raster_round_trip array template destination (w : world) meta :
  files w !! template = Some (Raster meta) →
  rect (height meta) (width meta) array →
  map1 (astype prec32 emax32) array = array →
  ∃ w1 w2,
    save_raster array template destination w = (inr destination, w1) ∧
    load_raster reproject destination None w1
      = (inr (array, transform meta, crs meta), w2) ∧
    files w2 = <[destination := Raster (saved_as meta array)]> (files w).
Proof.
  intros Htemplate Hrect Hf32. rewrite save_raster_run, Htemplate.
  eexists _, _. split; [reflexivity|].
  unfold load_raster. rewrite run_bind, open_run. cbn [files trace].
  rewrite lookup_insert_eq. cbv beta iota.
  assert (map1 (astype prec32 emax32) (read1 (saved_as meta array)) = array) as ->.
  { unfold read1. cbn [height width band1 saved_as].
    rewrite Hf32. rewrite tabulate_item by done. exact Hf32. }
  split; reflexivity.
Qed.

End outputs.


Lemma analyse_scene_reaches_outputs_witness :
  ∃ band_arrays w1,
    index_calculator.load_bands examples.first_sample examples.band_paths
      (required_bands (index_calculator.specs examples.calculator)
         (index_calculator.requested_of examples.calculator (Some ["ndvi"])))
      examples.disk = (inr band_arrays, w1) ∧
    rasterio.files w1 = rasterio.files examples.disk ∧
    (∀ name, name ∈ index_calculator.requested_of examples.calculator (Some ["ndvi"]) →
       ∃ result,
         index_array (index_calculator.specs examples.calculator) band_arrays name
           = inr result) ∧
    index_calculator.analyse_scene examples.first_sample examples.calculator
      examples.band_paths ["out"] (Some ["ndvi"]) examples.disk
      = index_calculator.compute_outputs examples.calculator examples.band_paths ["out"]
          (index_calculator.requested_of examples.calculator (Some ["ndvi"]))
          band_arrays w1.
Proof.
  apply (analyse_scene_reaches_outputs examples.first_sample examples.calculator
           examples.band_paths ["out"] (Some ["ndvi"]) examples.disk).
  - reflexivity.
  - intros. unfold examples.first_sample. eauto.
  - discriminate.
  - intros name Hname. apply list_elem_of_singleton in Hname as ->.
    apply (bool_decide_unpack _). vm_compute. exact I.
  - intros band Hband.
    assert (band = "nir" ∨ band = "red") as [-> | ->].
    { unfold required_bands in Hband. cbn in Hband. set_solver. }
    + eexists _, _. split; reflexivity.
    + eexists _, _. split; reflexivity.
Defined.


Lemma save_raster_round_trip_witness :
  ∃ w1 w2,
    index_calculator.save_raster examples.nir_half examples.nir_tif ["out"; "half.tif"]
      examples.disk = (inr ["out"; "half.tif"], w1) ∧
    index_calculator.load_raster examples.first_sample ["out"; "half.tif"] None w1
      = (inr (examples.nir_half, examples.fine_grid, "EPSG:32722"), w2) ∧
    rasterio.files w2
      = <[["out"; "half.tif"] := rasterio.Raster (saved_as examples.nir_file examples.nir_half)]>
          (rasterio.files examples.disk).
Proof.
  apply (save_raster_round_trip examples.first_sample examples.nir_half examples.nir_tif
           ["out"; "half.tif"] examples.disk examples.nir_file).
  - reflexivity.
  - split; [reflexivity|]. repeat constructor.
  - reflexivity.
Defined.

(** ** The pipeline: [Pipeline.run], the steps and [WorkflowPipeline] *)

Section pipeline_run.
Import index_calculator pipeline.

Lemma run_steps_inl (l : list PipelineStep) (s s' : state) e :
  run_steps l s = (inl e, s') →
  ∃ pre step post s1,
    l = pre ++ step :: post ∧
    run_steps pre s = (inr tt, s1) ∧
    run step s1 = (inl e, s').
Proof.
  revert s. induction l as [|step rest IH]; intros s; [discriminate|].
  cbn [run_steps]. rewrite run_bind.
  destruct (run step s) as [[e1|[]] s1] eqn:Hstep.
  - intros [= <- <-]. by exists [], step, rest, s.
  - intros (pre & step' & post & s2 & -> & Hpre & Hfail)%IH.
    exists (step :: pre), step', post, s2. split; [done|]. split; [|done].
    cbn [run_steps]. by rewrite run_bind, Hstep.
Qed.

(** [Pipeline.run] raises exactly when one of its steps does after all
    the steps before it have returned: the exception is that step's, the
    state is the one that step left, and no later step is run. *)
Theorem pipeline_stops_at_first_failure (p : Pipeline) (s s' : state) e :
  Pipeline_run p s = (inl e, s') ↔
  ∃ pre step post s1,
    steps p = pre ++ step :: post ∧
    run_steps pre s = (inr tt, s1) ∧
    run step s1 = (inl e, s').
Proof.
  unfold Pipeline_run. split; [apply run_steps_inl|].
  intros (pre & step & post & s1 & -> & Hpre & Hfail).
  rewrite run_steps_app, Hpre. cbn [run_steps]. by rewrite run_bind, Hfail.
Qed.

End pipeline_run.

Section workflow_facts.
Import index_calculator pipeline workflow.
Context (reproject :
  ndarray → Affine.t → CRS → Affine.t → CRS → Resampling → nat * nat →
  exn + (nat → nat → float)).
Context {Session : Type}.
Context (open_session : M rasterio.world Session).
Context (query_latest :
  Session → entities.AreaOfInterest → string → string → Z * Z →
  M rasterio.world (option Product)).
Context (download : Session → Product → Path → M rasterio.world Path).
Context (extract : Path → Path → M rasterio.world (gmap string Path)).
Context (render :
  MultiIndexMapRenderer → list Path → Path → list Path → M rasterio.world Path).
Context (resolve : Path → Path).
Context (exists_ : Path → bool).
Context (str_path : Path → string).
Context (from_geojson : Path → M rasterio.world entities.AreaOfInterest).

(** The items of a dict, sorted: the keys in order, each with its value. *)
Lemma sorted_items_keys {V} (d : gmap string V) :
  fst <$> sorted_items d = sorted (dom d).
Proof.
  unfold sorted_items, sorted.
  apply (Sorted_unique String.le).
  - apply (Sorted_fmap fst (λ a b : string * V, String.le a.1 b.1) String.le); [done|].
    assert (Total (λ a b : string * V, String.le a.1 b.1)) as Htotal.
    { intros a b. apply (total String.le). }
    apply (Sorted_merge_sort _).
  - apply (Sorted_merge_sort _).
  - rewrite !merge_sort_Permutation. apply NoDup_Permutation.
    + apply NoDup_fst_map_to_list.
    + apply NoDup_elements.
    + intros k. rewrite elem_of_elements, elem_of_dom, list_elem_of_fmap. split.
      * intros ([k' v] & -> & Hin). apply elem_of_map_to_list in Hin. by exists v.
      * intros [v Hv]. exists (k, v). split; [done|]. by apply elem_of_map_to_list.
Qed.

Lemma sorted_items_values (d : gmap string Path) :
  snd <$> sorted_items d = (λ name, d !!! name) <$> sorted (dom d).
Proof.
  rewrite <- sorted_items_keys, <- list_fmap_compose.
  apply list_fmap_ext. intros i [k v] Hin. cbn.
  apply list_elem_of_lookup_2 in Hin. unfold sorted_items in Hin.
  rewrite merge_sort_Permutation in Hin. apply elem_of_map_to_list in Hin.
  by rewrite lookup_total_alt, Hin.
Qed.


Lemma with_world_run {X} (m : M rasterio.world X) (context : WorkflowContext.t)
    (w : rasterio.world) :
  with_world m (context, w) = ((m w).1, (context, (m w).2)).
Proof. unfold with_world. cbn. by destruct (m w). Qed.

Lemma compute_step_run calculator (context : WorkflowContext.t) (w : rasterio.world) title :
  WorkflowContext.bands context ≠ ∅ →
  WorkflowContext.product_title context = Some title →
  run (ComputeIndicesStep reproject calculator) (context, w) =
    match analyse_scene reproject calculator (WorkflowContext.bands context)
            (path_join (path_join (AppConfig.DATA_PROCESSED_DIR
                                     (WorkflowContext.config context)) title) "indices")
            (WorkflowParameters.indices (WorkflowContext.params context)) w with
    | (inr outputs, w') => (inr tt, (WorkflowContext.set_indices outputs context, w'))
    | (inl e, w') => (inl e, (context, w'))
    end.
Proof.
  intros Hbands Htitle. cbn [run ComputeIndicesStep]. unfold ComputeIndicesStep_run.
  rewrite run_bind. cbn [get_context fst]. rewrite bool_decide_false by done.
  rewrite Htitle, run_bind, with_world_run.
  by destruct (analyse_scene _ _ _ _ _ w) as [[e|outputs] w'].
Qed.

(** On a context with bands and a product title, the compute-indices
    step either raises what [analyse_scene] raises and leaves the context
    as it was, or returns and changes only the indices of the context:
    they are then the requested indices, each at
    [<processed>/<title>/indices/<name>.tif], where a raster has been
    written. *)
Theorem compute_indices_step_outcome calculator (context context' : WorkflowContext.t)
    (w w' : rasterio.world) title r :
  WorkflowContext.bands context ≠ ∅ →
  WorkflowContext.product_title context = Some title →
  run (ComputeIndicesStep reproject calculator) (context, w) = (r, (context', w')) →
  let indices_dir :=
    path_join (path_join (AppConfig.DATA_PROCESSED_DIR (WorkflowContext.config context))
                         title) "indices" in
  let requested :=
    requested_of calculator (WorkflowParameters.indices (WorkflowContext.params context)) in
  match r with
  | inl e =>
      context' = context ∧
      analyse_scene reproject calculator (WorkflowContext.bands context) indices_dir
        (WorkflowParameters.indices (WorkflowContext.params context)) w = (inl e, w')
  | inr _ =>
      context' = WorkflowContext.set_indices (WorkflowContext.indices context') context ∧
      dom (WorkflowContext.indices context') = list_to_set requested ∧
      ∀ name, name ∈ requested →
        WorkflowContext.indices context' !! name = Some (output_path indices_dir name) ∧
        ∃ ds, rasterio.files w' !! output_path indices_dir name = Some (rasterio.Raster ds)
  end.
Proof.
  intros Hbands Htitle. rewrite (compute_step_run _ _ _ title) by done.
  destruct (analyse_scene _ _ _ _ _ w) as [[e|outputs] w1] eqn:Hrun.
  - intros [= <- <- <-]. done.
  - intros [= <- <- <-]. cbv zeta.
    apply analyse_scene_output_paths in Hrun as [Hdom Hout]. done.
Qed.

Lemma render_step_run renderer (context : WorkflowContext.t) (w : rasterio.world) :
  WorkflowContext.indices context ≠ ∅ →
  let output_path :=
    path_join (AppConfig.MAPAS_DIR (WorkflowContext.config context))
              "compare_indices_all.html" in
  run (RenderMultiIndexStep render renderer) (context, w) =
    match render renderer
            ((λ name, WorkflowContext.indices context !!! name)
               <$> sorted (dom (WorkflowContext.indices context)))
            output_path
            [WorkflowParameters.aoi_path (WorkflowContext.params context)]
            {| rasterio.files := rasterio.files w;
               rasterio.trace :=
                 rasterio.trace w ++
                 [rasterio.Mkdir (AppConfig.MAPAS_DIR (WorkflowContext.config context))] |}
    with
    | (inr _, w') => (inr tt, (WorkflowContext.register_map output_path context, w'))
    | (inl e, w') => (inl e, (context, w'))
    end.
Proof.
  intros Hindices output_path. cbn [run RenderMultiIndexStep].
  unfold RenderMultiIndexStep_run.
  rewrite run_bind. cbn [get_context fst]. rewrite bool_decide_false by done.
  rewrite run_bind, with_world_run. cbn [rasterio.mkdir_parents rasterio.log fst snd].
  rewrite run_bind, with_world_run, sorted_items_values.
  by destruct (render _ _ _ _ _) as [[e|saved] w'].
Qed.


(** The render step hands the renderer the index rasters in the
    alphabetical order of the index names, whatever the order in which
    they were computed, with the file of the area of interest as the only
    overlay.  When the renderer returns, [<mapas>/compare_indices_all.html]
    is appended to the maps of the context and nothing else changes; when
    it raises, the context is as it was; and on a context without
    indices the step raises at once, before the directory is made. *)
Theorem render_step_outcome renderer (context : WorkflowContext.t) (w : rasterio.world) :
  let output_path :=
    path_join (AppConfig.MAPAS_DIR (WorkflowContext.config context))
              "compare_indices_all.html" in
  let index_paths :=
    (λ name, WorkflowContext.indices context !!! name)
      <$> sorted (dom (WorkflowContext.indices context)) in
  run (RenderMultiIndexStep render renderer) (context, w) =
    if bool_decide (WorkflowContext.indices context = ∅) then
      (inl (RuntimeError "Nenhum índice disponível para renderização."), (context, w))
    else
      match render renderer index_paths output_path
              [WorkflowParameters.aoi_path (WorkflowContext.params context)]
              {| rasterio.files := rasterio.files w;
                 rasterio.trace :=
                   rasterio.trace w ++
                   [rasterio.Mkdir (AppConfig.MAPAS_DIR (WorkflowContext.config context))] |}
      with
      | (inr _, w') => (inr tt, (WorkflowContext.register_map output_path context, w'))
      | (inl e, w') => (inl e, (context, w'))
      end.
Proof.
  intros output_path index_paths. case_bool_decide as Hindices.
  - cbn [run RenderMultiIndexStep]. unfold RenderMultiIndexStep_run.
    rewrite run_bind. cbn [get_context fst]. by rewrite bool_decide_true.
  - by apply render_step_run.
Qed.

Lemma resolve_step_returns client (context context' : WorkflowContext.t)
    (w w' : rasterio.world) :
  run (ResolveProductStep open_session query_latest download resolve exists_ str_path client)
      (context, w) = (inr tt, (context', w')) →
  ∃ path, context' = set_product path (catalog_copernicus.infer_product_name path) context.
Proof.
  cbn [run ResolveProductStep]. unfold ResolveProductStep_run.
  rewrite run_bind. cbn [get_context fst].
  destruct (WorkflowParameters.safe_path _) as [safe_path|].
  { destruct (exists_ _); [|discriminate]. cbn. intros [= <- <-]. eauto. }
  destruct client; [|discriminate]. cbn [negb].
  rewrite run_bind, with_world_run. cbn [rasterio.mkdir_parents rasterio.log fst snd].
  rewrite run_bind, with_world_run.
  destruct (open_session _) as [[e|session] w1]; [discriminate|]. cbn [fst snd].
  rewrite run_bind, with_world_run.
  destruct (query_latest _ _ _ _ _ w1) as [[e|[product|]] w2]; [discriminate| |discriminate].
  cbn [fst snd]. case_bool_decide; [discriminate|].
  rewrite run_bind, with_world_run.
  destruct (download _ _ _ w2) as [[e|product_path] w3]; [discriminate|].
  cbn. intros [= <- <-]. eauto.
Qed.

Lemma extract_step_returns (context context' : WorkflowContext.t) (w w' : rasterio.world) :
  run (ExtractBandsStep extract) (context, w) = (inr tt, (context', w')) →
  ∃ path title bands,
    WorkflowContext.product_path context = Some path ∧
    WorkflowContext.product_title context = Some title ∧
    extract path (path_join (AppConfig.DATA_PROCESSED_DIR (WorkflowContext.config context))
                            title) w = (inr bands, w') ∧
    context' = set_bands bands context.
Proof.
  cbn [run ExtractBandsStep]. unfold ExtractBandsStep_run.
  rewrite run_bind. cbn [get_context fst].
  destruct (WorkflowContext.product_path context) as [path|]; [|discriminate].
  destruct (WorkflowContext.product_title context) as [title|]; [|discriminate].
  rewrite run_bind, with_world_run.
  destruct (extract _ _ w) as [[e|bands] w1] eqn:Hextract; [discriminate|].
  cbn. intros [= <- <-]. exists path, title, bands. by rewrite Hextract.
Qed.

Lemma compute_step_returns calculator (context context' : WorkflowContext.t)
    (w w' : rasterio.world) :
  run (ComputeIndicesStep reproject calculator) (context, w) = (inr tt, (context', w')) →
  ∃ title outputs,
    WorkflowContext.bands context ≠ ∅ ∧
    WorkflowContext.product_title context = Some title ∧
    analyse_scene reproject calculator (WorkflowContext.bands context)
      (path_join (path_join (AppConfig.DATA_PROCESSED_DIR (WorkflowContext.config context))
                            title) "indices")
      (WorkflowParameters.indices (WorkflowContext.params context)) w = (inr outputs, w') ∧
    context' = WorkflowContext.set_indices outputs context.
Proof.
  destruct (decide (WorkflowContext.bands context = ∅)) as [Hbands|Hbands].
  { cbn [run ComputeIndicesStep]. unfold ComputeIndicesStep_run.
    rewrite run_bind. cbn [get_context fst]. by rewrite bool_decide_true. }
  destruct (WorkflowContext.product_title context) as [title|] eqn:Htitle.
  2:{ cbn [run ComputeIndicesStep]. unfold ComputeIndicesStep_run.
      rewrite run_bind. cbn [get_context fst]. rewrite bool_decide_false by done.
      by rewrite Htitle. }
  rewrite (compute_step_run _ _ _ title) by done.
  destruct (analyse_scene _ _ _ _ _ w) as [[e|outputs] w1] eqn:Hrun; [discriminate|].
  intros [= <- <-]. exists title, outputs. done.
Qed.

Lemma render_step_returns renderer (context context' : WorkflowContext.t)
    (w w' : rasterio.world) :
  run (RenderMultiIndexStep render renderer) (context, w) = (inr tt, (context', w')) →
  context' = WorkflowContext.register_map
               (path_join (AppConfig.MAPAS_DIR (WorkflowContext.config context))
                          "compare_indices_all.html") context.
Proof.
  destruct (decide (WorkflowContext.indices context = ∅)) as [Hindices|Hindices].
  { cbn [run RenderMultiIndexStep]. unfold RenderMultiIndexStep_run.
    rewrite run_bind. cbn [get_context fst]. by rewrite bool_decide_true. }
  rewrite render_step_run by done. cbv zeta.
  destruct (render _ _ _ _ _) as [[e|saved] w1]; [discriminate|]. by intros [= <- <-].
Qed.


Local Abbreviation pipeline_run :=
  (WorkflowPipeline_run reproject open_session query_latest download extract render
     resolve exists_ str_path from_geojson).

(** When the standard pipeline returns, the context it hands back has
    the configuration and the parameters it was started with, a product
    path and the title inferred from it, a non-empty band set, one index
    raster [<processed>/<title>/indices/<name>.tif] for each requested
    index and no other, and exactly one map,
    [<mapas>/compare_indices_all.html]; and the facade returns these
    fields: its own check of a missing title never fires. *)
Theorem workflow_run_result (self : WorkflowPipeline) (params : WorkflowParameters.t)
    (w w' : rasterio.world) (context : WorkflowContext.t) :
  pipeline_run self params w = (inr context, w') →
  ∃ path title,
    WorkflowContext.config context = config self ∧
    WorkflowContext.params context = params ∧
    WorkflowContext.product_path context = Some path ∧
    title = catalog_copernicus.infer_product_name path ∧
    WorkflowContext.product_title context = Some title ∧
    WorkflowContext.bands context ≠ ∅ ∧
    dom (WorkflowContext.indices context)
      = list_to_set (requested_of (calculator self) (WorkflowParameters.indices params)) ∧
    (∀ name, name ∈ requested_of (calculator self) (WorkflowParameters.indices params) →
       WorkflowContext.indices context !! name
       = Some (output_path
                 (path_join (path_join (AppConfig.DATA_PROCESSED_DIR (config self)) title)
                            "indices") name)) ∧
    WorkflowContext.maps context
      = [path_join (AppConfig.MAPAS_DIR (config self)) "compare_indices_all.html"] ∧
    run_date_range reproject open_session query_latest download extract render
      resolve exists_ str_path from_geojson self params w
      = (inr {| product_title := title;
                bands := WorkflowContext.bands context;
                indices := WorkflowContext.indices context;
                maps := WorkflowContext.maps context |}, w').
Proof.
  intros Hrun. pose proof Hrun as Hall.
  unfold WorkflowPipeline_run in Hrun. rewrite run_bind in Hrun.
  destruct (from_geojson _ w) as [[e|aoi] w0]; [discriminate|].
  rewrite run_bind in Hrun. unfold lift_exn, _build_steps in Hrun.
  cbn [WorkflowContext.params] in Hrun.
  destruct (_build_client_if_needed self params) as [e|client]; [discriminate|].
  cbn [ebind] in Hrun. unfold run_on, Pipeline_run in Hrun. cbn [steps run_steps] in Hrun.
  set (context0 := {| WorkflowContext.config := config self;
                      WorkflowContext.params := params;
                      WorkflowContext.product_path := None;
                      WorkflowContext.product_title := None;
                      WorkflowContext.bands := ∅;
                      WorkflowContext.indices := ∅;
                      WorkflowContext.maps := [];
                      WorkflowContext.aoi := aoi |}) in *.
  rewrite run_bind in Hrun.
  destruct (run (ResolveProductStep _ _ _ _ _ _ client) (context0, w0))
    as [[e|[]] [context1 w1]] eqn:H1; [discriminate|].
  apply resolve_step_returns in H1 as [path ->].
  rewrite run_bind in Hrun.
  destruct (run (ExtractBandsStep extract) _) as [[e|[]] [context2 w2]] eqn:H2;
    [discriminate|].
  apply extract_step_returns in H2 as (path' & title & bands & Hpath & Htitle & _ & ->).
  cbn in Hpath, Htitle. injection Hpath as <-. injection Htitle as <-.
  rewrite run_bind in Hrun.
  destruct (run (ComputeIndicesStep reproject (calculator self)) _)
    as [[e|[]] [context3 w3]] eqn:H3; [discriminate|].
  apply compute_step_returns in H3 as (title & outputs & Hbands & Htitle & Hscene & ->).
  cbn in Hbands, Htitle, Hscene. injection Htitle as <-.
  rewrite run_bind in Hrun.
  destruct (run (RenderMultiIndexStep render _) _) as [[e|[]] [context4 w4]] eqn:H4;
    [discriminate|].
  apply render_step_returns in H4 as ->. cbn in Hrun. injection Hrun as <- <-.
  apply analyse_scene_output_paths in Hscene as [Hdom Hout].
  eexists path, _. cbn.
  split; [done|]. split; [done|]. split; [done|]. split; [done|]. split; [done|].
  split; [done|]. split; [done|]. split; [by intros name [? _]%Hout|]. split; [done|].
  unfold run_date_range. rewrite run_bind, Hall. reflexivity.
Qed.

(** With a local SAFE path in the parameters, the run of the pipeline
    does not depend on the Copernicus client nor on the credentials:
    none of them is used. *)
Theorem local_safe_needs_no_client {Session' : Type}
    (open_session' : M rasterio.world Session')
    (query_latest' :
       Session' → entities.AreaOfInterest → string → string → Z * Z →
       M rasterio.world (option Product))
    (download' : Session' → Product → Path → M rasterio.world Path)
    (self self' : WorkflowPipeline) (params : WorkflowParameters.t) (w : rasterio.world) :
  is_Some (WorkflowParameters.safe_path params) →
  config self' = config self →
  calculator self' = calculator self →
  WorkflowPipeline_run reproject open_session' query_latest' download' extract render
    resolve exists_ str_path from_geojson self' params w
  = pipeline_run self params w.
Proof.
  intros [safe_path Hsafe] Hconfig Hcalculator.
  unfold WorkflowPipeline_run. rewrite !run_bind.
  destruct (from_geojson _ w) as [[e|aoi] w0]; [done|].
  rewrite !run_bind. unfold lift_exn, _build_steps, _build_client_if_needed.
  cbn [WorkflowContext.params]. rewrite Hsafe, Hconfig, Hcalculator. cbn [ebind].
  unfold run_on, Pipeline_run. cbn [steps run_steps]. rewrite !run_bind.
  cbn [run ResolveProductStep]. unfold ResolveProductStep_run.
  rewrite !run_bind. cbn [get_context fst WorkflowContext.params]. rewrite Hsafe.
  reflexivity.
Qed.

End workflow_facts.


Lemma compute_indices_step_outcome_witness :
  let context := examples.ready_context in
  let indices_dir := ["data"; "processed"; "S2A_T22KGA"; "indices"] in
  let requested := ["ndvi"] in
  examples.computed.1 = inr tt ∧
  examples.computed.2.1
    = pipeline.WorkflowContext.set_indices
        (pipeline.WorkflowContext.indices examples.computed.2.1) context ∧
  dom (pipeline.WorkflowContext.indices examples.computed.2.1) = list_to_set requested ∧
  ∀ name, name ∈ requested →
    pipeline.WorkflowContext.indices examples.computed.2.1 !! name
      = Some (output_path indices_dir name) ∧
    ∃ ds, rasterio.files examples.computed.2.2 !! output_path indices_dir name
          = Some (rasterio.Raster ds).
Proof.
  split; [reflexivity|].
  apply (compute_indices_step_outcome examples.first_sample examples.calculator
           examples.ready_context examples.computed.2.1
           examples.disk examples.computed.2.2 "S2A_T22KGA" (inr tt)).
  - apply (bool_decide_unpack _). vm_compute. exact I.
  - reflexivity.
  - vm_compute. reflexivity.
Defined.

Lemma workflow_run_result_witness :
  ∃ path title,
    pipeline.WorkflowContext.config examples.ran_context
      = workflow.config examples.service ∧
    pipeline.WorkflowContext.params examples.ran_context = examples.ndvi_params ∧
    pipeline.WorkflowContext.product_path examples.ran_context = Some path ∧
    title = catalog_copernicus.infer_product_name path ∧
    pipeline.WorkflowContext.product_title examples.ran_context = Some title ∧
    pipeline.WorkflowContext.bands examples.ran_context ≠ ∅ ∧
    dom (pipeline.WorkflowContext.indices examples.ran_context)
      = list_to_set (index_calculator.requested_of (workflow.calculator examples.service)
                       (pipeline.WorkflowParameters.indices examples.ndvi_params)) ∧
    (∀ name,
       name ∈ index_calculator.requested_of (workflow.calculator examples.service)
                (pipeline.WorkflowParameters.indices examples.ndvi_params) →
       pipeline.WorkflowContext.indices examples.ran_context !! name
       = Some (output_path
                 (path_join
                    (path_join (pipeline.AppConfig.DATA_PROCESSED_DIR
                                  (workflow.config examples.service)) title)
                    "indices") name)) ∧
    pipeline.WorkflowContext.maps examples.ran_context
      = [path_join (pipeline.AppConfig.MAPAS_DIR (workflow.config examples.service))
                   "compare_indices_all.html"] ∧
    workflow.run_date_range examples.first_sample (mret tt) examples.no_product
      examples.download_to examples.two_bands examples.render_nothing id (λ _, true)
      (String.concat "/") examples.aoi_of examples.service examples.ndvi_params
      examples.disk
      = (inr {| workflow.product_title := title;
                workflow.bands := pipeline.WorkflowContext.bands examples.ran_context;
                workflow.indices := pipeline.WorkflowContext.indices examples.ran_context;
                workflow.maps := pipeline.WorkflowContext.maps examples.ran_context |},
         examples.workflow_ran.2).
Proof.
  apply (workflow_run_result examples.first_sample (mret tt) examples.no_product
           examples.download_to examples.two_bands examples.render_nothing id (λ _, true)
           (String.concat "/") examples.aoi_of examples.service examples.ndvi_params
           examples.disk examples.workflow_ran.2 examples.ran_context).
  vm_compute. reflexivity.
Defined.

Lemma local_safe_needs_no_client_witness :
  workflow.WorkflowPipeline_run examples.first_sample (mret tt) examples.some_product
    examples.download_to examples.two_bands examples.render_nothing id (λ _, true)
    (String.concat "/") examples.aoi_of examples.service_with_credentials
    examples.ndvi_params examples.disk
  = examples.workflow_ran.
Proof.
  apply (local_safe_needs_no_client examples.first_sample (mret tt) examples.no_product
           examples.download_to examples.two_bands examples.render_nothing id (λ _, true)
           (String.concat "/") examples.aoi_of (mret tt) examples.some_product
           examples.download_to examples.service examples.service_with_credentials
           examples.ndvi_params examples.disk).
  - by eexists.
  - reflexivity.
  - reflexivity.
Defined.

(** ** [to_wkt]: features and feature collections *)

Section wkt_wrappers.
Import index_calculator entities.
Context (str_number : number → string).

(** [to_wkt] looks through one wrapper: a Feature gives the text of its
    geometry, and a FeatureCollection the text of the geometry of its
    first feature, whatever the other features are; a collection without
    features is refused. *)
Theorem to_wkt_unwraps_first_feature (g feature : GeoJSON) coordinates features geom
    (others : list GeoJSON) :
  get_type g ≠ Some "FeatureCollection" →
  get_type g ≠ Some "Feature" →
  get_geometry feature = Some g →
  to_wkt str_number {| geometry := Dict (Some "Feature") coordinates features (Some g) |}
    = to_wkt str_number {| geometry := g |} ∧
  to_wkt str_number
    {| geometry := Dict (Some "FeatureCollection") coordinates (Some (feature :: others)) geom |}
    = to_wkt str_number {| geometry := g |} ∧
  to_wkt str_number {| geometry := Dict (Some "FeatureCollection") coordinates (Some []) geom |}
    = inl (ValueError "GeoJSON feature collection is empty.") ∧
  to_wkt str_number {| geometry := Dict (Some "FeatureCollection") coordinates None geom |}
    = inl (ValueError "GeoJSON feature collection is empty.").
Proof.
  intros Hfc Hf Hg.
  assert (Hplain : _extract_geometry g = inr g).
  { unfold _extract_geometry. by rewrite !bool_decide_false. }
  unfold to_wkt. cbn [geometry]. rewrite Hplain.
  split; [|split; [|split]].
  - reflexivity.
  - unfold _extract_geometry at 1. cbn. by rewrite Hg.
  - reflexivity.
  - reflexivity.
Qed.

End wkt_wrappers.

Lemma to_wkt_unwraps_first_feature_witness :
  entities.to_wkt examples.digit_str
    {| entities.geometry := examples.triangle_feature |}
    = entities.to_wkt examples.digit_str examples.triangle ∧
  entities.to_wkt examples.digit_str
    {| entities.geometry :=
         entities.Dict (Some "FeatureCollection") None
           (Some [examples.triangle_feature; examples.triangle_feature]) None |}
    = entities.to_wkt examples.digit_str examples.triangle ∧
  entities.to_wkt examples.digit_str
    {| entities.geometry := entities.Dict (Some "FeatureCollection") None (Some []) None |}
    = inl (ValueError "GeoJSON feature collection is empty.") ∧
  entities.to_wkt examples.digit_str
    {| entities.geometry := entities.Dict (Some "FeatureCollection") None None None |}
    = inl (ValueError "GeoJSON feature collection is empty.").
Proof.
  apply (to_wkt_unwraps_first_feature examples.digit_str
           (entities.geometry examples.triangle) examples.triangle_feature
           None None None [examples.triangle_feature]).
  - discriminate.
  - discriminate.
  - reflexivity.
Defined.

(** ** [_mask_with_geojson], pixel by pixel *)

Section mask_pixels.
Import renderers.
Context {GeoJSON Geom : Type}.
Context (iterate_geometries : GeoJSON → list Geom).
Context (rasterize :
  list (Geom * Z) → nat * nat → Affine.t → Z → bool → exn + (nat → nat → Z)).

Lemma item_Some_lt {X} (h w : nat) (a : list (list X)) r c x :
  rect h w a → item a r c = Some x → (r < h ∧ c < w)%nat.
Proof.
  intros [Hh Hw]. unfold item. destruct (a !! r) as [row|] eqn:Hrow; [|done]. cbn.
  intros Hx. split.
  - rewrite <- Hh. by eapply lookup_lt_Some.
  - rewrite Forall_forall in Hw. rewrite <- (Hw row) by by eapply list_elem_of_lookup_2.
    by eapply lookup_lt_Some.
Qed.

Lemma item_tabulate {X} (h w : nat) (f : nat → nat → X) r c :
  (r < h)%nat → (c < w)%nat → item (tabulate h w f) r c = Some (f r c).
Proof.
  intros Hr Hc. unfold item, tabulate. rewrite list_lookup_fmap, lookup_seq_lt by done.
  cbn. by rewrite list_lookup_fmap, lookup_seq_lt.
Qed.

Lemma rect_shape {X} (h w : nat) (a : list (list X)) r c x :
  rect h w a → item a r c = Some x → shape a = (h, w).
Proof.
  intros [Hh Hw] Hx. unfold shape. destruct a as [|row rest].
  - by destruct r.
  - f_equal; [done|]. by apply Forall_cons_1 in Hw as [? _].
Qed.

Lemma rect_map2 {X Y Z'} (f : X → Y → Z') h w a b :
  rect h w a → rect h w b → rect h w (map2 f a b).
Proof.
  intros [Ha Hwa] [Hb Hwb]. split.
  - unfold map2. rewrite length_zip_with. lia.
  - unfold map2. apply Forall_forall. intros row Hrow.
    apply list_elem_of_lookup in Hrow as [i Hi]. rewrite lookup_zip_with in Hi.
    destruct (a !! i) as [ra|] eqn:Hra; [|done]. cbn in Hi.
    destruct (b !! i) as [rb|] eqn:Hrb; [|done]. cbn in Hi. injection Hi as <-.
    rewrite Forall_forall in Hwa. rewrite Forall_forall in Hwb. rewrite length_zip_with.
    rewrite (Hwa ra), (Hwb rb) by by eapply list_elem_of_lookup_2. lia.
Qed.

(** The mask keeps the shape of the array; the sample of a pixel that
    [rasterize] burnt with 1 is kept, and every other sample becomes
    NaN.  Without any geometry the array is returned as it is. *)
Theorem mask_with_geojson_pixels (data masked : ndarray) (transform : Affine.t)
    (overlay_geojsons : list GeoJSON) (h w : nat) :
  rect h w data →
  _mask_with_geojson iterate_geometries rasterize data transform overlay_geojsons
    = inr masked →
  let shapes :=
    flat_map (λ geojson_data, (λ geom, (geom, 1%Z)) <$> iterate_geometries geojson_data)
             overlay_geojsons in
  rect h w masked ∧
  ((shapes = [] ∧ masked = data) ∨
   (∃ burnt,
      rasterize shapes (shape data) transform 0%Z false = inr burnt ∧
      ∀ r c v, item data r c = Some v →
               item masked r c = Some (if (burnt r c =? 1)%Z then v else nan))).
Proof.
  intros Hrect. unfold _mask_with_geojson. cbv zeta.
  destruct (flat_map _ overlay_geojsons) as [|s shapes] eqn:Hshapes.
  { intros [= <-]. split; [done|]. by left. }
  destruct (rasterize (s :: shapes) (shape data) transform 0%Z false)
    as [e|burnt] eqn:Hr; [discriminate|].
  intros [= <-]. split.
  - unfold where_scalar_r. apply rect_map2; [|done].
    apply rect_map1. destruct data as [|row rest].
    + destruct Hrect as [<- _]. cbn. split; [done|constructor].
    + pose proof Hrect as [<- Hw]. apply Forall_cons_1 in Hw as [<- _].
      apply rect_tabulate.
  - right. exists burnt. split; [done|]. intros r c v Hv.
    destruct (item_Some_lt h w data r c v Hrect Hv) as [Hr' Hc'].
    pose proof (rect_shape h w data r c v Hrect Hv) as Hs.
    unfold shape in Hs. injection Hs as Hs1 Hs2.
    unfold where_scalar_r. rewrite item_map2, item_map1, Hs1, Hs2.
    rewrite item_tabulate by done. cbn. by rewrite Hv.
Qed.

End mask_pixels.

Lemma mask_with_geojson_pixels_witness :
  rect 2 2 examples.masked_square ∧
  (([(7, 1%Z)] = [] ∧ examples.masked_square = examples.square) ∨
   (∃ burnt,
      examples.first_row_inside [(7, 1%Z)] (shape examples.square) examples.fine_grid
        0%Z false = inr burnt ∧
      ∀ r c v, item examples.square r c = Some v →
               item examples.masked_square r c
               = Some (if (burnt r c =? 1)%Z then v else nan))).
Proof.
  apply (mask_with_geojson_pixels (λ n : nat, [n]) examples.first_row_inside
           examples.square examples.masked_square examples.fine_grid [7] 2 2).
  - split; [reflexivity|]. repeat constructor.
  - reflexivity.
Defined.

(** ** The shape of the index rasters *)

Section index_shapes.
Import index_calculator rasterio.
Context (reproject :
  ndarray → Affine.t → CRS → Affine.t → CRS → Resampling → nat * nat →
  exn + (nat → nat → float)).

Lemma rect_compute_index prec emax h w num den :
  rect h w num → rect h w den → rect h w (_compute_index prec emax num den).
Proof.
  intros Hn Hd. unfold _compute_index, where_scalar_l, div.
  repeat first [apply rect_map2 | apply rect_map1 | assumption].
Qed.

(** Every formula of the registry returns an array of the shape of the
    bands it is given. *)
Lemma registry_keeps_shape name spec :
  lookup_spec INDEX_SPECS name = Some spec → keeps_shape (func spec).
Proof.
  intros Hin%lookup_spec_elem h w arrays result Hrect.
  unfold INDEX_SPECS in Hin.
  repeat (apply elem_of_cons in Hin as [Hin|Hin]); try (by apply elem_of_nil in Hin);
    injection Hin as -> ->; cbn [func call];
    destruct arrays as [|a1 [|a2 [|a3 [|a4 rest]]]]; try discriminate;
    intros [= <-];
    repeat match goal with
           | H : Forall _ (_ :: _) |- _ => apply Forall_cons_1 in H as [? H]
           end;
    unfold compute_ndvi, compute_ndwi, compute_msi, compute_evi, compute_ndre,
      compute_ndmi, compute_ndre_generic, compute_ci_rededge, compute_sipi,
      add, sub, div, smul, adds, subs;
    repeat first [apply rect_compute_index | apply rect_map2 | apply rect_map1
                 | assumption].
Qed.

Lemma load_bands_rect (band_paths : gmap string Path) (required : gset string)
    (w w' : world) arrays nir_path nir :
  band_paths !! "nir" = Some nir_path →
  files w !! nir_path = Some (Raster nir) →
  load_bands reproject band_paths required w = (inr arrays, w') →
  ∀ band a, arrays !! band = Some a → rect (height nir) (width nir) a.
Proof.
  intros Hnir Hfile. unfold load_bands. rewrite run_bind. unfold getitem at 1.
  rewrite Hnir. cbn. rewrite run_bind.
  destruct (load_raster reproject nir_path None w) as [[e|[[nir_data t0] c0]] w1] eqn:Hload;
    [discriminate|].
  apply load_raster_alone in Hload as (nir' & Hfile' & [= -> -> ->] & Hfiles1 & Htrace1).
  rewrite Hfile in Hfile'. injection Hfile' as <-.
  cbn. intros Hrun.
  eapply (load_loop reproject band_paths nir_path nir _ Hnir) in Hrun
    as (Hfiles & _ & Hout & Hin); [|by rewrite Hfiles1].
  intros band a Ha. destruct (decide (band ∈ elements (required ∖ {["nir"]}))) as [Hb|Hb].
  - destruct (Hin band Hb) as (p & s & [[a' t] c] & _ & _ & Hal & Ha').
    rewrite Ha in Ha'. injection Ha' as ->.
    by apply aligned_on_grid in Hal as [? _].
  - rewrite Hout in Ha by done.
    destruct (decide (band = "nir")) as [->|Hne].
    + rewrite lookup_singleton_eq in Ha. injection Ha as <-. apply rect_read_f32.
    + by rewrite lookup_singleton_ne in Ha.
Qed.

Lemma index_array_keeps_shape specs (band_arrays : gmap string ndarray) name result h w :
  (∀ spec, lookup_spec specs name = Some spec → keeps_shape (func spec)) →
  (∀ band a, band_arrays !! band = Some a → rect h w a) →
  index_array specs band_arrays name = inr result →
  rect h w result.
Proof.
  intros Hspecs Hrect. unfold index_array.
  destruct (lookup_spec specs name) as [spec|] eqn:Hspec; [|discriminate].
  destruct (mapE _ (bands spec)) as [e|arrays] eqn:Hm; [discriminate|]. cbn.
  apply (Hspecs spec eq_refl). apply mapE_inr in Hm.
  induction Hm as [|band a bs arrs Hband _ IH]; constructor; [|done].
  destruct (band_arrays !! band) as [a'|] eqn:Ha; [|discriminate].
  injection Hband as <-. by eapply Hrect.
Qed.

Lemma read1_saved_as (template : DatasetReader) (array : ndarray) :
  rect (height template) (width template) array →
  read1 (saved_as template array) = map1 (astype prec32 emax32) array.
Proof.
  intros Hrect. unfold read1. cbn [height width band1 saved_as].
  apply tabulate_item. by apply rect_map1.
Qed.


(** With the registry of the module, every raster that [analyse_scene]
    writes holds the whole result of its formula and nothing else: the
    bands that [load_bands] returns all have the height and width of the
    nir raster, so has the result of the registered formula on them, these
    are the dimensions that the file declares, and reading the file gives
    that result as float32. *)
Theorem index_rasters_keep_nir_shape self (band_paths : gmap string Path) output_dir
    indices (w w' : world) outputs :
  specs self = INDEX_SPECS →
  analyse_scene reproject self band_paths output_dir indices w = (inr outputs, w') →
  ∃ nir_path nir band_arrays w1,
    band_paths !! "nir" = Some nir_path ∧
    files w !! nir_path = Some (Raster nir) ∧
    load_bands reproject band_paths
      (required_bands INDEX_SPECS (requested_of self indices)) w = (inr band_arrays, w1) ∧
    (∀ band a, band_arrays !! band = Some a → rect (height nir) (width nir) a) ∧
    ∀ name, name ∈ requested_of self indices →
      ∃ result ds,
        index_array INDEX_SPECS band_arrays name = inr result ∧
        files w' !! output_path output_dir name = Some (Raster ds) ∧
        height ds = height nir ∧ width ds = width nir ∧
        rect (height nir) (width nir) result ∧
        read1 ds = map1 (astype prec32 emax32) result.
Proof.
  intros Hspecs (band_arrays & w1 & Hload & Hrun)%analyse_scene_inr.
  destruct (load_bands_nir _ _ _ _ _ _ Hload) as (nir_path & nir & Hnir & Hfile).
  destruct (load_bands_reads _ band_paths _ _ _ _ Hload) as (Hfiles1 & _).
  pose proof (load_bands_rect _ _ _ _ _ _ _ Hnir Hfile Hload) as Hrect.
  eapply (output_loop_returns self band_paths output_dir band_arrays nir_path nir
            _ Hnir) in Hrun as (_ & Hfilesout & _).
  2:{ rewrite Hfiles1. eauto using same_grid_refl. }
  rewrite Hspecs in Hload, Hfilesout.
  exists nir_path, nir, band_arrays, w1.
  split; [done|]. split; [done|]. split; [done|]. split; [done|].
  intros name Hname. destruct (Hfilesout name Hname) as (result & Hresult & Hds).
  assert (rect (height nir) (width nir) result) as Hres.
  { eapply index_array_keeps_shape; [|exact Hrect|exact Hresult].
    intros spec. apply registry_keeps_shape. }
  exists result, (saved_as nir result).
  split; [done|]. split; [done|]. split; [done|]. split; [done|]. split; [done|].
  by apply read1_saved_as.
Qed.

(** ndwi and ndmi are registered with one formula on the same bands, and
    so are ndre and ndre4: when both names of a pair are requested, the
    two rasters written are the same. *)
Theorem duplicate_indices_coincide self (band_paths : gmap string Path) output_dir
    indices (w w' : world) outputs a b :
  specs self = INDEX_SPECS →
  (a, b) ∈ [("ndwi", "ndmi"); ("ndre", "ndre4")] →
  a ∈ requested_of self indices →
  b ∈ requested_of self indices →
  analyse_scene reproject self band_paths output_dir indices w = (inr outputs, w') →
  ∃ ds, files w' !! output_path output_dir a = Some (Raster ds) ∧
        files w' !! output_path output_dir b = Some (Raster ds).
Proof.
  intros Hspecs Hpair Ha Hb (band_arrays & w1 & Hload & Hrun)%analyse_scene_inr.
  destruct (load_bands_nir _ _ _ _ _ _ Hload) as (nir_path & nir & Hnir & Hfile).
  destruct (load_bands_reads _ band_paths _ _ _ _ Hload) as (Hfiles1 & _).
  eapply (output_loop_returns self band_paths output_dir band_arrays nir_path nir
            _ Hnir) in Hrun as (_ & Hfilesout & _).
  2:{ rewrite Hfiles1. eauto using same_grid_refl. }
  destruct (Hfilesout a Ha) as (ra & Hra & Hfa).
  destruct (Hfilesout b Hb) as (rb & Hrb & Hfb).
  exists (saved_as nir ra). split; [done|]. rewrite Hfb. do 3 f_equal.
  rewrite Hspecs in Hra, Hrb.
  assert (index_array INDEX_SPECS band_arrays a = index_array INDEX_SPECS band_arrays b)
    as Heq.
  { repeat (apply elem_of_cons in Hpair as [Hpair|Hpair]);
      try (by apply elem_of_nil in Hpair); injection Hpair as -> ->; reflexivity. }
  congruence.
Qed.

End index_shapes.


Lemma index_rasters_keep_nir_shape_witness :
  ∃ nir_path nir band_arrays w1,
    examples.band_paths !! "nir" = Some nir_path ∧
    rasterio.files examples.disk !! nir_path = Some (rasterio.Raster nir) ∧
    index_calculator.load_bands examples.first_sample examples.band_paths
      (required_bands index_calculator.INDEX_SPECS
         (index_calculator.requested_of examples.calculator (Some ["ndvi"])))
      examples.disk = (inr band_arrays, w1) ∧
    (∀ band a, band_arrays !! band = Some a →
               rect (rasterio.height nir) (rasterio.width nir) a) ∧
    ∀ name, name ∈ index_calculator.requested_of examples.calculator (Some ["ndvi"]) →
      ∃ result ds,
        index_array index_calculator.INDEX_SPECS band_arrays name = inr result ∧
        rasterio.files examples.analysed.2 !! output_path ["out"] name
          = Some (rasterio.Raster ds) ∧
        rasterio.height ds = rasterio.height nir ∧
        rasterio.width ds = rasterio.width nir ∧
        rect (rasterio.height nir) (rasterio.width nir) result ∧
        rasterio.read1 ds = map1 (astype prec32 emax32) result.
Proof.
  apply (index_rasters_keep_nir_shape examples.first_sample examples.calculator
           examples.band_paths ["out"] (Some ["ndvi"]) examples.disk
           examples.analysed.2 examples.analysed_outputs).
  - reflexivity.
  - vm_compute. reflexivity.
Defined.

Lemma duplicate_indices_coincide_witness :
  ∃ ds,
    rasterio.files examples.analysed_moisture.2 !! output_path ["out"] "ndwi"
      = Some (rasterio.Raster ds) ∧
    rasterio.files examples.analysed_moisture.2 !! output_path ["out"] "ndmi"
      = Some (rasterio.Raster ds).
Proof.
  apply (duplicate_indices_coincide examples.first_sample examples.calculator
           examples.moisture_paths ["out"] (Some ["ndwi"; "ndmi"]) examples.disk
           examples.analysed_moisture.2 examples.moisture_outputs "ndwi" "ndmi").
  - reflexivity.
  - left.
  - apply (bool_decide_unpack _). vm_compute. exact I.
  - apply (bool_decide_unpack _). vm_compute. exact I.
  - vm_compute. reflexivity.
Defined.

(** ** [analyse_scene]: failures come before the first output *)

Section all_or_nothing.
Import index_calculator rasterio.
Context (reproject :
  ndarray → Affine.t → CRS → Affine.t → CRS → Resampling → nat * nat →
  exn + (nat → nat → float)).

(** The arrays that [load_bands] returns hold every required band. *)
Lemma load_bands_keys (band_paths : gmap string Path) (required : gset string)
    (w w' : world) arrays :
  load_bands reproject band_paths required w = (inr arrays, w') →
  ∀ band, band ∈ required → is_Some (arrays !! band).
Proof.
  intros Hload. destruct (load_bands_nir _ _ _ _ _ _ Hload) as (nir_path & nir & Hnir & Hfile).
  revert Hload. unfold load_bands. rewrite run_bind. unfold getitem at 1.
  rewrite Hnir. cbn. rewrite run_bind.
  destruct (load_raster reproject nir_path None w) as [[e|[[nir_data t0] c0]] w1] eqn:Hload;
    [discriminate|].
  apply load_raster_alone in Hload as (nir' & Hfile' & [= -> -> ->] & Hfiles1 & Htrace1).
  rewrite Hfile in Hfile'. injection Hfile' as <-.
  cbn. intros Hrun.
  eapply (load_loop reproject band_paths nir_path nir _ Hnir) in Hrun
    as (Hfiles & _ & Hout & Hin); [|by rewrite Hfiles1].
  intros band Hband. destruct (decide (band = "nir")) as [->|Hne].
  - rewrite Hout; [by rewrite lookup_singleton_eq|].
    rewrite elem_of_elements. set_solver.
  - destruct (Hin band) as (p & s & res & _ & _ & _ & ->); [|done].
    rewrite elem_of_elements. set_solver.
Qed.

(** With the registry of the module, [analyse_scene] is all or nothing:
    when it raises, it has written no file and has at most read band
    rasters; every failure comes before the first output. *)
Theorem analyse_scene_all_or_nothing self (band_paths : gmap string Path) output_dir
    indices (w w' : world) e :
  specs self = INDEX_SPECS →
  analyse_scene reproject self band_paths output_dir indices w = (inl e, w') →
  files w' = files w ∧
  ∃ evs, trace w' = trace w ++ evs ∧
         written_paths evs = [] ∧
         Forall (λ ev, ∃ band p, band_paths !! band = Some p ∧ ev = Open p rd) evs.
Proof.
  intros Hspecs. unfold analyse_scene. set (requested := requested_of self indices).
  assert (Hnone : ∀ w0 : world,
            files w0 = files w0 ∧
            ∃ evs, trace w0 = trace w0 ++ evs ∧ written_paths evs = [] ∧
                   Forall (λ ev, ∃ band p, band_paths !! band = Some p ∧ ev = Open p rd) evs).
  { intros w0. split; [done|]. exists []. by rewrite app_nil_r. }
  case_bool_decide as Hne; [intros [= <- <-]; apply Hnone|].
  case_bool_decide as Hunknown; cbn [negb]; [|intros [= <- <-]; apply Hnone].
  assert (Hknown : ∀ name, name ∈ requested → name ∈ keys (specs self)).
  { intros name Hname. destruct (decide (name ∈ keys (specs self))) as [|Hk]; [done|].
    assert (name ∈ unknown_of self requested) as Hin by by apply unknown_of_elem.
    rewrite Hunknown in Hin. by apply elem_of_nil in Hin. }
  rewrite run_bind. unfold required_of. rewrite required_of_known by done.
  rewrite (left_id_L ∅ (∪)).
  case_bool_decide; cbn [negb]; [|intros [= <- <-]; apply Hnone].
  rewrite run_bind.
  destruct (load_bands reproject band_paths _ w) as [[e1|band_arrays] w1] eqn:Hload.
  { intros [= <- <-].
    apply load_bands_reads in Hload as (Hfiles1 & evs & Htrace & Hevs).
    split; [done|]. exists evs. split; [done|]. split; [|done].
    by eapply reads_written_paths. }
  destruct (load_bands_nir _ _ _ _ _ _ Hload) as (nir_path & nir & Hnir & Hfile).
  pose proof (load_bands_reads _ _ _ _ _ _ Hload) as (Hfiles1 & _).
  pose proof (load_bands_keys _ _ _ _ _ Hload) as Hkeys.
  unfold compute_outputs.
  destruct (output_loop_total self band_paths output_dir band_arrays nir_path requested
              Hnir ∅ w1) as (outputs & w2 & ->); [| |discriminate].
  - rewrite Hfiles1. eauto.
  - intros name Hname.
    destruct (lookup_spec_Some (specs self) name (Hknown name Hname)) as [spec Hspec].
    eapply index_array_total; [exact Hspec| |].
    + intros arrays. apply (registry_returns name). by rewrite <- Hspecs.
    + intros band Hband. apply Hkeys. by eapply required_bands_elem.
Qed.

End all_or_nothing.


Lemma analyse_scene_all_or_nothing_witness :
  examples.failed.1 = inl (RasterioIOError "No such file or not a raster") ∧
  rasterio.files examples.failed.2 = rasterio.files examples.disk ∧
  ∃ evs, rasterio.trace examples.failed.2 = rasterio.trace examples.disk ++ evs ∧
         written_paths evs = [] ∧
         Forall (λ ev, ∃ band p, examples.broken_paths !! band = Some p ∧
                                 ev = rasterio.Open p rasterio.rd) evs.
Proof.
  split; [reflexivity|].
  apply (analyse_scene_all_or_nothing examples.first_sample examples.calculator
           examples.broken_paths ["out"] (Some ["ndvi"]) examples.disk examples.failed.2
           (RasterioIOError "No such file or not a raster")).
  - reflexivity.
  - vm_compute. reflexivity.
Defined.

(** ** Product names: [infer_product_name] *)

Section product_names.
Import pathlib catalog_copernicus.

Lemma length_append (s t : string) :
  String.length (s +:+ t) = (String.length s + String.length t)%nat.
Proof. induction s as [|ch s IH]; [done|]. rewrite append_cons. cbn. by rewrite IH. Qed.

Lemma substring_append_l (s t : string) :
  String.substring 0 (String.length s) (s +:+ t) = s.
Proof. induction s as [|ch s IH]; [by destruct t|]. rewrite append_cons. cbn. by rewrite IH. Qed.

Lemma substring_append_r (s t : string) :
  String.substring (String.length s) (String.length t) (s +:+ t) = t.
Proof.
  induction s as [|ch s IH]; [apply substring_full|]. rewrite append_cons. cbn. exact IH.
Qed.

Lemma endswith_append (s suffix : string) : endswith (s +:+ suffix) suffix = true.
Proof.
  unfold endswith. rewrite length_append.
  replace (String.length s + String.length suffix - String.length suffix)%nat
    with (String.length s) by lia.
  rewrite substring_append_r, String.eqb_refl, andb_true_r.
  apply Nat.leb_le. lia.
Qed.

Lemma rfind_append ch (s t : string) :
  rfind ch (s +:+ t) =
    match rfind ch t with
    | Some i => Some (String.length s + i)%nat
    | None => rfind ch s
    end.
Proof.
  induction s as [|c s IH]; [rewrite append_empty_l; by destruct (rfind ch t)|].
  rewrite append_cons. cbn [rfind]. rewrite IH.
  by destruct (rfind ch t).
Qed.

Lemma name_path_join (directory : Path) (file_name : string) :
  name (path_join directory file_name) = file_name.
Proof. unfold name, path_join. by rewrite last_snoc. Qed.

(** The stem of [<s>.<extension>] is [s], for a non-empty [s] and an
    extension without a dot. *)
Lemma stem_extension (directory : Path) (s extension : string) :
  s ≠ "" → extension ≠ "" → rfind dot extension = None →
  stem (path_join directory (s +:+ String dot extension)) = s.
Proof.
  intros Hs Hext Hnodot. unfold stem. rewrite name_path_join, rfind_append.
  cbn [rfind]. rewrite Hnodot. replace (Ascii.eqb dot dot) with true by done.
  rewrite Nat.add_0_r, length_append. cbn [String.length].
  replace (0 <? String.length s)%nat with true.
  2:{ symmetry. apply Nat.ltb_lt. destruct s; [done|cbn; lia]. }
  replace (String.length s <? String.length s + S (String.length extension) - 1)%nat
    with true.
  2:{ symmetry. apply Nat.ltb_lt. destruct extension; [done|cbn; lia]. }
  cbn [andb]. apply substring_append_l.
Qed.

Lemma infer_product_name_folder (directory : Path) (title : string) :
  title ≠ "" → endswith title ".SAFE" = false →
  infer_product_name (path_join directory (title +:+ ".SAFE")) = title.
Proof.
  intros Htitle Hsafe. unfold infer_product_name.
  change (title +:+ ".SAFE") with (title +:+ String dot "SAFE").
  rewrite (stem_extension directory title "SAFE") by done.
  by rewrite Hsafe, bool_decide_false.
Qed.

Lemma infer_product_name_archive (directory : Path) (title : string) :
  title ≠ "" →
  infer_product_name (path_join directory (title +:+ ".SAFE.zip")) = title.
Proof.
  intros Htitle. unfold infer_product_name.
  change (title +:+ ".SAFE.zip") with (title +:+ ".SAFE" +:+ String dot "zip").
  rewrite <- append_assoc.
  rewrite (stem_extension directory (title +:+ ".SAFE") "zip"); [|by destruct title|done..].
  rewrite endswith_append, length_append. cbn [String.length].
  replace (String.length title + 5 - 5)%nat with (String.length title) by lia.
  by rewrite substring_append_l, bool_decide_false.
Qed.

(** The title inferred from a path does not depend on how the product is
    stored: the SAFE folder [<title>.SAFE], the archive [<title>.SAFE.zip]
    and a plain archive [<title>.zip] all give [title]. *)
Theorem infer_product_name_of_safe (directory : Path) (title : string) :
  title ≠ "" →
  endswith title ".SAFE" = false →
  infer_product_name (path_join directory (title +:+ ".SAFE")) = title ∧
  infer_product_name (path_join directory (title +:+ ".SAFE.zip")) = title ∧
  infer_product_name (path_join directory (title +:+ ".zip")) = title.
Proof.
  intros Htitle Hsafe.
  split; [by apply infer_product_name_folder|].
  split; [by apply infer_product_name_archive|].
  unfold infer_product_name.
  change (title +:+ ".zip") with (title +:+ String dot "zip").
  rewrite (stem_extension directory title "zip") by done.
  by rewrite Hsafe, bool_decide_false.
Qed.

End product_names.

Lemma infer_product_name_of_safe_witness :
  catalog_copernicus.infer_product_name
    (path_join ["data"; "raw"] ("S2A_T22KGA" +:+ ".SAFE")) = "S2A_T22KGA" ∧
  catalog_copernicus.infer_product_name
    (path_join ["data"; "raw"] ("S2A_T22KGA" +:+ ".SAFE.zip")) = "S2A_T22KGA" ∧
  catalog_copernicus.infer_product_name
    (path_join ["data"; "raw"] ("S2A_T22KGA" +:+ ".zip")) = "S2A_T22KGA".
Proof.
  apply (infer_product_name_of_safe ["data"; "raw"] "S2A_T22KGA").
  - discriminate.
  - reflexivity.
Defined.

(** ** [SafeExtractor._locate_band] *)

Section locate_band.
Import pathlib safe_extractor.
Context (glob : Path → string → list Path).

Lemma ltb_leb (a b : string) : String.ltb a b = negb (String.leb b a).
Proof.
  unfold String.ltb, String.leb. rewrite (String.compare_antisym a b).
  by destruct (String.compare b a).
Qed.

Lemma key_lt_asym a b : key_lt a b = true → key_lt b a = false.
Proof.
  destruct a as [[a1 a2] a3], b as [[b1 b2] b3]. unfold key_lt. cbn [fst snd].
  destruct a1, b1, a2, b2; cbn; try done.
  all: rewrite !ltb_leb; intros H%negb_true_iff; apply negb_false_iff;
    destruct (String.leb_total a3 b3) as [?|?]; congruence.
Qed.

(** [a <= b] as [not (b < a)] is transitive. *)
Lemma key_le_trans a b c :
  key_lt b a = false → key_lt c b = false → key_lt c a = false.
Proof.
  destruct a as [[a1 a2] a3], b as [[b1 b2] b3], c as [[c1 c2] c3].
  unfold key_lt. cbn [fst snd].
  destruct a1, b1, c1, a2, b2, c2; cbn; try done.
  all: rewrite !ltb_leb, !negb_false_iff; intros H1 H2;
    apply Is_true_true; apply Is_true_true in H1, H2;
    exact (transitivity (R := String.le) H1 H2).
Qed.

Lemma elem_of_insert q p l : q ∈ insert p l ↔ q = p ∨ q ∈ l.
Proof.
  induction l as [|x l IH]; cbn.
  - rewrite list_elem_of_singleton, elem_of_nil. tauto.
  - destruct (key_lt (sort_key x) (sort_key p)).
    + rewrite !elem_of_cons, IH. tauto.
    + rewrite !elem_of_cons. tauto.
Qed.

Lemma elem_of_sort_by_key q l : q ∈ sort_by_key l ↔ q ∈ l.
Proof.
  induction l as [|x l IH]; [done|]. cbn. by rewrite elem_of_insert, elem_of_cons, IH.
Qed.

(** The first entry after the sort has the least key. *)
Lemma head_sort_by_key l p :
  head (sort_by_key l) = Some p →
  p ∈ l ∧ ∀ q, q ∈ l → key_lt (sort_key q) (sort_key p) = false.
Proof.
  revert p. induction l as [|x l IH]; intros p; [done|]. cbn [sort_by_key foldr].
  fold (sort_by_key l). destruct (sort_by_key l) as [|m rest] eqn:Hsorted.
  - cbn. intros [= <-].
    assert (l = []) as ->.
    { destruct l as [|y l']; [done|]. exfalso.
      assert (y ∈ sort_by_key (y :: l')) as Hy by (apply elem_of_sort_by_key; left).
      rewrite Hsorted in Hy. by apply elem_of_nil in Hy. }
    split; [left|]. intros q ->%list_elem_of_singleton.
    destruct (key_lt (sort_key x) (sort_key x)) eqn:E; [|done].
    by rewrite (key_lt_asym _ _ E) in E.
  - destruct (IH m eq_refl) as [Hm Hmin]. cbn [insert].
    destruct (key_lt (sort_key m) (sort_key x)) eqn:Hlt; cbn; intros [= <-].
    + split; [by right|]. intros q [->|Hq]%elem_of_cons; [by apply key_lt_asym|auto].
    + split; [left|]. intros q [->|Hq]%elem_of_cons.
      * destruct (key_lt (sort_key x) (sort_key x)) eqn:E; [|done].
        by rewrite (key_lt_asym _ _ E) in E.
      * eapply key_le_trans; [exact Hlt|]. by apply Hmin.
Qed.

Lemma first_match_None safe_root l :
  first_match glob safe_root l = None ↔ ∀ pattern, pattern ∈ l → glob safe_root pattern = [].
Proof.
  induction l as [|pattern rest IH]; cbn [first_match].
  - split; [by intros _ ? ?%elem_of_nil|done].
  - destruct (glob safe_root pattern) as [|m ms] eqn:Hglob.
    + rewrite IH. split.
      * intros H q [->|?]%elem_of_cons; auto.
      * intros H q Hq. apply H. by right.
    + split.
      * intros Hnone. exfalso.
        destruct (sort_by_key (m :: ms)) as [|y ys] eqn:Hs; [|done].
        assert (m ∈ sort_by_key (m :: ms)) as Hm by (apply elem_of_sort_by_key; left).
        rewrite Hs in Hm. by apply elem_of_nil in Hm.
      * intros H. exfalso. assert (glob safe_root pattern = []) as Hnil by (apply H; left).
        by rewrite Hglob in Hnil.
Qed.

Lemma first_match_Some safe_root l p :
  first_match glob safe_root l = Some p →
  ∃ earlier pattern later,
    l = earlier ++ pattern :: later ∧
    (∀ q, q ∈ earlier → glob safe_root q = []) ∧
    head (sort_by_key (glob safe_root pattern)) = Some p.
Proof.
  induction l as [|pattern rest IH]; cbn [first_match]; [done|].
  destruct (glob safe_root pattern) as [|m ms] eqn:Hglob.
  - intros (earlier & pat & later & -> & Hearlier & Hhead)%IH.
    exists (pattern :: earlier), pat, later. split; [done|]. split; [|done].
    intros q [->|?]%elem_of_cons; auto.
  - intros Hhead. exists [], pattern, rest. split; [done|]. split.
    + by intros q ?%elem_of_nil.
    + by rewrite Hglob.
Qed.

(** [_locate_band] fails exactly when none of its three patterns has a
    match.  Otherwise it returns a match of the first pattern that has
    one, and among the matches of that pattern one with the least key: a
    file with [10m] in its name if there is one; and, among the files
    that agree with it on that, a file without [20m] in its name if
    there is one. *)
Theorem locate_band_preference (safe_root : Path) (band : string) :
  (_locate_band glob safe_root band = None ↔
   ∀ pattern, pattern ∈ patterns band → glob safe_root pattern = []) ∧
  ∀ p, _locate_band glob safe_root band = Some p →
    ∃ earlier pattern later,
      patterns band = earlier ++ pattern :: later ∧
      (∀ q, q ∈ earlier → glob safe_root q = []) ∧
      p ∈ glob safe_root pattern ∧
      (∀ q, q ∈ glob safe_root pattern →
         key_lt (sort_key q) (sort_key p) = false ∧
         (contains "10m" (name q) = true → contains "10m" (name p) = true) ∧
         (contains "10m" (name q) = contains "10m" (name p) →
          contains "20m" (name q) = false → contains "20m" (name p) = false)).
Proof.
  unfold _locate_band. split; [apply first_match_None|].
  intros p (earlier & pattern & later & Hl & Hearlier & Hhead)%first_match_Some.
  apply head_sort_by_key in Hhead as [Hin Hmin].
  exists earlier, pattern, later. split; [done|]. split; [done|]. split; [done|].
  intros q Hq. specialize (Hmin q Hq). split; [done|].
  unfold key_lt, sort_key in Hmin. cbn [fst snd] in Hmin.
  destruct (contains "10m" (name q)), (contains "10m" (name p)),
    (contains "20m" (name q)), (contains "20m" (name p)); cbn in Hmin; done.
Qed.

End locate_band.

(** ** [CopernicusClient.download] *)

Section download_facts.
Import pathlib catalog_copernicus.
Context (get : list string → string → Response).
Context (urljoin : string → string → string).
Context (api_url : string).

Lemma follow_requests turns url requested response requested' :
  follow get urljoin turns url requested = (response, requested') →
  ∃ urls, requested' = requested ++ urls ∧ length urls ≤ turns ∧
          (response = None → length urls = turns).
Proof.
  revert url requested. induction turns as [|turns IH]; intros url requested; cbn [follow].
  - intros [= <- <-]. exists []. by rewrite app_nil_r.
  - assert (Hbreak : ∀ r : Response,
              ∃ urls, requested ++ [url] = requested ++ urls ∧ length urls ≤ S turns ∧
                      (Some r = None → length urls = S turns)).
    { intros r. exists [url]. cbn. split; [done|]. split; [lia|done]. }
    destruct (is_redirect (get requested url)); [|by intros [= <- <-]].
    destruct (Location (get requested url)) as [[|ch location]|];
      [by intros [= <- <-]| |by intros [= <- <-]].
    intros (urls & -> & Hlen & Hnone)%IH. exists (url :: urls).
    rewrite <- app_assoc. cbn. split; [done|]. split; [lia|].
    intros Hr. by rewrite Hnone.
Qed.

(** A server that answers every request with a redirect elsewhere. *)
Lemma follow_always_redirected turns url requested :
  (∀ history u, is_redirect (get history u) = true ∧
                ∃ ch location, Location (get history u) = Some (String ch location)) →
  (follow get urljoin turns url requested).1 = None.
Proof.
  intros Hredirect. revert url requested.
  induction turns as [|turns IH]; intros url requested; cbn [follow]; [done|].
  destruct (Hredirect requested url) as (-> & ch & location & ->). apply IH.
Qed.

(** [download] makes at most five requests.  It raises the
    exceeded-redirects [RuntimeError] only after five requests, and then
    writes no archive; it does so whenever the payload has an id and the
    server answers every request with a redirect to a location; and a
    payload without id is refused before any request is made. *)
Theorem download_redirects_bounded (product : Product) (dst_dir : Path)
    (s s' : network) result :
  download get urljoin api_url product dst_dir s = (result, s') →
  let exceeded :=
    Raised (RuntimeError "Exceeded maximum number of redirects while downloading product.") in
  (∃ urls, requests s' = requests s ++ urls ∧ length urls ≤ 5 ∧
           (result = inl exceeded → length urls = 5 ∧ archives s' = archives s) ∧
           (get_text product "Id" = None →
            urls = [] ∧
            result = inl (Raised (RuntimeError "Product payload missing 'Id' field.")))) ∧
  ((∀ history u, is_redirect (get history u) = true ∧
                 ∃ ch location, Location (get history u) = Some (String ch location)) →
   is_Some (get_text product "Id") → result = inl exceeded).
Proof.
  unfold download. destruct (get_text product "Id") as [product_id|] eqn:Hid.
  2:{ intros [= <- <-]. cbn. split.
      - exists []. rewrite app_nil_r. split; [done|]. split; [cbn; lia|]. split; [done|done].
      - by intros _ [? ?]. }
  set (url := urljoin _ _).
  pose proof (follow_always_redirected 5 url (requests s)) as Halways.
  destruct (follow get urljoin 5 url (requests s)) as [response requested] eqn:Hfollow.
  apply follow_requests in Hfollow as (urls & -> & Hlen & Hnone).
  destruct response as [response|].
  - destruct (_ && _); intros [= <- <-]; cbn; (split;
      [exists urls; split; [done|]; split; [done|]; split; [done|done]
      |intros Hredirect _; by specialize (Halways Hredirect)]).
  - intros [= <- <-]. cbn. split; [|done].
    exists urls. split; [done|]. split; [done|]. split; [|done].
    intros _. split; [by apply Hnone|done].
Qed.

(** The response on which the loop breaks is the answer to the last
    request made, and it is not a redirect to a location. *)
Lemma follow_breaks turns url requested response requested' :
  follow get urljoin turns url requested = (Some response, requested') →
  ∃ history last_url,
    requested' = history ++ [last_url] ∧
    response = get history last_url ∧
    (is_redirect response = false ∨ Location response = None ∨
     Location response = Some "").
Proof.
  revert url requested. induction turns as [|turns IH]; intros url requested; cbn [follow];
    [discriminate|].
  destruct (is_redirect (get requested url)) eqn:Hredirect.
  - destruct (Location (get requested url)) as [[|ch location]|] eqn:Hlocation.
    + intros [= <- <-]. exists requested, url. auto.
    + apply IH.
    + intros [= <- <-]. exists requested, url. auto.
  - intros [= <- <-]. exists requested, url. auto.
Qed.

(** When [download] returns, it has made [dst_dir] and written one
    archive at the path it returns: [dst_dir/<Name>], with [.zip] appended
    unless the name ends with it; every other archive is as before.  The
    archive is the body of the response on which the loop over the
    redirects, started at the [$value] URL of the product, has stopped:
    the answer to the last request made, which was neither a redirect to
    a location nor an error from 400 to 599.  For a product named
    [<title>.SAFE], the title inferred from that path is [title]. *)
Theorem download_saves_archive (product : Product) (dst_dir path : Path)
    (s s' : network) :
  download get urljoin api_url product dst_dir s = (inr path, s') →
  ∃ product_id archive_name history last_url response,
    get_text product "Id" = Some product_id ∧
    path = path_join dst_dir archive_name ∧
    endswith archive_name ".zip" = true ∧
    (archive_name = default product_id (get_text product "Name") ∨
     archive_name = default product_id (get_text product "Name") +:+ ".zip") ∧
    directories s' = directories s ++ [dst_dir] ∧
    follow get urljoin 5
      (urljoin (rstrip slash api_url +:+ "/") ("Products(" +:+ product_id +:+ ")/$value"))
      (requests s) = (Some response, requests s') ∧
    requests s' = history ++ [last_url] ∧
    response = get history last_url ∧
    (is_redirect response = false ∨ Location response = None ∨
     Location response = Some "") ∧
    is_error (status_code response) = false ∧
    archives s' = <[path := String.concat "" (iter_content response)]> (archives s) ∧
    (∀ title, title ≠ "" → endswith title ".SAFE" = false →
              get_text product "Name" = Some (title +:+ ".SAFE") →
              infer_product_name path = title).
Proof.
  unfold download. destruct (get_text product "Id") as [product_id|] eqn:Hid;
    [|discriminate].
  set (product_name := default product_id (get_text product "Name")).
  destruct (follow _ _ _ _ _) as [[response|] requested] eqn:Hfollow; [|discriminate].
  destruct (_ && is_error _) eqn:Herror; [discriminate|].
  intros [= <- <-]. cbn [directories archives requests].
  destruct (follow_breaks _ _ _ _ _ Hfollow) as (history & last_url & Hreq & Hresp & Hstop).
  eexists product_id, _, history, last_url, response.
  split; [done|]. split; [done|].
  split; [|split; [|split; [done|split; [done|split; [done|split; [done|split;
    [done|split; [|split; [done|]]]]]]]]].
  - destruct (endswith product_name ".zip") eqn:E; [done|apply endswith_append].
  - destruct (endswith product_name ".zip"); [by left|by right].
  - apply andb_false_iff in Herror as [Hlow|?]; [|done].
    unfold is_error. by rewrite Hlow.
  - intros title Htitle Hsafe Hname. subst product_name. rewrite Hname.
    cbn [default from_option]. unfold id.
    assert (endswith (title +:+ ".SAFE") ".zip" = false) as ->.
    { unfold endswith. apply andb_false_iff. right.
      rewrite length_append. cbn [String.length].
      replace (String.length title + 5 - 4)%nat with (String.length (title +:+ ".")).
      2:{ rewrite length_append. cbn [String.length]. lia. }
      change (title +:+ ".SAFE") with (title +:+ "." +:+ "SAFE").
      rewrite <- append_assoc.
      change 4%nat with (String.length "SAFE"). by rewrite substring_append_r. }
    rewrite append_assoc. by apply infer_product_name_archive.
Qed.

End download_facts.


Lemma download_redirects_bounded_witness :
  let exceeded :=
    catalog_copernicus.Raised
      (RuntimeError "Exceeded maximum number of redirects while downloading product.") in
  (∃ urls,
     catalog_copernicus.requests examples.downloaded.2
       = catalog_copernicus.requests examples.offline ++ urls ∧
     length urls ≤ 5 ∧
     (examples.downloaded.1 = inl exceeded →
      length urls = 5 ∧
      catalog_copernicus.archives examples.downloaded.2
        = catalog_copernicus.archives examples.offline) ∧
     (catalog_copernicus.get_text examples.payload "Id" = None →
      urls = [] ∧
      examples.downloaded.1
        = inl (catalog_copernicus.Raised
                 (RuntimeError "Product payload missing 'Id' field.")))) ∧
  ((∀ history u,
      catalog_copernicus.is_redirect (examples.mirror history u) = true ∧
      ∃ ch location,
        catalog_copernicus.Location (examples.mirror history u)
          = Some (String ch location)) →
   is_Some (catalog_copernicus.get_text examples.payload "Id") →
   examples.downloaded.1 = inl exceeded).
Proof.
  apply (download_redirects_bounded examples.mirror examples.absolute
           "https://catalogue/odata/v1/" examples.payload ["data"; "raw"]
           examples.offline examples.downloaded.2 examples.downloaded.1).
  apply surjective_pairing.
Defined.

Lemma download_saves_archive_witness :
  ∃ product_id archive_name history last_url response,
    catalog_copernicus.get_text examples.payload "Id" = Some product_id ∧
    ["data"; "raw"; "S2A_T22KGA.SAFE.zip"] = path_join ["data"; "raw"] archive_name ∧
    pathlib.endswith archive_name ".zip" = true ∧
    (archive_name
       = default product_id (catalog_copernicus.get_text examples.payload "Name") ∨
     archive_name
       = default product_id (catalog_copernicus.get_text examples.payload "Name")
         +:+ ".zip") ∧
    catalog_copernicus.directories examples.downloaded.2
      = catalog_copernicus.directories examples.offline ++ [["data"; "raw"]] ∧
    catalog_copernicus.follow examples.mirror examples.absolute 5
      (examples.absolute
         (catalog_copernicus.rstrip catalog_copernicus.slash "https://catalogue/odata/v1/"
            +:+ "/")
         ("Products(" +:+ product_id +:+ ")/$value"))
      (catalog_copernicus.requests examples.offline)
      = (Some response, catalog_copernicus.requests examples.downloaded.2) ∧
    catalog_copernicus.requests examples.downloaded.2 = history ++ [last_url] ∧
    response = examples.mirror history last_url ∧
    (catalog_copernicus.is_redirect response = false ∨
     catalog_copernicus.Location response = None ∨
     catalog_copernicus.Location response = Some "") ∧
    catalog_copernicus.is_error (catalog_copernicus.status_code response) = false ∧
    catalog_copernicus.archives examples.downloaded.2
      = <[["data"; "raw"; "S2A_T22KGA.SAFE.zip"] :=
            String.concat "" (catalog_copernicus.iter_content response)]>
          (catalog_copernicus.archives examples.offline) ∧
    (∀ title, title ≠ "" → pathlib.endswith title ".SAFE" = false →
              catalog_copernicus.get_text examples.payload "Name"
                = Some (title +:+ ".SAFE") →
              catalog_copernicus.infer_product_name ["data"; "raw"; "S2A_T22KGA.SAFE.zip"]
                = title).
Proof.
  apply (download_saves_archive examples.mirror examples.absolute
           "https://catalogue/odata/v1/" examples.payload ["data"; "raw"]
           ["data"; "raw"; "S2A_T22KGA.SAFE.zip"]
           examples.offline examples.downloaded.2).
  vm_compute. reflexivity.
Defined.

(** ** [SafeExtractor.extract] *)

Section extract_facts.
Import pathlib safe_extractor rasterio.
Context (glob : Path → string → list Path).
Context (st_mtime : world → Path → option float).
Context (unzip : Path → M world Path).
Context (cleanup : M world unit).

Local Abbreviation located safe_root items alias :=
  (∃ band_id, (band_id, alias) ∈ items ∧ is_Some (_locate_band glob safe_root band_id)).

Lemma located_dec safe_root (items : list (string * string)) alias :
  Decision (located safe_root items alias).
Proof.
  destruct (decide (Exists (λ item : string * string,
                      item.2 = alias ∧ is_Some (_locate_band glob safe_root item.1)) items))
    as [Hyes|Hno].
  - left. apply Exists_exists in Hyes as ([b a] & Hin & Ha & Hsome). cbn in *. subst.
    by exists b.
  - right. intros (b & Hin & Hsome). apply Hno, Exists_exists. by exists (b, alias).
Qed.

Lemma extract_band_run safe_root destination (extracted : gmap string Path)
    band_id alias (w : world) :
  extract_band glob st_mtime safe_root destination extracted (band_id, alias) w =
    match _locate_band glob safe_root band_id with
    | None => (inr extracted, w)
    | Some jp2_path =>
        let tif_path := output_path destination alias in
        if (reusable st_mtime tif_path jp2_path w).1 is inr true then
          (inr (<[alias := tif_path]> extracted), w)
        else
          match files w !! jp2_path with
          | Some (Raster src) =>
              (inr (<[alias := tif_path]> extracted),
               {| files := <[tif_path := Raster (copy_of src)]> (files w);
                  trace := trace w ++ [Open jp2_path rd; Open tif_path wr] |})
          | _ =>
              (inl (RasterioIOError "No such file or not a raster"),
               {| files := files w; trace := trace w ++ [Open jp2_path rd] |})
          end
    end.
Proof.
  unfold extract_band. destruct (_locate_band glob safe_root band_id) as [jp2_path|]; [|done].
  fold (output_path destination alias). cbv zeta. rewrite run_bind.
  unfold reusable at 1 2. cbn [fst].
  destruct (match files w !! output_path destination alias with Some _ => _ | None => _ end).
  { done. }
  rewrite run_bind, open_run.
  destruct (files w !! jp2_path) as [[src|rows]|]; [|done..].
  rewrite run_bind. unfold write. rewrite run_bind. cbn. by rewrite <- app_assoc.
Qed.


(** The loop over the bands, when it returns: the entries it adds, the
    files it leaves in place, and the files it does not touch. *)
Lemma extract_loop safe_root destination items :
  ∀ acc (w w' : world) extracted,
  foldM (extract_band glob st_mtime safe_root destination) acc items w
    = (inr extracted, w') →
  (∀ alias, located safe_root items alias →
            extracted !! alias = Some (output_path destination alias)) ∧
  (∀ alias, ¬ located safe_root items alias → extracted !! alias = acc !! alias) ∧
  (∀ p, is_Some (files w !! p) → is_Some (files w' !! p)) ∧
  (∀ alias, located safe_root items alias →
            is_Some (files w' !! output_path destination alias)) ∧
  (∀ p, (∀ alias, located safe_root items alias → p ≠ output_path destination alias) →
        files w' !! p = files w !! p).
Proof.
  induction items as [|[band_id alias] rest IH]; intros acc w w' extracted Hrun.
  - cbn in Hrun. injection Hrun as <- <-.
    split; [by intros alias (? & ?%elem_of_nil & _)|]. split; [done|]. split; [done|].
    split; [by intros alias (? & ?%elem_of_nil & _)|done].
  - cbn [foldM] in Hrun. rewrite run_bind, extract_band_run in Hrun.
    destruct (_locate_band glob safe_root band_id) as [jp2_path|] eqn:Hlocate.
    2:{ apply IH in Hrun as (Hin & Hout & Hmono & Hfile & Hframe).
        assert (Hiff : ∀ a, located safe_root ((band_id, alias) :: rest) a ↔
                            located safe_root rest a).
        { intros a. split.
          - intros (b & [[= -> ->]|Hb]%elem_of_cons & Hsome); [|by exists b].
            rewrite Hlocate in Hsome. by destruct Hsome.
          - intros (b & Hb & Hsome). exists b. split; [by right|done]. }
        split; [by intros a ?%Hiff; apply Hin|].
        split; [intros a Ha; apply Hout; by rewrite <- Hiff|].
        split; [done|]. split; [by intros a ?%Hiff; apply Hfile|].
        intros p Hp. apply Hframe. intros a Ha. apply Hp. by apply Hiff. }
    cbv zeta in Hrun.
    assert (Hhere : located safe_root ((band_id, alias) :: rest) alias).
    { exists band_id. split; [left|]. by rewrite Hlocate. }
    assert (Hsplit : ∀ a, located safe_root ((band_id, alias) :: rest) a ↔
                          a = alias ∨ located safe_root rest a).
    { intros a. split.
      - intros (b & [[= -> ->]|Hb]%elem_of_cons & Hsome); [by left|right; by exists b].
      - intros [->|(b & Hb & Hsome)]; [done|]. exists b. split; [by right|done]. }
    set (tif_path := output_path destination alias) in *.
    assert (Hstep : ∃ w1 : world,
              foldM (extract_band glob st_mtime safe_root destination)
                    (<[alias := tif_path]> acc) rest w1 = (inr extracted, w') ∧
              (∀ p, is_Some (files w !! p) → is_Some (files w1 !! p)) ∧
              is_Some (files w1 !! tif_path) ∧
              (∀ p, p ≠ tif_path → files w1 !! p = files w !! p)).
    { destruct ((reusable st_mtime tif_path jp2_path w).1) as [e|[|]] eqn:Hcached.
      - unfold reusable in Hcached. cbn in Hcached. discriminate.
      - exists w. split; [done|]. split; [done|]. split; [|done].
        unfold reusable in Hcached. cbn in Hcached.
        destruct (files w !! tif_path); [done|discriminate].
      - destruct (files w !! jp2_path) as [[src|rows]|]; [|discriminate..].
        eexists. split; [exact Hrun|]. cbn [files]. split; [|split].
        + intros p Hp. destruct (decide (p = tif_path)) as [->|Hne].
          * by rewrite lookup_insert_eq.
          * by rewrite lookup_insert_ne.
        + by rewrite lookup_insert_eq.
        + intros p Hne. by rewrite lookup_insert_ne. }
    clear Hrun. destruct Hstep as (w1 & Hrun & Hmono1 & Htif & Hframe1).
    apply IH in Hrun as (Hin & Hout & Hmono & Hfile & Hframe).
    split; [|split; [|split; [|split]]].
    + intros a [->|Hr]%Hsplit; [|by apply Hin].
      destruct (located_dec safe_root rest alias) as [Hr|Hr]; [by apply Hin|].
      rewrite Hout by done. by rewrite lookup_insert_eq.
    + intros a Ha. rewrite Hout by (intros Hr; apply Ha, Hsplit; by right).
      rewrite lookup_insert_ne; [done|]. intros <-. apply Ha, Hsplit. by left.
    + intros p Hp. by apply Hmono, Hmono1.
    + intros a [->|Hr]%Hsplit; [by apply Hmono|by apply Hfile].
    + intros p Hp. rewrite Hframe.
      * apply Hframe1. apply Hp, Hsplit. by left.
      * intros a Ha. apply Hp, Hsplit. by right.
Qed.




(** When every located band is reusable, the loop changes nothing. *)
Lemma extract_loop_cached (safe_root destination : Path) (files0 : gmap Path file) items :
  (∀ band_id alias jp2_path (w0 : world),
     (band_id, alias) ∈ items → _locate_band glob safe_root band_id = Some jp2_path →
     files w0 = files0 →
     (reusable st_mtime (output_path destination alias) jp2_path w0).1 = inr true) →
  ∀ acc (w : world), files w = files0 →
  ∃ extracted,
    foldM (extract_band glob st_mtime safe_root destination) acc items w = (inr extracted, w).
Proof.
  induction items as [|[b a] rest IH]; intros Hcached acc w Hfiles; [by exists acc|].
  cbn [foldM]. rewrite run_bind, extract_band_run.
  destruct (_locate_band glob safe_root b) as [jp2|] eqn:Hb.
  - cbv zeta. rewrite (Hcached b a jp2 w) by (done || left).
    apply IH; [|done]. intros b1 a1 j1 w0 Hin. apply Hcached. by right.
  - apply IH; [|done]. intros b1 a1 j1 w0 Hin. apply Hcached. by right.
Qed.

Lemma extract_run self safe_archive destination (w : world) :
  extract glob st_mtime unzip cleanup self safe_archive destination w =
    let logged := {| files := files w; trace := trace w ++ [Mkdir destination] |} in
    if String.eqb (suffix safe_archive) ".zip" then
      match unzip safe_archive logged with
      | (inr safe_root, w1) =>
          match foldM (extract_band glob st_mtime safe_root destination) ∅ (bands self) w1
          with
          | (inr extracted, w2) =>
              match cleanup w2 with
              | (inr _, w3) => (inr extracted, w3)
              | (inl e, w3) => (inl e, w3)
              end
          | (inl e, w2) => (inl e, w2)
          end
      | (inl e, w1) => (inl e, w1)
      end
    else
      foldM (extract_band glob st_mtime safe_archive destination) ∅ (bands self) logged.
Proof.
  unfold extract. rewrite run_bind. cbn [mkdir_parents log]. cbv zeta. rewrite run_bind.
  destruct (String.eqb (suffix safe_archive) ".zip").
  - destruct (unzip safe_archive _) as [[e|safe_root] w1]; [done|].
    rewrite run_bind. destruct (foldM _ _ _ w1) as [[e|extracted] w2]; [done|].
    rewrite run_bind. by destruct (cleanup w2) as [[e|[]] w3].
  - cbn. rewrite run_bind.
    by destruct (foldM _ _ _ _) as [[e|extracted] w2].
Qed.

(** When [extract] returns, its result maps the alias of every band
    that [_locate_band] finds in the SAFE root, and no other, to
    [destination/<alias>.tif]: a band that is not found is left out
    without an error.  For a [.zip] archive the SAFE root is what
    unzipping it returned.  For any other path the SAFE root is the path
    itself, each of the files returned exists, the files that were there
    are still there, and no file other than a GeoTIFF
    [destination/<alias>.tif] has changed. *)
Theorem extract_outputs self safe_archive destination (w w' : world) extracted :
  extract glob st_mtime unzip cleanup self safe_archive destination w = (inr extracted, w') →
  let logged := {| files := files w; trace := trace w ++ [Mkdir destination] |} in
  ∃ safe_root,
    (if String.eqb (suffix safe_archive) ".zip"
     then ∃ w1, unzip safe_archive logged = (inr safe_root, w1)
     else safe_root = safe_archive ∧
          (∀ alias path, extracted !! alias = Some path → is_Some (files w' !! path)) ∧
          (∀ p, is_Some (files w !! p) → is_Some (files w' !! p)) ∧
          (∀ p, (∀ alias, p ≠ output_path destination alias) →
                files w' !! p = files w !! p)) ∧
    ∀ alias path,
      extracted !! alias = Some path ↔
      path = output_path destination alias ∧
      ∃ band_id, (band_id, alias) ∈ bands self ∧
                 is_Some (_locate_band glob safe_root band_id).
Proof.
  rewrite extract_run. cbv zeta. intros Hrun.
  assert (Hdict : ∀ safe_root (w1 w2 : world),
            foldM (extract_band glob st_mtime safe_root destination) ∅ (bands self) w1
              = (inr extracted, w2) →
            ∀ alias path,
              extracted !! alias = Some path ↔
              path = output_path destination alias ∧
              ∃ band_id, (band_id, alias) ∈ bands self ∧
                         is_Some (_locate_band glob safe_root band_id)).
  { intros safe_root w1 w2 (Hin & Hout & _)%extract_loop alias path.
    destruct (located_dec safe_root (bands self) alias) as [Hl|Hl].
    - rewrite Hin by done. split; [by intros [= <-]|by intros [-> _]].
    - rewrite Hout, lookup_empty by done. split; [done|by intros [_ ?]]. }
  destruct (String.eqb (suffix safe_archive) ".zip").
  - destruct (unzip safe_archive _) as [[e|safe_root] w1]; [discriminate|].
    destruct (foldM _ _ _ w1) as [[e|extracted'] w2] eqn:Hloop; [discriminate|].
    destruct (cleanup w2) as [[e|[]] w3]; [discriminate|]. injection Hrun as -> ->.
    exists safe_root. split; [eauto|]. by eapply Hdict.
  - exists safe_archive. split; [|by eapply Hdict].
    split; [done|]. pose proof (Hdict _ _ _ Hrun) as Hkeys.
    apply extract_loop in Hrun as (Hin & Hout & Hmono & Hfile & Hframe).
    cbn [files] in Hmono, Hframe. split; [|split; [done|]].
    + intros alias path [-> Hl]%Hkeys. by apply Hfile.
    + intros p Hp. apply Hframe. intros alias _. apply Hp.
Qed.


(** For a SAFE folder whose located bands all have a GeoTIFF that is at
    least as new as its source, [extract] opens and writes nothing: it
    makes the destination directory and returns the cached paths. *)
Theorem extract_reuses_cache self safe_archive destination (w : world) :
  String.eqb (suffix safe_archive) ".zip" = false →
  (∀ band_id alias jp2_path (w0 : world),
     (band_id, alias) ∈ bands self →
     _locate_band glob safe_archive band_id = Some jp2_path →
     files w0 = files w →
     (reusable st_mtime (output_path destination alias) jp2_path w0).1 = inr true) →
  ∃ extracted,
    extract glob st_mtime unzip cleanup self safe_archive destination w
      = (inr extracted,
         {| files := files w; trace := trace w ++ [Mkdir destination] |}) ∧
    ∀ alias path,
      extracted !! alias = Some path ↔
      path = output_path destination alias ∧
      ∃ band_id, (band_id, alias) ∈ bands self ∧
                 is_Some (_locate_band glob safe_archive band_id).
Proof.
  intros Hfolder Hcached. rewrite extract_run, Hfolder. cbv zeta.
  destruct (extract_loop_cached safe_archive destination (files w) (bands self) Hcached ∅
              {| files := files w; trace := trace w ++ [Mkdir destination] |} eq_refl)
    as [extracted Hrun].
  exists extracted. split; [done|].
  apply extract_loop in Hrun as (Hin & Hout & _).
  intros alias path. destruct (located_dec safe_archive (bands self) alias) as [Hl|Hl].
  - rewrite Hin by done. split; [by intros [= <-]|by intros [-> _]].
  - rewrite Hout, lookup_empty by done. split; [done|by intros [_ ?]].
Qed.

End extract_facts.


Lemma extract_outputs_witness :
  let logged :=
    {| rasterio.files := rasterio.files examples.safe_disk;
       rasterio.trace :=
         rasterio.trace examples.safe_disk ++ [rasterio.Mkdir examples.processed] |} in
  ∃ safe_root,
    (if String.eqb (pathlib.suffix examples.safe_folder) ".zip"
     then ∃ w1, examples.no_unzip examples.safe_folder logged = (inr safe_root, w1)
     else safe_root = examples.safe_folder ∧
          (∀ alias path, examples.extraction_result !! alias = Some path →
                         is_Some (rasterio.files examples.extraction.2 !! path)) ∧
          (∀ p, is_Some (rasterio.files examples.safe_disk !! p) →
                is_Some (rasterio.files examples.extraction.2 !! p)) ∧
          (∀ p, (∀ alias, p ≠ output_path examples.processed alias) →
                rasterio.files examples.extraction.2 !! p
                = rasterio.files examples.safe_disk !! p)) ∧
    ∀ alias path,
      examples.extraction_result !! alias = Some path ↔
      path = output_path examples.processed alias ∧
      ∃ band_id,
        (band_id, alias) ∈ safe_extractor.bands examples.three_bands ∧
        is_Some (safe_extractor._locate_band examples.img_glob safe_root band_id).
Proof.
  apply (extract_outputs examples.img_glob examples.no_mtime examples.no_unzip (mret tt)
           examples.three_bands examples.safe_folder examples.processed
           examples.safe_disk examples.extraction.2 examples.extraction_result).
  vm_compute. reflexivity.
Defined.


Lemma extract_reuses_cache_witness :
  ∃ extracted,
    safe_extractor.extract examples.img_glob examples.one_mtime examples.no_unzip (mret tt)
      examples.three_bands examples.safe_folder examples.processed examples.cached_disk
      = (inr extracted,
         {| rasterio.files := rasterio.files examples.cached_disk;
            rasterio.trace :=
              rasterio.trace examples.cached_disk ++ [rasterio.Mkdir examples.processed] |}) ∧
    ∀ alias path,
      extracted !! alias = Some path ↔
      path = output_path examples.processed alias ∧
      ∃ band_id,
        (band_id, alias) ∈ safe_extractor.bands examples.three_bands ∧
        is_Some (safe_extractor._locate_band examples.img_glob examples.safe_folder band_id).
Proof.
  apply (extract_reuses_cache examples.img_glob examples.one_mtime examples.no_unzip (mret tt)
           examples.three_bands examples.safe_folder examples.processed
           examples.cached_disk eq_refl).
  intros band_id alias jp2_path w0 Hin Hlocate Hfiles.
  unfold safe_extractor.reusable. cbn [fst]. rewrite Hfiles.
  cbn [safe_extractor.bands examples.three_bands] in Hin.
  repeat (apply elem_of_cons in Hin as [Hin|Hin]); try (by apply elem_of_nil in Hin);
    injection Hin as -> ->; vm_compute in Hlocate; try discriminate;
    vm_compute; reflexivity.
Defined.

(** ** The scenarios of the specification, run on the model *)


(** Scenario 1: nir 0.5 and red 0.1 on one 2x2 grid give the same NDVI at
    every pixel, the float32 nearest to (0.5 - 0.1) / (0.5 + 0.1), which
    lies between 0.6666 and 0.6667. *)
Example ndvi_of_half_and_tenth :
  let v := S754_finite false 11184810 (-24) in
  index_calculator.compute_ndvi prec32 emax32 examples.nir_half examples.red_tenth
    = [[v; v]; [v; v]] ∧
  SFltb (SFdiv prec32 emax32 (examples.f32 6666 0) (examples.f32 10000 0)) v = true ∧
  SFltb v (SFdiv prec32 emax32 (examples.f32 6667 0) (examples.f32 10000 0)) = true.
Proof. repeat split; reflexivity. Qed.

(** Scenario 4: a 2x2 raster with one NaN pixel is exported as the header
    and three rows, one per finite pixel, each with the center of its
    pixel: (0.5, -0.5), (0.5, -1.5) and (1.5, -1.5) on the unit grid. *)
Example export_of_holed_raster :
  csv_exporter.written_rows examples.pixel_center csv_exporter.CSVExporter_init
    examples.holed examples.fine_grid
  = [ [rasterio.CStr "longitude"; rasterio.CStr "latitude"; rasterio.CStr "value"];
      [rasterio.CNum (examples.f64 1 (-1)); rasterio.CNum (examples.f64 (-1) (-1));
       rasterio.CNum (examples.f32 1 0)];
      [rasterio.CNum (examples.f64 1 (-1)); rasterio.CNum (examples.f64 (-3) (-1));
       rasterio.CNum (examples.f32 3 0)];
      [rasterio.CNum (examples.f64 3 (-1)); rasterio.CNum (examples.f64 (-3) (-1));
       rasterio.CNum (examples.f32 4 0)] ].
Proof. reflexivity. Qed.
